(** * ScreenshotHelper: a shallow embedding of [src/electron/ScreenshotHelper.ts]

    The class keeps two bounded queues of file paths (JavaScript arrays held
    by reference), a current view, and talks to the file system, to a screen
    capture tool and to a UUID generator.  The embedding makes all of that
    explicit:

    - the JavaScript heap of arrays, the file system, a call counter and the
      list of awaited delays form the [World];
    - the fields of the object form [ScreenshotHelper];
    - every answer of the outside (tool results, UUIDs, I/O errors, time
      stamps) is read from a script [Env], indexed by the call counter;
    - methods are computations in a state-and-exception monad [M], in which a
      [Throw] keeps the side effects done so far, as in JavaScript.

    [console] output is left out, and so is [getImagePreview], which touches
    neither the queues nor the disk. *)

From stdpp Require Import gmap strings list fin_maps pretty.
From Stdlib Require Import Init.Byte.
From Stdlib Require Strings.Byte.
From Stdlib Require Import Strings.Ascii.
From Stdlib Require QArith.

(** ** Buffers *)

#[global] Instance byte_eq_decision : EqDecision byte := Strings.Byte.byte_eq_dec.

Abbreviation Buffer := (list byte).

(** ** Completions and the monad *)

Inductive Completion (A : Type) : Type :=
| Return (a : A)
| Throw (msg : string).
Arguments Return {A} a.
Arguments Throw {A} msg.

(** What a promise handed out by a tool settles to, and after how long. *)
Inductive Settled (A : Type) : Type :=
| Resolved (a : A)
| Rejected (msg : string).
Arguments Resolved {A} a.
Arguments Rejected {A} msg.

Record Promise (A : Type) : Type := mkPromise {
  elapsed_ms : Z;
  settled : Settled A;
}.
Arguments mkPromise {A} _ _.
Arguments elapsed_ms {A} _.
Arguments settled {A} _.

Inductive FsOp : Type :=
| OpMkdir | OpReaddir | OpStat | OpUnlink | OpReadFile | OpWriteFile.

Inductive View : Type := queue | solutions | debug.

#[global] Instance View_eq_decision : EqDecision View.
Proof. solve_decision. Defined.

(** The script of the environment.  The [nat] argument is the value of the
    call counter when the question is asked. *)
Record Env : Type := mkEnv {
  win32 : bool;                                   (* process.platform === "win32" *)
  userData : string;                              (* app.getPath("userData") *)
  temp : string;                                  (* app.getPath("temp") *)
  uuid : nat -> string;                           (* uuidv4() *)
  screenshot_buffer : nat -> Settled Buffer;      (* screenshot({ format: "png" }) *)
  screenshot_file : nat -> Promise (option Buffer);
      (* screenshot({ filename, screen: 0 }): what it left in the file, if anything *)
  powershell : nat -> Promise (option Buffer);
      (* the PowerShell script: what it saved in the file, if anything *)
  fs_fault : nat -> FsOp -> string -> option string;
      (* the message of the error an fs call fails with, if it fails *)
  date_now : nat -> Z;                            (* Date.now() *)
  mtimeMs : nat -> string -> Z;                   (* fs.statSync(p).mtimeMs *)
}.

Record World : Type := mkWorld {
  files : gmap string Buffer;          (* regular files, by path *)
  dirs : gset string;                  (* directories, by path *)
  arrays : gmap nat (list string);     (* the string[] objects of the heap *)
  next_ref : nat;                      (* the next unused array reference *)
  clock : nat;                         (* calls made to the outside so far *)
  sleeps : list Z;                     (* awaited setTimeout delays in ms, oldest first *)
}.

Record ScreenshotHelper : Type := mkHelper {
  screenshotQueue : nat;               (* reference to a string[] *)
  extraScreenshotQueue : nat;          (* reference to a string[] *)
  view : View;
}.

Record St : Type := mkSt {
  world : World;
  this : ScreenshotHelper;
}.

Definition M (A : Type) : Type := St -> Completion A * St.

Definition ret {A} (a : A) : M A := fun s => (Return a, s).

Definition throw {A} (msg : string) : M A := fun s => (Throw msg, s).

Definition bind {A B} (m : M A) (k : A -> M B) : M B :=
  fun s =>
    match m s with
    | (Return a, s') => k a s'
    | (Throw e, s') => (Throw e, s')
    end.

(** [try { m } catch (error) { h error.message }] *)
Definition try_catch {A} (m : M A) (h : string -> M A) : M A :=
  fun s =>
    match m s with
    | (Return a, s') => (Return a, s')
    | (Throw e, s') => h e s'
    end.

Declare Scope js_scope.
Delimit Scope js_scope with js.
Notation "x <- m ;; k" := (bind m (fun x => k))
  (at level 100, m at next level, right associativity) : js_scope.
Notation "m ;; k" := (bind m (fun _ => k))
  (at level 100, right associativity) : js_scope.
Local Open Scope js_scope.

(** [for (const x of l) { body x }] *)
Fixpoint for_of {A} (l : list A) (body : A -> M unit) : M unit :=
  match l with
  | [] => ret tt
  | x :: rest => body x ;; for_of rest body
  end.

Definition when (b : bool) (m : M unit) : M unit := if b then m else ret tt.

(** ** State access *)

Definition set_files (f : gmap string Buffer) (w : World) : World :=
  mkWorld f (dirs w) (arrays w) (next_ref w) (clock w) (sleeps w).
Definition set_dirs (d : gset string) (w : World) : World :=
  mkWorld (files w) d (arrays w) (next_ref w) (clock w) (sleeps w).
Definition set_arrays (a : gmap nat (list string)) (w : World) : World :=
  mkWorld (files w) (dirs w) a (next_ref w) (clock w) (sleeps w).
Definition set_next_ref (n : nat) (w : World) : World :=
  mkWorld (files w) (dirs w) (arrays w) n (clock w) (sleeps w).
Definition set_clock (n : nat) (w : World) : World :=
  mkWorld (files w) (dirs w) (arrays w) (next_ref w) n (sleeps w).
Definition set_sleeps (l : list Z) (w : World) : World :=
  mkWorld (files w) (dirs w) (arrays w) (next_ref w) (clock w) l.

Definition get_world : M World := fun s => (Return (world s), s).
Definition modify_world (f : World -> World) : M unit :=
  fun s => (Return tt, mkSt (f (world s)) (this s)).
Definition get_this : M ScreenshotHelper := fun s => (Return (this s), s).
Definition set_this (h : ScreenshotHelper) : M unit :=
  fun s => (Return tt, mkSt (world s) h).

(** One more call to the outside: returns the counter and advances it. *)
Definition tick : M nat :=
  fun s => (Return (clock (world s)),
            mkSt (set_clock (S (clock (world s))) (world s)) (this s)).

(** ** Arrays on the heap *)

Definition array_get (r : nat) (w : World) : list string :=
  default [] (arrays w !! r).

(** [[]] or the result of [filter]: a new array object. *)
Definition array_new (l : list string) : M nat :=
  fun s =>
    let w := world s in
    (Return (next_ref w),
     mkSt (set_next_ref (S (next_ref w)) (set_arrays (<[next_ref w := l]> (arrays w)) w))
          (this s)).

Definition array_read (r : nat) : M (list string) :=
  w <- get_world ;; ret (array_get r w).

(** [a.push(x)], in place. *)
Definition array_push (r : nat) (x : string) : M unit :=
  modify_world (fun w => set_arrays (<[r := array_get r w ++ [x]]> (arrays w)) w).

(** [a.shift()], in place; [None] is [undefined]. *)
Definition array_shift (r : nat) : M (option string) :=
  w <- get_world ;;
  match array_get r w with
  | [] => ret None
  | x :: rest =>
      modify_world (fun w => set_arrays (<[r := rest]> (arrays w)) w) ;;
      ret (Some x)
  end.

(** ** Paths and file names *)

(** [path.join(dir, file)] for a directory path and a plain file name, with
    ["/"] as the separator on every platform. *)
Definition path_join (dir file : string) : string := dir +:+ "/" +:+ file.

(** The part of [p] before its last ["/"], if it has one. *)
Fixpoint before_last_slash (p : string) : option string :=
  match p with
  | EmptyString => None
  | String c rest =>
      match before_last_slash rest with
      | Some d => Some (String c d)
      | None => if Ascii.eqb c "/"%char then Some EmptyString else None
      end
  end.

(** [path.dirname(p)] *)
Definition dirname (p : string) : string :=
  match before_last_slash p with
  | Some EmptyString => "/"
  | Some d => d
  | None => "."
  end.

(** The directories above [p], nearest first, up to the root or the
    current directory: [path.dirname] applied again and again. *)
Fixpoint parents_upto (fuel : nat) (p : string) : list string :=
  match fuel with
  | 0 => []
  | S fuel =>
      let d := dirname p in
      if String.eqb d "/" || String.eqb d "." then [] else d :: parents_upto fuel d
  end.

Definition parents (p : string) : list string := parents_upto (String.length p) p.

Fixpoint strip_prefix (pre s : string) : option string :=
  match pre, s with
  | EmptyString, _ => Some s
  | String a pre', String b s' => if Ascii.eqb a b then strip_prefix pre' s' else None
  | String _ _, EmptyString => None
  end.

(** [s.endsWith(suffix)] *)
Definition endsWith (s suffix : string) : bool :=
  match strip_prefix (String.rev suffix) (String.rev s) with
  | Some _ => true
  | None => false
  end.

(** The name under which [p] is listed in [dir], when [p] lies directly in it. *)
Definition entry_name (dir p : string) : option string :=
  match strip_prefix (dir +:+ "/") p with
  | Some EmptyString => None
  | Some name =>
      match String.index 0 "/" name with
      | Some _ => None
      | None => Some name
      end
  | None => None
  end.

(** ** Validation *)

(** PNG signature: 137 80 78 71 13 10 26 10 *)
Definition pngSignature : Buffer := [x89; x50; x4e; x47; x0d; x0a; x1a; x0a].

Definition isValidPng (buffer : Buffer) : bool :=
  if length buffer <? 8 then false
  else bool_decide (take 8 buffer = pngSignature).

Definition MAX_SCREENSHOTS : nat := 5.
Definition maxRetries : nat := 3.

Section Methods.

Variable env : Env.

Definition screenshotDir : string := path_join (userData env) "screenshots".
Definition extraScreenshotDir : string := path_join (userData env) "extra_screenshots".
Definition tempDir : string := path_join (temp env) "interview-coder-screenshots".

(** ** The outside: file system, UUIDs, clock, tools *)

(** Every fs call that can fail first asks the script whether it does. *)
Definition fs_call (op : FsOp) (p : string) : M nat :=
  n <- tick ;;
  match fs_fault env n op p with
  | Some e => throw e
  | None => ret n
  end.

(** [fs.existsSync(p)]: a file or a directory is at [p]; it never throws. *)
Definition existsSync (p : string) : M bool :=
  w <- get_world ;;
  ret (bool_decide (is_Some (files w !! p)) || bool_decide (p ∈ dirs w)).

(** [fs.mkdirSync(p, { recursive: true })] creates [p] and every parent of
    [p] that is missing; the root and the current directory always exist and
    are not recorded. *)
Definition mkdirSync (p : string) : M unit :=
  fs_call OpMkdir p ;;
  modify_world (fun w => set_dirs (list_to_set (p :: parents p) ∪ dirs w) w).

(** The names of the files and directories that lie directly in [dir].  The
    two callers test [existsSync dir] first; any error of the call itself
    comes from the script. *)
Definition readdirSync (dir : string) : M (list string) :=
  fs_call OpReaddir dir ;;
  w <- get_world ;;
  ret (omap (entry_name dir) (elements (dom (files w)) ++ elements (dirs w))).

Definition statSync_mtimeMs (p : string) : M Z :=
  n <- fs_call OpStat p ;;
  ret (mtimeMs env n p).

(** [fs.unlinkSync], [fs.promises.unlink] and [fs.unlink] with a callback. *)
Definition unlink (p : string) : M unit :=
  fs_call OpUnlink p ;;
  w <- get_world ;;
  match files w !! p with
  | Some _ => modify_world (fun w => set_files (delete p (files w)) w)
  | None => throw ("ENOENT: no such file or directory, unlink '" +:+ p +:+ "'")
  end.

Definition readFile (p : string) : M Buffer :=
  fs_call OpReadFile p ;;
  w <- get_world ;;
  match files w !! p with
  | Some b => ret b
  | None => throw ("ENOENT: no such file or directory, open '" +:+ p +:+ "'")
  end.

Definition writeFile (p : string) (b : Buffer) : M unit :=
  fs_call OpWriteFile p ;;
  modify_world (fun w => set_files (<[p := b]> (files w)) w).

Definition uuidv4 : M string := n <- tick ;; ret (uuid env n).

Definition Date_now : M Z := n <- tick ;; ret (date_now env n).

(** [await new Promise((resolve) => setTimeout(resolve, delay))] *)
Definition sleep (delay : Z) : M unit :=
  modify_world (fun w => set_sleeps (sleeps w ++ [delay]) w).

(** [withTimeout]: the promise races a timer of [ms] milliseconds; the one
    that is first decides, and a promise that settles exactly when the timer
    fires has lost. *)
Definition withTimeout {A} (promise : Promise A) (ms : Z) (errorMessage : string) : M A :=
  if (elapsed_ms promise <? ms)%Z then
    match settled promise with
    | Resolved a => ret a
    | Rejected e => throw e
    end
  else throw errorMessage.

(** A tool that is asked to leave an image in [file], awaited under a
    timeout.  What a tool writes after it has lost the race is not part of
    the model: the file name is never used again. *)
Definition capture_to_file (tool : nat -> Promise (option Buffer)) (file : string)
    (ms : Z) (errorMessage : string) : M unit :=
  n <- tick ;;
  written <- withTimeout (tool n) ms errorMessage ;;
  match written with
  | Some b => modify_world (fun w => set_files (<[file := b]> (files w)) w)
  | None => ret tt
  end.

(** ** Construction *)

Definition ensureDirectoriesExist : M unit :=
  for_of [screenshotDir; extraScreenshotDir; tempDir] (fun dir =>
    e <- existsSync dir ;;
    when (negb e) (try_catch (mkdirSync dir) (fun _ => ret tt))).

(** The body shared by the two halves of [cleanScreenshotDirectories]. *)
Definition cleanDirectory (dir : string) : M unit :=
  e <- existsSync dir ;;
  when e (
    names <- readdirSync dir ;;
    let files := map (path_join dir) (filter (fun file => endsWith file ".png" = true) names) in
    for_of files (fun file => try_catch (unlink file) (fun _ => ret tt))).

Definition cleanScreenshotDirectories : M unit :=
  try_catch
    (cleanDirectory screenshotDir ;;
     cleanDirectory extraScreenshotDir)
    (fun _ => ret tt).

(** [new ScreenshotHelper(view)] in world [w]: the field initialisers, then
    the constructor body.  Nothing in it can throw. *)
Definition constructor (view : View) (w : World) : St :=
  let init :=
    q <- array_new [] ;;
    e <- array_new [] ;;
    set_this (mkHelper q e view) ;;
    ensureDirectoriesExist ;;
    cleanScreenshotDirectories in
  snd (init (mkSt w (mkHelper 0 0 view))).

(** ** Accessors *)

Definition getView : M View := h <- get_this ;; ret (view h).

Definition setView (v : View) : M unit :=
  h <- get_this ;;
  set_this (mkHelper (screenshotQueue h) (extraScreenshotQueue h) v).

(** Both getters hand out the array object held in the field. *)
Definition getScreenshotQueue : M nat := h <- get_this ;; ret (screenshotQueue h).

Definition getExtraScreenshotQueue : M nat := h <- get_this ;; ret (extraScreenshotQueue h).

(** ** Clearing *)

Definition set_screenshotQueue (q : nat) : M unit :=
  h <- get_this ;; set_this (mkHelper q (extraScreenshotQueue h) (view h)).

Definition set_extraScreenshotQueue (q : nat) : M unit :=
  h <- get_this ;; set_this (mkHelper (screenshotQueue h) q (view h)).

(** [fs.unlink(p, callback)] only logs an error; its deletions are taken
    to happen in call order. *)
Definition clearQueues : M unit :=
  h <- get_this ;;
  l <- array_read (screenshotQueue h) ;;
  for_of l (fun screenshotPath => try_catch (unlink screenshotPath) (fun _ => ret tt)) ;;
  q <- array_new [] ;;
  set_screenshotQueue q ;;
  h <- get_this ;;
  l <- array_read (extraScreenshotQueue h) ;;
  for_of l (fun screenshotPath => try_catch (unlink screenshotPath) (fun _ => ret tt)) ;;
  q <- array_new [] ;;
  set_extraScreenshotQueue q.

Definition clearExtraScreenshotQueue : M unit :=
  h <- get_this ;;
  l <- array_read (extraScreenshotQueue h) ;;
  for_of l (fun screenshotPath =>
    e <- existsSync screenshotPath ;;
    when e (try_catch (unlink screenshotPath) (fun _ => ret tt))) ;;
  q <- array_new [] ;;
  set_extraScreenshotQueue q.

(** ** Capture *)

Definition cleanupTempFiles : M unit :=
  try_catch
    (e <- existsSync tempDir ;;
     when e (
       names <- readdirSync tempDir ;;
       now <- Date_now ;;
       for_of names (fun file =>
         let filePath := path_join tempDir file in
         try_catch
           (mtime <- statSync_mtimeMs filePath ;;
            (* Delete files older than 5 minutes *)
            when (5 * 60 * 1000 <? now - mtime)%Z (unlink filePath))
           (fun _ => ret tt))))
    (fun _ => ret tt).

(** Method 1: the body of the outer [try] of a round, up to [return buffer]. *)
Definition method1 : M Buffer :=
  id <- uuidv4 ;;
  let tempFile := path_join tempDir ("temp-" +:+ id +:+ ".png") in
  capture_to_file (screenshot_file env) tempFile
    5000%Z "screenshot-desktop timed out after 5 seconds" ;;
  e <- existsSync tempFile ;;
  if e then
    buffer <- readFile tempFile ;;
    if negb (isValidPng buffer) then throw "Invalid PNG format"
    else if length buffer <? 1024 then throw "Screenshot too small - likely invalid"
    else
      try_catch (unlink tempFile) (fun _ => ret tt) ;;
      ret buffer
  else throw "Screenshot file not created".

(** Method 2: the body of the inner [try] of a round, up to [return buffer]. *)
Definition method2 : M Buffer :=
  id <- uuidv4 ;;
  let tempFile := path_join tempDir ("ps-temp-" +:+ id +:+ ".png") in
  capture_to_file (powershell env) tempFile
    10000%Z "PowerShell screenshot timed out after 10 seconds" ;;
  e <- existsSync tempFile ;;
  if e then
    buffer <- readFile tempFile ;;
    if negb (isValidPng buffer) then throw "Invalid PNG format from PowerShell"
    else if length buffer <? 1024 then throw "PowerShell screenshot too small - likely invalid"
    else
      try_catch (unlink tempFile) (fun _ => ret tt) ;;
      ret buffer
  else throw "PowerShell screenshot file not created".

(** One pass through the body of the [for] loop, before the back-off: the
    buffer to return from the function, if any, and the [errors] array. *)
Definition attempt_round (attempt : nat) (errors : list string)
    : M (option Buffer * list string) :=
  try_catch
    (buffer <- method1 ;; ret (Some buffer, errors))
    (fun errorMsg =>
       let errors :=
         errors ++ ["Method 1 (attempt " +:+ pretty attempt +:+ "): " +:+ errorMsg] in
       try_catch
         (buffer <- method2 ;; ret (Some buffer, errors))
         (fun psErrorMsg =>
            ret (None,
                 errors ++ ["Method 2 (attempt " +:+ pretty attempt +:+ "): " +:+ psErrorMsg]))).

(** [for (let attempt = ...; attempt <= maxRetries; attempt++)] over the
    attempts still to do.  The result is the returned buffer, if a method
    succeeded, together with the [errors] array at that point. *)
Fixpoint attempts_loop (todo : list nat) (errors : list string)
    : M (option Buffer * list string) :=
  match todo with
  | [] => ret (None, errors)
  | attempt :: rest =>
      r <- attempt_round attempt errors ;;
      match r with
      | (Some buffer, errors) => ret (Some buffer, errors)
      | (None, errors) =>
          (* Wait before retrying (exponential backoff) *)
          when (attempt <? maxRetries) (sleep (200 * 2 ^ (Z.of_nat attempt - 1))%Z) ;;
          attempts_loop rest errors
      end
  end.

Definition captureWindowsAttempts : M (option Buffer * list string) :=
  cleanupTempFiles ;;
  attempts_loop (seq 1 maxRetries) [].

Definition captureWindowsScreenshot : M Buffer :=
  r <- captureWindowsAttempts ;;
  match r with
  | (Some buffer, _) => ret buffer
  | (None, errors) =>
      let errorSummary := String.concat "; " errors in
      throw ("Could not capture screenshot after " +:+ pretty maxRetries
             +:+ " attempts. Errors: " +:+ errorSummary)
  end.

Definition captureScreenshot : M Buffer :=
  try_catch
    (if win32 env then captureWindowsScreenshot
     else
       n <- tick ;;
       match screenshot_buffer env n with
       | Resolved buffer => ret buffer
       | Rejected e => throw e
       end)
    (fun errorMsg => throw ("Failed to capture screenshot: " +:+ errorMsg)).

(** The two branches of [takeScreenshot] differ in the directory and in the
    queue only; [q] is the array the queue field refers to. *)
Definition saveAndEnqueue (dir : string) (q : nat) (screenshotBuffer : Buffer) : M string :=
  id <- uuidv4 ;;
  let screenshotPath := path_join dir (id +:+ ".png") in
  let screenshotDir := dirname screenshotPath in
  e <- existsSync screenshotDir ;;
  when (negb e) (mkdirSync screenshotDir) ;;
  writeFile screenshotPath screenshotBuffer ;;
  array_push q screenshotPath ;;
  l <- array_read q ;;
  when (MAX_SCREENSHOTS <? length l) (
    removedPath <- array_shift q ;;
    match removedPath with
    | Some removedPath =>
        when (negb (String.eqb removedPath ""))
          (try_catch (unlink removedPath) (fun _ => ret tt))
    | None => ret tt
    end) ;;
  ret screenshotPath.

Definition takeScreenshot : M string :=
  try_catch
    (screenshotBuffer <- captureScreenshot ;;
     if length screenshotBuffer =? 0 then throw "Screenshot capture returned empty buffer"
     else if negb (isValidPng screenshotBuffer) then
       throw "Captured screenshot is not a valid PNG"
     else
       h <- get_this ;;
       if decide (view h = queue) then
         saveAndEnqueue screenshotDir (screenshotQueue h) screenshotBuffer
       else
         saveAndEnqueue extraScreenshotDir (extraScreenshotQueue h) screenshotBuffer)
    (fun error => throw error).

(** ** Deletion *)

Record DeleteResult : Type := mkDeleteResult {
  success : bool;
  error : option string;
}.

Definition deleteScreenshot (path : string) : M DeleteResult :=
  try_catch
    (e <- existsSync path ;;
     when e (unlink path) ;;
     h <- get_this ;;
     (if decide (view h = queue) then
        l <- array_read (screenshotQueue h) ;;
        q <- array_new (filter (fun filePath => filePath ≠ path) l) ;;
        set_screenshotQueue q
      else
        l <- array_read (extraScreenshotQueue h) ;;
        q <- array_new (filter (fun filePath => filePath ≠ path) l) ;;
        set_extraScreenshotQueue q) ;;
     ret (mkDeleteResult true None))
    (fun errorMsg => ret (mkDeleteResult false (Some errorMsg))).

(** ** Sequences of calls *)

Inductive Call : Type :=
| CallSetView (v : View)
| CallGetView
| CallGetScreenshotQueue
| CallGetExtraScreenshotQueue
| CallClearQueues
| CallTakeScreenshot
| CallDeleteScreenshot (path : string)
| CallClearExtraScreenshotQueue.

(** The state a call leaves behind, whether it returns or throws. *)
Definition call (c : Call) (s : St) : St :=
  match c with
  | CallSetView v => snd (setView v s)
  | CallGetView => snd (getView s)
  | CallGetScreenshotQueue => snd (getScreenshotQueue s)
  | CallGetExtraScreenshotQueue => snd (getExtraScreenshotQueue s)
  | CallClearQueues => snd (clearQueues s)
  | CallTakeScreenshot => snd (takeScreenshot s)
  | CallDeleteScreenshot path => snd (deleteScreenshot path s)
  | CallClearExtraScreenshotQueue => snd (clearExtraScreenshotQueue s)
  end.

Definition run (cs : list Call) (s : St) : St := foldl (fun s c => call c s) s cs.

End Methods.

(** The contents of the two queues. *)
Definition primary (s : St) : list string := array_get (screenshotQueue (this s)) (world s).
Definition secondary (s : St) : list string := array_get (extraScreenshotQueue (this s)) (world s).

(** * The preview of an image *)

Section Preview.

Variable env : Env.

(** [data.toString("base64")] of Node's [Buffer]. *)
Variable toString_base64 : Buffer -> string.

Definition getImagePreview (filepath : string) : M string :=
  try_catch
    (e <- existsSync filepath ;;
     if negb e then ret ""
     else
       data <- readFile env filepath ;;
       ret ("data:image/png;base64," +:+ toString_base64 data))
    (fun _ => ret "").

End Preview.

(** * ConfigHelper: [src/electron/ConfigHelper.ts]

    A configuration is a JavaScript object whose values come from a JSON
    file or from a caller.  Such an object is a finite map from property
    names to values; a property that is absent reads as [undefined]. *)

(** A JavaScript number: a double, taken as the rational it denotes, with
    the two zeros identified. *)
Inductive JsNumber : Type :=
| NaN
| NegInfinity
| Infinity
| Finite (q : QArith_base.Q).

(** [a <= b]; false as soon as one of the two is [NaN]. *)
Definition num_le (a b : JsNumber) : bool :=
  match a, b with
  | NaN, _ | _, NaN => false
  | NegInfinity, _ => true
  | _, Infinity => true
  | Finite x, Finite y => QArith_base.Qle_bool x y
  | _, _ => false
  end.

Definition Math_max (a b : JsNumber) : JsNumber :=
  match a, b with
  | NaN, _ | _, NaN => NaN
  | _, _ => if num_le a b then b else a
  end.

Definition Math_min (a b : JsNumber) : JsNumber :=
  match a, b with
  | NaN, _ | _, NaN => NaN
  | _, _ => if num_le a b then a else b
  end.

(** [JObject] stands for an array or an object that occurs as a value; no
    two of them are the same object. *)
Inductive JsValue : Type :=
| JUndefined
| JNull
| JBool (b : bool)
| JNum (n : JsNumber)
| JStr (s : string)
| JObject.

(** Sameness of two values as terms.  It is finer than [===]: [NaN] is the
    same term as itself, and two fractions of one value are two terms. *)
#[global] Instance Q_eq_decision : EqDecision QArith_base.Q.
Proof. solve_decision. Defined.

#[global] Instance JsNumber_eq_decision : EqDecision JsNumber.
Proof. solve_decision. Defined.

#[global] Instance JsValue_eq_decision : EqDecision JsValue.
Proof. solve_decision. Defined.

(** [!!v] *)
Definition truthy (v : JsValue) : bool :=
  match v with
  | JUndefined | JNull => false
  | JBool b => b
  | JNum NaN => false
  | JNum (Finite q) => negb (QArith_base.Qeq_bool q (QArith_base.Qmake 0 1))
  | JNum _ => true
  | JStr s => negb (String.eqb s "")
  | JObject => true
  end.

(** [a === b] *)
Definition strict_eq (a b : JsValue) : bool :=
  match a, b with
  | JUndefined, JUndefined => true
  | JNull, JNull => true
  | JBool x, JBool y => Bool.eqb x y
  | JNum (Finite x), JNum (Finite y) => QArith_base.Qeq_bool x y
  | JNum Infinity, JNum Infinity => true
  | JNum NegInfinity, JNum NegInfinity => true
  | JStr x, JStr y => String.eqb x y
  | _, _ => false
  end.

(** [a || b] *)
Definition js_or (a b : JsValue) : JsValue := if truthy a then a else b.

Abbreviation Obj := (gmap string JsValue).

(** [o.key], and [o[key]] *)
Definition get (o : Obj) (key : string) : JsValue := default JUndefined (o !! key).

(** [{ ...a, ...b }] *)
Definition spread (a b : Obj) : Obj := b ∪ a.

(** The double [0.1]. *)
Definition tenth : QArith_base.Q :=
  QArith_base.Qmake 3602879701896397 36028797018963968.

Definition defaultConfig : Obj :=
  list_to_map
    [("apiKey", JStr "");
     ("apiProvider", JStr "gemini");
     ("extractionProvider", JStr "gemini");
     ("solutionProvider", JStr "gemini");
     ("debuggingProvider", JStr "gemini");
     ("extractionModel", JStr "gemini-2.0-flash");
     ("solutionModel", JStr "gemini-2.0-flash");
     ("debuggingModel", JStr "gemini-2.0-flash");
     ("systemPrompt", JStr "");
     ("language", JStr "python");
     ("opacity", JNum (Finite (QArith_base.Qmake 1 1)));
     ("lmstudioEndpoint", JStr "http://localhost:1234/v1");
     ("lmstudioModel", JStr "qwen3-vl-8b")].

Definition GEMINI_MODELS : list string :=
  ["gemini-2.5-flash"; "gemini-2.0-flash"; "gemini-2.5-pro";
   "gemini-2.0-flash-lite"; "gemini-3-pro-preview"; "gemini-3-flash-preview"].

(** [GEMINI_MODELS.includes(model)] *)
Definition includes (l : list string) (v : JsValue) : bool :=
  existsb (fun m => strict_eq (JStr m) v) l.

Definition sanitizeModelSelection (model provider : JsValue) : JsValue :=
  if strict_eq provider (JStr "gemini") then
    if negb (includes GEMINI_MODELS model) then JStr "gemini-2.5-flash"
    else model
  else if strict_eq provider (JStr "lmstudio") then model
  else model.

(** [if (!o[key]) o[key] = o.apiProvider || "gemini"], one of the three
    migration steps of [loadConfig]. *)
Definition migrateProvider (key : string) (loadedConfig : Obj) : Obj :=
  if negb (truthy (get loadedConfig key)) then
    <[key := js_or (get loadedConfig "apiProvider") (JStr "gemini")]> loadedConfig
  else loadedConfig.

(** [if (o[modelKey]) o[modelKey] = sanitizeModelSelection(o[modelKey], o[providerKey])] *)
Definition sanitizeLoaded (modelKey providerKey : string) (loadedConfig : Obj) : Obj :=
  if truthy (get loadedConfig modelKey) then
    <[modelKey := sanitizeModelSelection (get loadedConfig modelKey)
                    (get loadedConfig providerKey)]> loadedConfig
  else loadedConfig.

(** What [loadConfig] makes of the parsed file before it merges it with the
    defaults. *)
Definition migrated (loadedConfig : Obj) : Obj :=
  let loadedConfig := migrateProvider "extractionProvider" loadedConfig in
  let loadedConfig := migrateProvider "solutionProvider" loadedConfig in
  let loadedConfig := migrateProvider "debuggingProvider" loadedConfig in
  let loadedConfig := sanitizeLoaded "extractionModel" "extractionProvider" loadedConfig in
  let loadedConfig := sanitizeLoaded "solutionModel" "solutionProvider" loadedConfig in
  sanitizeLoaded "debuggingModel" "debuggingProvider" loadedConfig.

(** [if (!updates[key]) updates[key] = updates.apiProvider] *)
Definition syncProvider (key : string) (updates : Obj) : Obj :=
  if negb (truthy (get updates key)) then <[key := get updates "apiProvider"]> updates
  else updates.

(** The local function [handleProviderChange] of [updateConfig]; it assigns
    to [updates]. *)
Definition handleProviderChange (currentConfig : Obj) (step : string)
    (newProvider : JsValue) (updates : Obj) : Obj :=
  let modelKey := step +:+ "Model" in
  let oldProvider := get currentConfig (step +:+ "Provider") in
  if negb (strict_eq newProvider oldProvider) then
    if strict_eq newProvider (JStr "lmstudio") then
      <[modelKey := js_or (get currentConfig "lmstudioModel") (JStr "qwen3-vl-8b")]> updates
    else <[modelKey := JStr "gemini-2.0-flash"]> updates
  else updates.

(** [if (updates[key]) updates[key] = sanitizeModelSelection(updates[key], mergedConfig[providerKey])] *)
Definition sanitizeUpdate (mergedConfig : Obj) (modelKey providerKey : string)
    (updates : Obj) : Obj :=
  if truthy (get updates modelKey) then
    <[modelKey := sanitizeModelSelection (get updates modelKey)
                    (get mergedConfig providerKey)]> updates
  else updates.

(** The statements of [updateConfig] between [loadConfig()] and
    [saveConfig(newConfig)]: the [updates] object as they leave it. *)
Definition preparedUpdates (currentConfig updates : Obj) : Obj :=
  let updates :=
    if truthy (get updates "apiProvider")
       && negb (strict_eq (get updates "apiProvider") (get currentConfig "apiProvider"))
    then
      syncProvider "debuggingProvider"
        (syncProvider "solutionProvider" (syncProvider "extractionProvider" updates))
    else updates in
  let updates :=
    if truthy (get updates "extractionProvider") then
      handleProviderChange currentConfig "extraction" (get updates "extractionProvider") updates
    else updates in
  let updates :=
    if truthy (get updates "solutionProvider") then
      handleProviderChange currentConfig "solution" (get updates "solutionProvider") updates
    else updates in
  let updates :=
    if truthy (get updates "debuggingProvider") then
      handleProviderChange currentConfig "debugging" (get updates "debuggingProvider") updates
    else updates in
  let mergedConfig := spread currentConfig updates in
  let updates := sanitizeUpdate mergedConfig "extractionModel" "extractionProvider" updates in
  let updates := sanitizeUpdate mergedConfig "solutionModel" "solutionProvider" updates in
  sanitizeUpdate mergedConfig "debuggingModel" "debuggingProvider" updates.

(** The constructor's choice of [configPath]; [userDataPath] is [None] when
    [app.getPath('userData')] throws. *)
Definition configPath_of (userDataPath : option string) (cwd : string) : string :=
  match userDataPath with
  | Some d => path_join d "config.json"
  | None => path_join cwd "config.json"
  end.

Record KeyTest : Type := mkKeyTest {
  valid : bool;
  test_error : option string;
}.

Section ConfigHelper.

Variable env : Env.

(** The value of the field [configPath]. *)
Variable configPath : string.

(** [JSON.parse], for a file that holds an object: [None] when it throws,
    and also when the file holds [null], on which the first property access
    of [loadConfig] throws.  Other JSON values are not covered. *)
Variable JSON_parse : string -> option Obj.

(** [JSON.stringify(config, null, 2)] *)
Variable JSON_stringify : Obj -> string.

(** What the listeners of ['config-updated'] do when the event is emitted. *)
Variable listeners : Obj -> M unit.

(** [s.trim()], and [s.length] *)
Variable trim : string -> string.
Variable js_length : string -> nat.

(** [fs.readFileSync(p, 'utf8')] and [fs.writeFileSync(p, text)]; a text is
    its sequence of UTF-8 bytes. *)
Definition readFileSync_utf8 (p : string) : M string :=
  data <- readFile env p ;; ret (String.string_of_list_byte data).

Definition writeFileSync (p : string) (text : string) : M unit :=
  writeFile env p (String.list_byte_of_string text).

Definition saveConfig (config : Obj) : M unit :=
  try_catch
    (let configDir := dirname configPath in
     e <- existsSync configDir ;;
     when (negb e) (mkdirSync env configDir) ;;
     writeFileSync configPath (JSON_stringify config))
    (fun _ => ret tt).

Definition ensureConfigExists : M unit :=
  try_catch
    (e <- existsSync configPath ;;
     when (negb e) (saveConfig defaultConfig))
    (fun _ => ret tt).

Definition loadConfig : M Obj :=
  try_catch
    (e <- existsSync configPath ;;
     if e then
       configData <- readFileSync_utf8 configPath ;;
       match JSON_parse configData with
       | None => throw "SyntaxError"
       | Some loadedConfig => ret (spread defaultConfig (migrated loadedConfig))
       end
     else
       saveConfig defaultConfig ;;
       ret defaultConfig)
    (fun _ => ret defaultConfig).

Definition updateConfig (updates : Obj) : M Obj :=
  try_catch
    (currentConfig <- loadConfig ;;
     let updates := preparedUpdates currentConfig updates in
     let newConfig := spread currentConfig updates in
     saveConfig newConfig ;;
     listeners newConfig ;;
     ret newConfig)
    (fun _ => ret defaultConfig).

Definition hasApiKey : M bool :=
  config <- loadConfig ;;
  let usesGemini :=
    strict_eq (get config "extractionProvider") (JStr "gemini")
    || strict_eq (get config "solutionProvider") (JStr "gemini")
    || strict_eq (get config "debuggingProvider") (JStr "gemini") in
  if usesGemini then
    if truthy (get config "apiKey") then
      match get config "apiKey" with
      | JStr apiKey => ret (0 <? js_length (trim apiKey))
      | _ => throw "TypeError: config.apiKey.trim is not a function"
      end
    else ret false
  else ret true.

Definition isValidApiKeyFormat (apiKey : string) : bool := 10 <=? js_length (trim apiKey).

Definition getOpacity : M JsValue :=
  config <- loadConfig ;;
  ret (if negb (strict_eq (get config "opacity") JUndefined) then get config "opacity"
       else JNum (Finite (QArith_base.Qmake 1 1))).

Definition setOpacity (opacity : JsNumber) : M unit :=
  let validOpacity :=
    Math_min (Finite (QArith_base.Qmake 1 1)) (Math_max (Finite tenth) opacity) in
  updateConfig {[ "opacity" := JNum validOpacity ]} ;;
  ret tt.

Definition getLanguage : M JsValue :=
  config <- loadConfig ;;
  ret (js_or (get config "language") (JStr "python")).

Definition setLanguage (language : JsValue) : M unit :=
  updateConfig {[ "language" := language ]} ;;
  ret tt.

Definition testGeminiKey (apiKey : string) : KeyTest :=
  if negb (String.eqb apiKey "") && (20 <=? js_length (trim apiKey)) then mkKeyTest true None
  else mkKeyTest false (Some "Invalid Gemini API key format.").

Definition testApiKey (apiKey : string) : KeyTest := testGeminiKey apiKey.

End ConfigHelper.

(** * The settings dialog: [handleSave] and [maskApiKey] *)

(** The state variables of the dialog that [handleSave] reads. *)
Record Dialog : Type := mkDialog {
  dlg_apiKey : string;
  dlg_extractionProvider : string;
  dlg_solutionProvider : string;
  dlg_debuggingProvider : string;
  dlg_extractionModel : string;
  dlg_solutionModel : string;
  dlg_debuggingModel : string;
  dlg_systemPrompt : string;
  dlg_lmstudioEndpoint : string;
  dlg_lmstudioModel : string;
}.

(** The object that [handleSave] passes to [updateConfig]. *)
Definition configUpdate (d : Dialog) : Obj :=
  let configUpdate : Obj :=
    list_to_map
      [("extractionProvider", JStr (dlg_extractionProvider d));
       ("solutionProvider", JStr (dlg_solutionProvider d));
       ("debuggingProvider", JStr (dlg_debuggingProvider d));
       ("extractionModel", JStr (dlg_extractionModel d));
       ("solutionModel", JStr (dlg_solutionModel d));
       ("debuggingModel", JStr (dlg_debuggingModel d));
       ("systemPrompt", JStr (dlg_systemPrompt d));
       ("lmstudioEndpoint", JStr (dlg_lmstudioEndpoint d));
       ("lmstudioModel", JStr (dlg_lmstudioModel d))] in
  let usesGemini :=
    String.eqb (dlg_extractionProvider d) "gemini"
    || String.eqb (dlg_solutionProvider d) "gemini"
    || String.eqb (dlg_debuggingProvider d) "gemini" in
  let configUpdate :=
    if usesGemini then <["apiKey" := JStr (dlg_apiKey d)]> configUpdate else configUpdate in
  <["apiProvider" := JStr (dlg_extractionProvider d)]> configUpdate.

(** The key as JavaScript sees it: the sequence of its UTF-16 code units.
    [length] counts these units and [substring] cuts between them, so a
    character outside the Basic Multilingual Plane counts twice and one such
    as [é] counts once, whatever its encoding in a file is. *)
Definition JsString : Type := list N.

(** The code units of a literal that is written in ASCII. *)
Definition code_units (s : string) : JsString :=
  map N_of_ascii (String.list_ascii_of_string s).

(** [s.substring(a, b)]: both indices are clamped to the length and swapped
    if the first one is the larger. *)
Definition js_substring (a b : nat) (s : JsString) : JsString :=
  let a := a `min` length s in
  let b := b `min` length s in
  take (a `max` b - a `min` b) (drop (a `min` b) s).

(** [s.substring(a)] is [s.substring(a, s.length)]. *)
Definition js_substring_from (a : nat) (s : JsString) : JsString :=
  js_substring a (length s) s.

(** [maskApiKey]; [!key] holds of the empty string alone. *)
Definition maskApiKey (key : JsString) : JsString :=
  if (length key =? 0) || (length key <? 10) then code_units ""
  else js_substring 0 4 key ++ code_units "..."
       ++ js_substring_from (length key - 4) key.

(** * Sample environments and worlds *)

(** An image of [8 + n] bytes that starts with the PNG signature. *)
Definition png (n : nat) : Buffer := pngSignature ++ replicate n x00.

(** A quiet POSIX machine: captures succeed, no I/O errors. *)
Definition env_posix : Env :=
  mkEnv false "/data" "/tmp" (fun n => "shot-" +:+ pretty n)
    (fun _ => Resolved (png 2000))
    (fun _ => mkPromise 10 (Rejected "not used"))
    (fun _ => mkPromise 10 (Rejected "not used"))
    (fun _ _ _ => None) (fun _ => 0%Z) (fun _ _ => 0%Z).

(** The same machine, on which no file can be deleted. *)
Definition env_busy : Env :=
  mkEnv false "/data" "/tmp" (fun n => "shot-" +:+ pretty n)
    (fun _ => Resolved (png 2000))
    (fun _ => mkPromise 10 (Rejected "not used"))
    (fun _ => mkPromise 10 (Rejected "not used"))
    (fun _ op _ => match op with OpUnlink => Some "EBUSY: resource busy or locked" | _ => None end)
    (fun _ => 0%Z) (fun _ _ => 0%Z).

(** The same machine, on which no file can be written. *)
Definition env_full : Env :=
  mkEnv false "/data" "/tmp" (fun n => "shot-" +:+ pretty n)
    (fun _ => Resolved (png 2000))
    (fun _ => mkPromise 10 (Rejected "not used"))
    (fun _ => mkPromise 10 (Rejected "not used"))
    (fun _ op _ => match op with OpWriteFile => Some "ENOSPC: no space left on device" | _ => None end)
    (fun _ => 0%Z) (fun _ _ => 0%Z).

(** A Windows machine on which both capture methods are rejected. *)
Definition env_win_down : Env :=
  mkEnv true "C:/data" "C:/tmp" (fun n => "shot-" +:+ pretty n)
    (fun _ => Rejected "not used")
    (fun _ => mkPromise 10 (Rejected "screen grab failed"))
    (fun _ => mkPromise 10 (Rejected "powershell not found"))
    (fun _ _ _ => None) (fun _ => 0%Z) (fun _ _ => 0%Z).


(** A Windows machine on which only the PowerShell method works. *)
Definition env_win_fallback : Env :=
  mkEnv true "C:/data" "C:/tmp" (fun n => "shot-" +:+ pretty n)
    (fun _ => Rejected "not used")
    (fun _ => mkPromise 10 (Rejected "screen grab failed"))
    (fun _ => mkPromise 10 (Resolved (Some (png 2000))))
    (fun _ _ _ => None) (fun _ => 0%Z) (fun _ _ => 0%Z).

Definition world_empty : World := mkWorld ∅ ∅ ∅ 0 0 [].


(** No listener is registered for ['config-updated']. *)
Definition no_listeners (config : Obj) : M unit := ret tt.

(** A stand-in for [JSON.stringify] and [JSON.parse] on the configurations
    of a table.  The text of a configuration is its position in the table,
    and parsing a text looks the position up; a text that names no position
    does not parse. *)
Fixpoint stringify_from (n : nat) (table : list Obj) (o : Obj) : string :=
  match table with
  | [] => "{ }"
  | c :: rest => if decide (c = o) then pretty n else stringify_from (S n) rest o
  end.

Fixpoint parse_from (n : nat) (table : list Obj) (text : string) : option Obj :=
  match table with
  | [] => None
  | c :: rest => if String.eqb text (pretty n) then Some c else parse_from (S n) rest text
  end.

Definition stringify_table (table : list Obj) : Obj -> string := stringify_from 0 table.
Definition parse_table (table : list Obj) : string -> option Obj := parse_from 0 table.

(** A Windows machine whose first tool leaves an image that is too small,
    and whose PowerShell is missing. *)
Definition env_win_blank : Env :=
  mkEnv true "C:/data" "C:/tmp" (fun n => "shot-" +:+ pretty n)
    (fun _ => Rejected "not used")
    (fun _ => mkPromise 10 (Resolved (Some (png 50))))
    (fun _ => mkPromise 10 (Rejected "powershell not found"))
    (fun _ _ _ => None) (fun _ => 0%Z) (fun _ _ => 0%Z).

(** The same disk with an image in a subdirectory of the artifact directory. *)
Definition world_nested : World :=
  mkWorld {[ "/data/screenshots/old.png" := png 1;
             "/data/screenshots/sub/keep.png" := png 1 ]}
    {[ "/data/screenshots"; "/data/screenshots/sub" ]} ∅ 0 0 [].

(** * The vocabulary of the properties *)

(** ** Frames: what a computation leaves as it is *)

(** [preserves R m]: whatever [m] does, and whether it returns or throws,
    the states before and after it are related by [R]. *)
Definition preserves (R : relation St) {A} (m : M A) : Prop :=
  forall s, R s (snd (m s)).

(** The arrays of the heap and the fields of the object are as before. *)
Definition heap_frame (s s' : St) : Prop :=
  arrays (world s') = arrays (world s) /\
  next_ref (world s') = next_ref (world s) /\
  this s' = this s /\
  clock (world s) <= clock (world s').

(** And no delay was awaited either. *)
Definition io_frame (s s' : St) : Prop :=
  heap_frame s s' /\ sleeps (world s') = sleeps (world s).

Abbreviation heap_only := (preserves heap_frame).
Abbreviation io_only := (preserves io_frame).

(** A computation that cannot throw. *)
Definition total {A} (m : M A) : Prop := forall s, exists a s', m s = (Return a, s').

(** ** Queues *)

(** The two queue fields refer to two different, allocated arrays. *)
Definition wf_refs (s : St) : Prop :=
  screenshotQueue (this s) <> extraScreenshotQueue (this s) /\
  screenshotQueue (this s) < next_ref (world s) /\
  extraScreenshotQueue (this s) < next_ref (world s).

(** The queue after [push] and the eviction that may follow it. *)
Definition pushed (l : list string) (p : string) : list string :=
  if MAX_SCREENSHOTS <? length (l ++ [p]) then tail (l ++ [p]) else l ++ [p].

(** The queue field [takeScreenshot] appends to. *)
Definition target (h : ScreenshotHelper) : nat :=
  if decide (view h = queue) then screenshotQueue h else extraScreenshotQueue h.

(** No path occurs twice in a queue. *)
Definition Distinct (s : St) : Prop := NoDup (primary s) /\ NoDup (secondary s).

(** The back-off after a failed round. *)
Definition backoff (attempt : nat) : M unit :=
  when (attempt <? maxRetries) (sleep (200 * 2 ^ (Z.of_nat attempt - 1))%Z).



Section Vocabulary.

Variable env : Env.

(** The directory [takeScreenshot] writes to. *)
Definition target_dir (h : ScreenshotHelper) : string :=
  if decide (view h = queue) then screenshotDir env else extraScreenshotDir env.

(** [p] is a path that an earlier call generated in [dir]. *)
Definition generated (dir : string) (c : nat) (p : string) : Prop :=
  exists n, n < c /\ p = path_join dir (uuid env n +:+ ".png").

(** What holds of the queues in every state the class can reach. *)
Record Inv (s : St) : Prop := mkInv {
  inv_refs : wf_refs s;
  inv_primary_length : length (primary s) <= MAX_SCREENSHOTS;
  inv_secondary_length : length (secondary s) <= MAX_SCREENSHOTS;
  inv_primary_generated :
    Forall (generated (screenshotDir env) (clock (world s))) (primary s);
  inv_secondary_generated :
    Forall (generated (extraScreenshotDir env) (clock (world s))) (secondary s);
}.

(** No file-system call fails. *)
Definition no_fault : Prop := forall n op p, fs_fault env n op p = None.

(** What [takeScreenshot] does between the validation of the buffer and the
    write of the file at [p]: it draws the UUID and makes sure that the
    directory of [p] exists. *)
Definition before_write (p : string) : M unit :=
  uuidv4 env ;;
  e <- existsSync (dirname p) ;;
  when (negb e) (mkdirSync env (dirname p)).

End Vocabulary.

(** The delays awaited after the failed rounds [todo]. *)
Definition delays (todo : list nat) : list Z :=
  flat_map (fun attempt =>
    if attempt <? maxRetries then [(200 * 2 ^ (Z.of_nat attempt - 1))%Z] else []) todo.

(** The three steps of the application, with the names of their two
    properties. *)
Definition steps : list (string * string) :=
  [("extractionModel", "extractionProvider");
   ("solutionModel", "solutionProvider");
   ("debuggingModel", "debuggingProvider")].

(** The first statement of [updateConfig] after [loadConfig()], as a
    function of [updates]. *)
Definition synced (currentConfig updates : Obj) : Obj :=
  if truthy (get updates "apiProvider")
     && negb (strict_eq (get updates "apiProvider") (get currentConfig "apiProvider"))
  then
    syncProvider "debuggingProvider"
      (syncProvider "solutionProvider" (syncProvider "extractionProvider" updates))
  else updates.

(** [if (updates[step + "Provider"]) handleProviderChange(step, updates[step + "Provider"])] *)
Definition handled (currentConfig : Obj) (step : string) (updates : Obj) : Obj :=
  if truthy (get updates (step +:+ "Provider")) then
    handleProviderChange currentConfig step (get updates (step +:+ "Provider")) updates
  else updates.

(** The model that [handleProviderChange] assigns for a new provider. *)
Definition resetModel (currentConfig : Obj) (newProvider : JsValue) : JsValue :=
  if strict_eq newProvider (JStr "lmstudio")
  then js_or (get currentConfig "lmstudioModel") (JStr "qwen3-vl-8b")
  else JStr "gemini-2.0-flash".

(** A step that uses Gemini has a listed Gemini model, or none. *)
Definition gemini_models_listed (config : Obj) : Prop :=
  Forall (fun '(modelKey, providerKey) =>
    get config providerKey = JStr "gemini" -> truthy (get config modelKey) = true ->
    exists m, m ∈ GEMINI_MODELS /\ get config modelKey = JStr m) steps.

(** [usesGemini] of [hasApiKey]. *)
Definition usesGemini (config : Obj) : bool :=
  strict_eq (get config "extractionProvider") (JStr "gemini")
  || strict_eq (get config "solutionProvider") (JStr "gemini")
  || strict_eq (get config "debuggingProvider") (JStr "gemini").

(** [Math.min(1.0, Math.max(0.1, opacity))] *)
Definition validOpacity (opacity : JsNumber) : JsNumber :=
  Math_min (Finite (QArith_base.Qmake 1 1)) (Math_max (Finite tenth) opacity).

(** * Reasoning principles *)

Lemma bind_Return_inv {A B} (m : M A) (k : A -> M B) s b s' :
  bind m k s = (Return b, s') ->
  exists a s1, m s = (Return a, s1) /\ k a s1 = (Return b, s').
Proof.
  unfold bind. destruct (m s) as [[a|e] s1]; [eauto | discriminate].
Qed.

Lemma bind_Throw_inv {A B} (m : M A) (k : A -> M B) s e s' :
  bind m k s = (Throw e, s') ->
  m s = (Throw e, s') \/ exists a s1, m s = (Return a, s1) /\ k a s1 = (Throw e, s').
Proof.
  unfold bind. destruct (m s) as [[a|e1] s1]; [eauto | left; congruence].
Qed.

(** ** Frame rules *)

Section Preserves.

Context (R : relation St) `{!PreOrder R}.

Lemma preserves_ret {A} (a : A) : preserves R (ret a).
Proof. intros s. simpl. reflexivity. Qed.

Lemma preserves_throw {A} e : preserves R (@throw A e).
Proof. intros s. simpl. reflexivity. Qed.

Lemma preserves_get_world : preserves R get_world.
Proof. intros s. simpl. reflexivity. Qed.

Lemma preserves_get_this : preserves R get_this.
Proof. intros s. simpl. reflexivity. Qed.

Lemma preserves_bind {A B} (m : M A) (k : A -> M B) :
  preserves R m -> (forall a, preserves R (k a)) -> preserves R (bind m k).
Proof.
  intros Hm Hk s. unfold bind. specialize (Hm s).
  destruct (m s) as [[a|e] s1]; simpl in *; [|done].
  etrans; [exact Hm | apply Hk].
Qed.

Lemma preserves_try_catch {A} (m : M A) (h : string -> M A) :
  preserves R m -> (forall e, preserves R (h e)) -> preserves R (try_catch m h).
Proof.
  intros Hm Hh s. unfold try_catch. specialize (Hm s).
  destruct (m s) as [[a|e] s1]; simpl in *; [done|].
  etrans; [exact Hm | apply Hh].
Qed.

Lemma preserves_when b (m : M unit) : preserves R m -> preserves R (when b m).
Proof. destruct b; simpl; [done | intros _; apply preserves_ret]. Qed.

Lemma preserves_for_of {A} (l : list A) (body : A -> M unit) :
  (forall x, preserves R (body x)) -> preserves R (for_of l body).
Proof.
  intros Hb. induction l as [|x l IH]; simpl.
  - apply preserves_ret.
  - apply preserves_bind; auto.
Qed.

Lemma preserves_run {A} (m : M A) s c s' : preserves R m -> m s = (c, s') -> R s s'.
Proof. intros Hm Hrun. specialize (Hm s). by rewrite Hrun in Hm. Qed.

End Preserves.

#[global] Instance heap_frame_preorder : PreOrder heap_frame.
Proof.
  split.
  - intros s. unfold heap_frame. auto.
  - intros s1 s2 s3 (?&?&?&?) (?&?&?&?). unfold heap_frame.
    repeat split; try congruence. lia.
Qed.

#[global] Instance io_frame_preorder : PreOrder io_frame.
Proof.
  split.
  - intros s. split; reflexivity.
  - intros s1 s2 s3 [H1 E1] [H2 E2]. split; [by etrans | congruence].
Qed.

Lemma heap_frame_refl s : heap_frame s s.
Proof. reflexivity. Qed.

Lemma heap_frame_trans s1 s2 s3 : heap_frame s1 s2 -> heap_frame s2 s3 -> heap_frame s1 s3.
Proof. intros. by etrans. Qed.

Lemma io_only_heap_only {A} (m : M A) : io_only m -> heap_only m.
Proof. intros Hm s. apply Hm. Qed.

Lemma io_only_run {A} (m : M A) s c s' : io_only m -> m s = (c, s') -> heap_frame s s'.
Proof. intros Hm Hrun. eapply (preserves_run io_frame) in Hrun; [apply Hrun | done]. Qed.

Lemma io_only_tick : io_only tick.
Proof. intros s. unfold io_frame, heap_frame. simpl. auto with lia. Qed.

Lemma io_only_modify_world (f : World -> World) :
  (forall w, arrays (f w) = arrays w /\ next_ref (f w) = next_ref w /\
             clock (f w) = clock w /\ sleeps (f w) = sleeps w) ->
  io_only (modify_world f).
Proof.
  intros Hf s. destruct (Hf (world s)) as (?&?&?&?).
  unfold io_frame, heap_frame. simpl. auto with lia.
Qed.

Create HintDb io discriminated.
#[local] Hint Resolve io_only_tick : io.

(** Takes a goal [preserves R m] apart along the syntax of [m]. *)
Ltac frame_step :=
  lazymatch goal with
  | |- preserves _ (bind _ _) => apply preserves_bind; [tc_solve | | intros ?]
  | |- preserves _ (try_catch _ _) => apply preserves_try_catch; [tc_solve | | intros ?]
  | |- preserves _ (when _ _) => apply preserves_when; [tc_solve |]
  | |- preserves _ (for_of _ _) => apply preserves_for_of; [tc_solve | intros ?]
  | |- preserves _ (ret _) => apply preserves_ret; tc_solve
  | |- preserves _ (throw _) => apply preserves_throw; tc_solve
  | |- preserves _ get_world => apply preserves_get_world; tc_solve
  | |- preserves _ get_this => apply preserves_get_this; tc_solve
  | |- preserves io_frame (modify_world _) =>
      apply io_only_modify_world; intros ?; simpl; auto
  | |- preserves _ (match ?x with _ => _ end) => destruct x
  | |- preserves _ (if ?x then _ else _) => destruct x
  | |- preserves _ (let _ := _ in _) => cbv zeta
  | |- preserves io_frame _ => solve [auto with io]
  | |- preserves heap_frame _ => solve [auto with io | apply io_only_heap_only; auto with io]
  end.
Ltac frame_solve := repeat frame_step.

Section IoOnly.

Variable env : Env.

Lemma io_only_fs_call op p : io_only (fs_call env op p).
Proof. unfold fs_call. frame_solve. Qed.

Lemma io_only_existsSync p : io_only (existsSync p).
Proof. unfold existsSync. frame_solve. Qed.

#[local] Hint Resolve io_only_fs_call io_only_existsSync : io.

Lemma io_only_mkdirSync p : io_only (mkdirSync env p).
Proof. unfold mkdirSync. frame_solve. Qed.

Lemma io_only_readdirSync p : io_only (readdirSync env p).
Proof. unfold readdirSync. frame_solve. Qed.

Lemma io_only_statSync_mtimeMs p : io_only (statSync_mtimeMs env p).
Proof. unfold statSync_mtimeMs. frame_solve. Qed.

Lemma io_only_unlink p : io_only (unlink env p).
Proof. unfold unlink. frame_solve. Qed.

Lemma io_only_readFile p : io_only (readFile env p).
Proof. unfold readFile. frame_solve. Qed.

Lemma io_only_writeFile p b : io_only (writeFile env p b).
Proof. unfold writeFile. frame_solve. Qed.

Lemma io_only_uuidv4 : io_only (uuidv4 env).
Proof. unfold uuidv4. frame_solve. Qed.

Lemma io_only_Date_now : io_only (Date_now env).
Proof. unfold Date_now. frame_solve. Qed.

Lemma io_only_withTimeout {A} (p : Promise A) ms msg : io_only (withTimeout p ms msg).
Proof. unfold withTimeout. frame_solve. Qed.

#[local] Hint Resolve io_only_mkdirSync io_only_readdirSync io_only_statSync_mtimeMs
  io_only_unlink io_only_readFile io_only_writeFile io_only_uuidv4 io_only_Date_now
  io_only_withTimeout : io.

Lemma io_only_capture_to_file tool file ms msg : io_only (capture_to_file tool file ms msg).
Proof. unfold capture_to_file. frame_solve. Qed.

#[local] Hint Resolve io_only_capture_to_file : io.

Lemma io_only_ensureDirectoriesExist : io_only (ensureDirectoriesExist env).
Proof. unfold ensureDirectoriesExist. frame_solve. Qed.

Lemma io_only_cleanDirectory dir : io_only (cleanDirectory env dir).
Proof. unfold cleanDirectory. frame_solve. Qed.

#[local] Hint Resolve io_only_cleanDirectory : io.

Lemma io_only_cleanScreenshotDirectories : io_only (cleanScreenshotDirectories env).
Proof. unfold cleanScreenshotDirectories. frame_solve. Qed.

Lemma io_only_cleanupTempFiles : io_only (cleanupTempFiles env).
Proof. unfold cleanupTempFiles. frame_solve. Qed.

Lemma io_only_method1 : io_only (method1 env).
Proof. unfold method1. frame_solve. Qed.

Lemma io_only_method2 : io_only (method2 env).
Proof. unfold method2. frame_solve. Qed.

#[local] Hint Resolve io_only_method1 io_only_method2 io_only_cleanupTempFiles : io.

Lemma io_only_attempt_round attempt errors : io_only (attempt_round env attempt errors).
Proof. unfold attempt_round. frame_solve. Qed.

#[local] Hint Resolve io_only_attempt_round : io.

Lemma heap_only_sleep d : heap_only (sleep d).
Proof. intros s. unfold heap_frame. simpl. auto. Qed.

#[local] Hint Resolve heap_only_sleep : io.

Lemma heap_only_attempts_loop todo errors : heap_only (attempts_loop env todo errors).
Proof.
  revert errors. induction todo as [|attempt rest IH]; intros errors; simpl; frame_solve.
Qed.

#[local] Hint Resolve heap_only_attempts_loop : io.

Lemma heap_only_captureWindowsScreenshot : heap_only (captureWindowsScreenshot env).
Proof. unfold captureWindowsScreenshot, captureWindowsAttempts. frame_solve. Qed.

#[local] Hint Resolve heap_only_captureWindowsScreenshot : io.

Lemma heap_only_captureScreenshot : heap_only (captureScreenshot env).
Proof. unfold captureScreenshot. frame_solve. Qed.

End IoOnly.

(** ** Queues on the heap *)

Lemma array_get_insert r r' l w :
  array_get r (set_arrays (<[r' := l]> (arrays w)) w) =
  if decide (r' = r) then l else array_get r w.
Proof.
  unfold array_get. simpl. rewrite lookup_insert.
  destruct (decide (r' = r)); reflexivity.
Qed.

Lemma heap_frame_primary s s' : heap_frame s s' -> primary s' = primary s.
Proof. intros (Ha&_&Ht&_). unfold primary, array_get. by rewrite Ha, Ht. Qed.

Lemma heap_frame_secondary s s' : heap_frame s s' -> secondary s' = secondary s.
Proof. intros (Ha&_&Ht&_). unfold secondary, array_get. by rewrite Ha, Ht. Qed.

Lemma heap_frame_wf_refs s s' : heap_frame s s' -> wf_refs s -> wf_refs s'.
Proof. intros (_&Hn&Ht&_). unfold wf_refs. by rewrite Hn, Ht. Qed.

Section Deletion.

Variable env : Env.

Lemma unlink_spec p s :
  heap_frame s (snd (unlink env p s)) /\
  dirs (world (snd (unlink env p s))) = dirs (world s) /\
  match fst (unlink env p s) with
  | Return _ => files (world (snd (unlink env p s))) = delete p (files (world s))
  | Throw _ => files (world (snd (unlink env p s))) = files (world s)
  end.
Proof.
  split; [apply io_only_heap_only, io_only_unlink|].
  unfold unlink, fs_call, bind, tick, get_world, modify_world, throw, ret. simpl.
  destruct (fs_fault env (clock (world s)) OpUnlink p); simpl; [done|].
  destruct (files (world s) !! p); simpl; done.
Qed.

(** What [deleteScreenshot] does, in every state whose queue fields are
    well formed. *)
Lemma deleteScreenshot_spec path s :
  wf_refs s ->
  exists r s',
    deleteScreenshot env path s = (Return r, s') /\
    wf_refs s' /\ view (this s') = view (this s) /\
    clock (world s) <= clock (world s') /\
    dirs (world s') = dirs (world s) /\
    (success r = true -> r = mkDeleteResult true None) /\
    if success r then
      files (world s') !! path = None /\
      (view (this s) = queue ->
         primary s' = filter (fun filePath => filePath <> path) (primary s) /\
         secondary s' = secondary s) /\
      (view (this s) <> queue ->
         secondary s' = filter (fun filePath => filePath <> path) (secondary s) /\
         primary s' = primary s)
    else
      primary s' = primary s /\ secondary s' = secondary s /\
      (is_Some (files (world s) !! path) \/ path ∈ dirs (world s)).
Proof.
  intros (Hne & Hq & He).
  unfold deleteScreenshot.
  match goal with |- context [bind get_this ?k] => set (rest := bind get_this k) end.
  assert (Hrest : forall s1, heap_frame s s1 ->
    files (world s1) !! path = None ->
    exists s', rest s1 = (Return (mkDeleteResult true None), s') /\
      wf_refs s' /\ view (this s') = view (this s) /\
      clock (world s) <= clock (world s') /\
      dirs (world s') = dirs (world s1) /\
      files (world s') !! path = None /\
      (view (this s) = queue ->
         primary s' = filter (fun filePath => filePath <> path) (primary s) /\
         secondary s' = secondary s) /\
      (view (this s) <> queue ->
         secondary s' = filter (fun filePath => filePath <> path) (secondary s) /\
         primary s' = primary s)).
  { intros s1 (Ha & Hn & Ht & Hc) Hf. unfold rest.
    unfold bind, get_this, array_read, get_world, array_new, set_screenshotQueue,
      set_extraScreenshotQueue, set_this, ret. simpl.
    rewrite Ht. destruct (decide (view (this s) = queue)) as [Hv|Hv]; simpl;
      eexists; (split; [reflexivity|]); simpl;
      unfold wf_refs, primary, secondary, array_get; simpl;
      rewrite ?lookup_insert, ?Ht, ?Hn, ?Ha;
      repeat case_decide; try lia; repeat split; auto with lia; try congruence. }
  clearbody rest.
  unfold try_catch, bind, existsSync, get_world, ret. simpl.
  destruct (bool_decide (is_Some (files (world s) !! path))
            || bool_decide (path ∈ dirs (world s))) eqn:Hex; simpl.
  - assert (is_Some (files (world s) !! path) \/ path ∈ dirs (world s)) as Hex'.
    { apply orb_true_iff in Hex as [H1|H1]; apply bool_decide_eq_true in H1; auto. }
    pose proof (unlink_spec path s) as (Hfr & Hdirs & Hfiles).
    destruct (unlink env path s) as [[[]|e] s1]; simpl in *.
    + destruct (Hrest s1 Hfr) as (s' & -> & Hwf & Hv & Hck & Hd & H);
        [by rewrite Hfiles, lookup_delete_eq|].
      destruct H as (Hgone & Hcur & Hoth).
      eexists _, s'. split; [reflexivity|]. simpl. rewrite Hd, Hdirs. split_and!; auto; try done.
    + eexists _, _. split; [reflexivity|]. simpl.
      split; [by eapply heap_frame_wf_refs; [exact Hfr|]|].
      rewrite (heap_frame_primary _ _ Hfr), (heap_frame_secondary _ _ Hfr).
      destruct Hfr as (_ & _ & -> & Hck). split_and!; auto; try done.
  - apply orb_false_iff in Hex as [H1 _]. apply bool_decide_eq_false in H1.
    apply eq_None_not_Some in H1.
    destruct (Hrest s (heap_frame_refl s) H1) as (s' & -> & Hwf & Hv & Hck & Hd & H).
    destruct H as (Hgone & Hcur & Hoth).
    eexists _, s'. split; [reflexivity|]. simpl. rewrite Hd. split_and!; auto; try done.
Qed.

End Deletion.

Section Capture.

Variable env : Env.

Lemma pushed_length l p : length l <= MAX_SCREENSHOTS -> length (pushed l p) <= MAX_SCREENSHOTS.
Proof.
  unfold pushed, MAX_SCREENSHOTS. intros Hl.
  destruct (Nat.ltb_spec 5 (length (l ++ [p]))) as [H|H]; [|exact H].
  destruct l as [|x l']; simpl in *; rewrite ?length_app in *; simpl in *; lia.
Qed.

(** The part of [saveAndEnqueue] that follows the write: it cannot throw. *)
Lemma enqueue_spec q p s :
  exists s',
    (array_push q p ;;
     l <- array_read q ;;
     when (MAX_SCREENSHOTS <? length l) (
       removedPath <- array_shift q ;;
       match removedPath with
       | Some removedPath =>
           when (negb (String.eqb removedPath ""))
             (try_catch (unlink env removedPath) (fun _ => ret tt))
       | None => ret tt
       end) ;;
     ret p)%js s = (Return p, s') /\
    this s' = this s /\ next_ref (world s') = next_ref (world s) /\
    clock (world s) <= clock (world s') /\
    arrays (world s') = <[q := pushed (array_get q (world s)) p]> (arrays (world s)) /\
    (forall front,
       MAX_SCREENSHOTS < length (array_get q (world s) ++ [p]) ->
       head (array_get q (world s) ++ [p]) = Some front ->
       front <> "" ->
       fs_fault env (clock (world s)) OpUnlink front = None ->
       files (world s') !! front = None).
Proof.
  unfold pushed.
  cbv [bind array_push modify_world array_read get_world]. simpl.
  rewrite array_get_insert, decide_True by done.
  set (l := array_get q (world s) ++ [p]).
  destruct (MAX_SCREENSHOTS <? length l) eqn:Hlen; cbv [when].
  - cbv [array_shift bind get_world modify_world]. simpl.
    rewrite array_get_insert, decide_True by done.
    destruct l as [|front rest] eqn:Hl; [discriminate|].
    simpl. rewrite insert_insert_eq.
    destruct (String.eqb front "") eqn:Hfront; simpl.
    + eexists. split; [reflexivity|]. simpl. repeat split; auto.
      intros front' _ [= <-] Hne. apply String.eqb_eq in Hfront. done.
    + match goal with |- context [try_catch _ _ ?s1] => set (s1' := s1) end.
      pose proof (unlink_spec env front s1') as ((Ha & Hn & Ht & Hc) & _ & Hf).
      assert (Hu : fs_fault env (clock (world s)) OpUnlink front = None ->
                   files (world (snd (unlink env front s1'))) !! front = None).
      { intros Hfault. destruct (fst (unlink env front s1')) eqn:Hun; rewrite Hf.
        - apply lookup_delete_eq.
        - revert Hun.
          unfold unlink, fs_call, bind, tick, get_world, modify_world, throw, ret.
          simpl. rewrite Hfault. simpl.
          destruct (files (world s) !! front) eqn:Hlk; simpl; [discriminate | done]. }
      unfold try_catch, ret.
      destruct (unlink env front s1') as [[[]|e] s2] eqn:Hun; simpl in *;
        (eexists; split; [reflexivity|]); simpl; rewrite ?Ha, ?Hn, ?Ht;
        (repeat split; auto);
        intros front' _ [= <-] _ Hfault; auto.
  - eexists. split; [reflexivity|]. simpl. repeat split; auto.
    intros front Hlt. apply Nat.ltb_ge in Hlen. lia.
Qed.

Lemma heap_frame_array_get s s' q : heap_frame s s' -> array_get q (world s') = array_get q (world s).
Proof. intros (Ha & _). unfold array_get. by rewrite Ha. Qed.

Lemma uuidv4_run s :
  uuidv4 env s = (Return (uuid env (clock (world s))),
                  mkSt (set_clock (S (clock (world s))) (world s)) (this s)).
Proof. reflexivity. Qed.

Lemma saveAndEnqueue_spec dir q buf s :
  match saveAndEnqueue env dir q buf s with
  | (Throw e, s') => heap_frame s s'
  | (Return p, s') =>
      p = path_join dir (uuid env (clock (world s)) +:+ ".png") /\
      this s' = this s /\ next_ref (world s') = next_ref (world s) /\
      clock (world s) < clock (world s') /\
      arrays (world s') = <[q := pushed (array_get q (world s)) p]> (arrays (world s)) /\
      (forall front,
         MAX_SCREENSHOTS < length (array_get q (world s) ++ [p]) ->
         head (array_get q (world s) ++ [p]) = Some front ->
         front <> "" ->
         (forall n, fs_fault env n OpUnlink front = None) ->
         files (world s') !! front = None)
  end.
Proof.
  assert (Hmk : forall b d, io_only (when b (mkdirSync env d))).
  { intros. apply preserves_when; [tc_solve | apply io_only_mkdirSync]. }
  destruct (saveAndEnqueue env dir q buf s) as [[p|e] s'] eqn:H; unfold saveAndEnqueue in H.
  - apply bind_Return_inv in H as (id & s1 & Hid & H).
    rewrite uuidv4_run in Hid. injection Hid as <- <-. cbv zeta in H.
    apply bind_Return_inv in H as (ex & s2 & Hex & H).
    pose proof (io_only_run _ _ _ _ (io_only_existsSync _) Hex) as F2.
    apply bind_Return_inv in H as ([] & s3 & Hm & H).
    pose proof (io_only_run _ _ _ _ (Hmk _ _) Hm) as F3.
    apply bind_Return_inv in H as ([] & s4 & Hw & H).
    pose proof (io_only_run _ _ _ _ (io_only_writeFile _ _ _) Hw) as F4.
    pose proof (heap_frame_trans _ _ _ (heap_frame_trans _ _ _ F2 F3) F4) as F.
    destruct (enqueue_spec q (path_join dir (uuid env (clock (world s)) +:+ ".png")) s4)
      as (s5 & Heq & Ht & Hn & Hc & Ha & Hfile).
    rewrite Heq in H. injection H as <- <-.
    rewrite (heap_frame_array_get _ _ q F) in Ha, Hfile. simpl in Ha, Hfile.
    change (array_get q (set_clock (S (clock (world s))) (world s)))
      with (array_get q (world s)) in Ha, Hfile.
    destruct F as (Fa & Fn & Ft & Fc). simpl in *.
    split; [done|]. rewrite Ht, Ft, Hn, Fn, Ha, Fa.
    repeat split; auto with lia.
  - apply bind_Throw_inv in H as [H|(id & s1 & Hid & H)].
    { rewrite uuidv4_run in H. discriminate. }
    pose proof (io_only_run _ _ _ _ (io_only_uuidv4 _) Hid) as F1. cbv zeta in H.
    apply bind_Throw_inv in H as [H|(ex & s2 & Hex & H)].
    { eapply heap_frame_trans; [exact F1|]. exact (io_only_run _ _ _ _ (io_only_existsSync _) H). }
    pose proof (io_only_run _ _ _ _ (io_only_existsSync _) Hex) as F2.
    apply bind_Throw_inv in H as [H|([] & s3 & Hm & H)].
    { eapply heap_frame_trans; [exact (heap_frame_trans _ _ _ F1 F2)|].
      exact (io_only_run _ _ _ _ (Hmk _ _) H). }
    pose proof (io_only_run _ _ _ _ (Hmk _ _) Hm) as F3.
    apply bind_Throw_inv in H as [H|([] & s4 & Hw & H)].
    { eapply heap_frame_trans; [exact (heap_frame_trans _ _ _ (heap_frame_trans _ _ _ F1 F2) F3)|].
      exact (io_only_run _ _ _ _ (io_only_writeFile _ _ _) H). }
    destruct (enqueue_spec q (path_join dir (id +:+ ".png")) s4) as (s5 & Heq & _).
    rewrite Heq in H. discriminate.
Qed.

Lemma takeScreenshot_spec s :
  match takeScreenshot env s with
  | (Throw e, s') => heap_frame s s'
  | (Return p, s') =>
      exists n, clock (world s) <= n < clock (world s') /\
      p = path_join (target_dir env (this s)) (uuid env n +:+ ".png") /\
      this s' = this s /\ next_ref (world s') = next_ref (world s) /\
      arrays (world s') =
        <[target (this s) := pushed (array_get (target (this s)) (world s)) p]>
          (arrays (world s)) /\
      (forall front,
         MAX_SCREENSHOTS < length (array_get (target (this s)) (world s) ++ [p]) ->
         head (array_get (target (this s)) (world s) ++ [p]) = Some front ->
         front <> "" ->
         (forall n, fs_fault env n OpUnlink front = None) ->
         files (world s') !! front = None)
  end.
Proof.
  unfold takeScreenshot, try_catch, bind at 1.
  pose proof (heap_only_captureScreenshot env s) as F.
  destruct (captureScreenshot env s) as [[buf|e] s1]; simpl in F; [|exact F].
  destruct (length buf =? 0); [exact F|].
  destruct (negb (isValidPng buf)); [exact F|].
  unfold bind, get_this.
  assert (Hgen : forall dir q,
    dir = target_dir env (this s) -> q = target (this s) ->
    match
      (let (c, s') := saveAndEnqueue env dir q buf s1 in
       match c with
       | Return a => (Return a, s')
       | Throw e => throw e s'
       end)
    with
    | (Throw e, s') => heap_frame s s'
    | (Return p, s') =>
        exists n, clock (world s) <= n < clock (world s') /\
        p = path_join (target_dir env (this s)) (uuid env n +:+ ".png") /\
        this s' = this s /\ next_ref (world s') = next_ref (world s) /\
        arrays (world s') =
          <[target (this s) := pushed (array_get (target (this s)) (world s)) p]>
            (arrays (world s)) /\
        (forall front,
           MAX_SCREENSHOTS < length (array_get (target (this s)) (world s) ++ [p]) ->
           head (array_get (target (this s)) (world s) ++ [p]) = Some front ->
           front <> "" ->
           (forall n, fs_fault env n OpUnlink front = None) ->
           files (world s') !! front = None)
    end).
  { intros dir q -> ->.
    pose proof (saveAndEnqueue_spec (target_dir env (this s)) (target (this s)) buf s1) as H.
    destruct (saveAndEnqueue env _ _ buf s1) as [[p|e] s']; simpl.
    - destruct H as (Hp & Ht & Hn & Hc & Ha & Hf).
      rewrite (heap_frame_array_get _ _ _ F) in Ha, Hf.
      destruct F as (Fa & Fn & Ft & Fc).
      exists (clock (world s1)). rewrite Ht, Ft, Hn, Fn, Ha, Fa. repeat split; auto with lia.
    - eapply heap_frame_trans; [exact F | exact H]. }
  simpl. destruct F as (_ & _ & Ft & _).
  destruct (decide (view (this s1) = queue)) as [Hv|Hv]; apply Hgen;
    unfold target, target_dir; rewrite <- Ft; by rewrite ?decide_True, ?decide_False by done.
Qed.

End Capture.

(** ** Computations that cannot throw *)

Lemma total_ret {A} (a : A) : total (ret a).
Proof. intros s. by eexists _, _. Qed.

Lemma total_bind {A B} (m : M A) (k : A -> M B) :
  total m -> (forall a, total (k a)) -> total (bind m k).
Proof.
  intros Hm Hk s. destruct (Hm s) as (a & s1 & Hrun). unfold bind. rewrite Hrun. apply Hk.
Qed.

Lemma total_try_catch {A} (m : M A) (h : string -> M A) :
  (forall e, total (h e)) -> total (try_catch m h).
Proof.
  intros Hh s. unfold try_catch. destruct (m s) as [[a|e] s1]; [by eexists _, _ | apply Hh].
Qed.

Lemma total_when b (m : M unit) : total m -> total (when b m).
Proof. destruct b; simpl; [done | intros _; apply total_ret]. Qed.

Lemma total_for_of {A} (l : list A) (body : A -> M unit) :
  (forall x, total (body x)) -> total (for_of l body).
Proof.
  intros Hb. induction l as [|x l IH]; simpl; [apply total_ret | by apply total_bind].
Qed.

Lemma total_existsSync p : total (existsSync p).
Proof. intros s. by eexists _, _. Qed.

#[local] Hint Resolve io_only_fs_call io_only_existsSync io_only_mkdirSync
  io_only_readdirSync io_only_unlink io_only_readFile io_only_writeFile io_only_uuidv4
  io_only_method1 io_only_method2 io_only_cleanupTempFiles heap_only_captureScreenshot : io.

Section Clearing.

Variable env : Env.

Lemma for_of_quiet {A} (l : list A) (body : A -> M unit) s :
  (forall x, total (body x)) -> (forall x, io_only (body x)) ->
  exists s', for_of l body s = (Return tt, s') /\ heap_frame s s'.
Proof.
  intros Ht Hio.
  destruct (total_for_of l body Ht s) as ([] & s' & Hrun). exists s'. split; [done|].
  eapply io_only_run; [|exact Hrun]. by apply preserves_for_of; [tc_solve|].
Qed.

Lemma unlink_logged_total p : total (try_catch (unlink env p) (fun _ => ret tt)).
Proof. apply total_try_catch. intros _. apply total_ret. Qed.

Lemma unlink_logged_io_only p : io_only (try_catch (unlink env p) (fun _ => ret tt)).
Proof. frame_solve. Qed.

Lemma unlink_existing_total p :
  total (e <- existsSync p ;; when e (try_catch (unlink env p) (fun _ => ret tt))).
Proof.
  apply total_bind; [apply total_existsSync|].
  intros b. apply total_when, unlink_logged_total.
Qed.

Lemma unlink_existing_io_only p :
  io_only (e <- existsSync p ;; when e (try_catch (unlink env p) (fun _ => ret tt))).
Proof. frame_solve. Qed.

Lemma clearQueues_spec s :
  exists s', clearQueues env s = (Return tt, s') /\
    wf_refs s' /\ view (this s') = view (this s) /\
    clock (world s) <= clock (world s') /\
    primary s' = [] /\ secondary s' = [].
Proof.
  unfold clearQueues.
  cbv [bind get_this array_read get_world]. simpl.
  match goal with |- context [for_of ?l ?b ?s0] =>
    destruct (for_of_quiet l b s0 unlink_logged_total unlink_logged_io_only)
      as (s1 & -> & (Ha1 & Hn1 & Ht1 & Hc1)) end.
  cbv [array_new set_screenshotQueue bind get_this set_this]. simpl.
  match goal with |- context [for_of ?l ?b ?s2] =>
    destruct (for_of_quiet l b s2 unlink_logged_total unlink_logged_io_only)
      as (s3 & -> & (Ha3 & Hn3 & Ht3 & Hc3)) end.
  cbv [set_extraScreenshotQueue bind get_this set_this]. simpl.
  eexists. split; [reflexivity|]. simpl in *.
  unfold wf_refs, primary, secondary, array_get. simpl.
  rewrite Ht3, Hn3, Ha3. simpl. rewrite Ht1.
  rewrite lookup_insert_eq, lookup_insert_ne, lookup_insert_eq by lia. simpl.
  repeat split; auto with lia.
Qed.

Lemma clearExtraScreenshotQueue_spec s :
  wf_refs s ->
  exists s', clearExtraScreenshotQueue env s = (Return tt, s') /\
    wf_refs s' /\ view (this s') = view (this s) /\
    clock (world s) <= clock (world s') /\
    primary s' = primary s /\ secondary s' = [].
Proof.
  intros (Hne & Hq & He).
  unfold clearExtraScreenshotQueue.
  cbv [bind get_this array_read get_world]. simpl.
  match goal with |- context [for_of ?l ?b ?s0] =>
    destruct (for_of_quiet l b s0 unlink_existing_total unlink_existing_io_only)
      as (s1 & -> & (Ha1 & Hn1 & Ht1 & Hc1)) end.
  cbv [array_new set_extraScreenshotQueue bind get_this set_this]. simpl.
  eexists. split; [reflexivity|].
  unfold wf_refs, primary, secondary, array_get. simpl.
  rewrite Ht1, Hn1, Ha1.
  rewrite lookup_insert_eq, lookup_insert_ne by lia. simpl.
  repeat split; auto with lia.
Qed.

End Clearing.

(** ** What holds in every state the class can reach *)

Section Invariants.

Variable env : Env.

Lemma generated_mono dir c c' p : c <= c' -> generated env dir c p -> generated env dir c' p.
Proof. intros Hc (n & Hn & Hp). exists n. split; [lia | done]. Qed.

Lemma Forall_generated_mono dir c c' l :
  c <= c' -> Forall (generated env dir c) l -> Forall (generated env dir c') l.
Proof.
  intros Hc H. eapply Forall_impl; [exact H|]. intros p. by apply generated_mono.
Qed.

Lemma heap_frame_Inv s s' : heap_frame s s' -> Inv env s -> Inv env s'.
Proof.
  intros F [H1 H2 H3 H4 H5].
  pose proof (heap_frame_primary _ _ F) as Hp.
  pose proof (heap_frame_secondary _ _ F) as Hs.
  split; rewrite ?Hp, ?Hs; auto.
  - by eapply heap_frame_wf_refs.
  - eapply Forall_generated_mono; [|exact H4]. apply F.
  - eapply Forall_generated_mono; [|exact H5]. apply F.
Qed.

Lemma pushed_Forall (P : string -> Prop) l p : Forall P l -> P p -> Forall P (pushed l p).
Proof.
  intros Hl Hp. assert (Forall P (l ++ [p])) as H by (apply Forall_app; auto).
  unfold pushed. destruct (MAX_SCREENSHOTS <? length (l ++ [p])); [|done].
  destruct (l ++ [p]); [done|]. simpl. by inversion H.
Qed.

Lemma pushed_NoDup l p : NoDup l -> p ∉ l -> NoDup (pushed l p).
Proof.
  intros Hl Hp. assert (NoDup (l ++ [p])) as H.
  { apply NoDup_app. split; [done|]. split; [|apply NoDup_singleton].
    intros x Hx ->%list_elem_of_singleton. done. }
  unfold pushed. destruct (MAX_SCREENSHOTS <? length (l ++ [p])); [|done].
  destruct (l ++ [p]); [done|]. simpl. by inversion H.
Qed.

(** [takeScreenshot], read on the two queues. *)
Lemma takeScreenshot_queues s p s' :
  wf_refs s ->
  takeScreenshot env s = (Return p, s') ->
  wf_refs s' /\ this s' = this s /\
  (exists n, clock (world s) <= n < clock (world s') /\
             p = path_join (target_dir env (this s)) (uuid env n +:+ ".png")) /\
  (view (this s) = queue ->
     primary s' = pushed (primary s) p /\ secondary s' = secondary s) /\
  (view (this s) <> queue ->
     secondary s' = pushed (secondary s) p /\ primary s' = primary s).
Proof.
  intros (Hne & Hq & He) Hrun.
  pose proof (takeScreenshot_spec env s) as H. rewrite Hrun in H.
  destruct H as (n & Hn & Hp & Ht & Hnr & Ha & _).
  unfold wf_refs, primary, secondary, array_get. rewrite Ht, Hnr, Ha.
  split; [done|]. split; [done|]. split; [by exists n|].
  unfold target. split; intros Hv;
    rewrite ?decide_True, ?decide_False by done;
    rewrite ?lookup_insert_eq, ?lookup_insert_ne by done; done.
Qed.

Lemma takeScreenshot_Throw_frame s e s' :
  takeScreenshot env s = (Throw e, s') -> heap_frame s s'.
Proof. intros Hrun. pose proof (takeScreenshot_spec env s) as H. by rewrite Hrun in H. Qed.

Lemma target_dir_queue h : view h = queue -> target_dir env h = screenshotDir env.
Proof. intros Hv. unfold target_dir. by rewrite decide_True. Qed.

Lemma target_dir_other h : view h <> queue -> target_dir env h = extraScreenshotDir env.
Proof. intros Hv. unfold target_dir. by rewrite decide_False. Qed.

Lemma takeScreenshot_Inv s : Inv env s -> Inv env (snd (takeScreenshot env s)).
Proof.
  intros HI. destruct (takeScreenshot env s) as [[p|e] s'] eqn:Hrun; simpl.
  - destruct HI as [H1 H2 H3 H4 H5].
    destruct (takeScreenshot_queues s p s' H1 Hrun) as (Hwf & Ht & (n & Hn & Hp) & Hq & Ho).
    assert (clock (world s) <= clock (world s')) as Hc by lia.
    destruct (decide (view (this s) = queue)) as [Hv|Hv].
    + destruct (Hq Hv) as (Hp' & Hs'). rewrite target_dir_queue in Hp by done.
      split; rewrite ?Hp', ?Hs'; auto using pushed_length.
      * apply pushed_Forall; [by eapply Forall_generated_mono|]. exists n. split; [lia|done].
      * by eapply Forall_generated_mono.
    + destruct (Ho Hv) as (Hs' & Hp'). rewrite target_dir_other in Hp by done.
      split; rewrite ?Hp', ?Hs'; auto using pushed_length.
      * by eapply Forall_generated_mono.
      * apply pushed_Forall; [by eapply Forall_generated_mono|]. exists n. split; [lia|done].
  - eapply heap_frame_Inv; [|exact HI]. by eapply takeScreenshot_Throw_frame.
Qed.

Lemma deleteScreenshot_Inv path s : Inv env s -> Inv env (snd (deleteScreenshot env path s)).
Proof.
  intros [H1 H2 H3 H4 H5].
  destruct (deleteScreenshot_spec env path s H1) as (r & s' & -> & Hwf & Hv & Hc & _ & _ & H). simpl.
  destruct (success r).
  - destruct H as (_ & Hq & Ho).
    assert (Hfil : forall dir l,
      Forall (generated env dir (clock (world s))) l ->
      Forall (generated env dir (clock (world s')))
        (filter (fun filePath => filePath <> path) l)).
    { intros dir l Hl. apply list.Forall_forall. intros x [_ Hx]%list_elem_of_filter.
      eapply generated_mono; [exact Hc|]. eapply list.Forall_forall; eauto. }
    assert (Hlen : forall l : list string, length l <= MAX_SCREENSHOTS ->
      length (filter (fun filePath => filePath <> path) l) <= MAX_SCREENSHOTS).
    { intros l Hl. etrans; [apply length_filter | done]. }
    destruct (decide (view (this s) = queue)) as [Hq'|Hq'];
      [destruct (Hq Hq') as (Hp' & Hs') | destruct (Ho Hq') as (Hs' & Hp')];
      split; rewrite ?Hp', ?Hs'; eauto using Forall_generated_mono.
  - destruct H as (Hp' & Hs' & _).
    split; rewrite ?Hp', ?Hs'; eauto using Forall_generated_mono.
Qed.

Lemma call_Inv c s : Inv env s -> Inv env (call env c s).
Proof.
  intros HI. destruct c; simpl; try exact HI.
  - destruct HI as [H1 H2 H3 H4 H5]. split; auto.
  - destruct (clearQueues_spec env s) as (s' & -> & Hwf & _ & _ & Hp & Hs). simpl.
    split; rewrite ?Hp, ?Hs; simpl; auto using Forall_nil_2; unfold MAX_SCREENSHOTS; lia.
  - by apply takeScreenshot_Inv.
  - by apply deleteScreenshot_Inv.
  - destruct HI as [H1 H2 H3 H4 H5].
    destruct (clearExtraScreenshotQueue_spec env s H1) as (s' & -> & Hwf & _ & Hc & Hp & Hs).
    simpl. split; rewrite ?Hp, ?Hs; simpl; auto; [unfold MAX_SCREENSHOTS; lia|].
    by eapply Forall_generated_mono.
Qed.

Lemma constructor_spec v w :
  wf_refs (constructor env v w) /\
  view (this (constructor env v w)) = v /\
  primary (constructor env v w) = [] /\ secondary (constructor env v w) = [].
Proof.
  unfold constructor. cbv [bind array_new set_this]. simpl.
  match goal with |- context [ensureDirectoriesExist env ?s0] => set (s1 := s0) end.
  assert (io_only (ensureDirectoriesExist env ;; cleanScreenshotDirectories env)) as Hio.
  { apply preserves_bind; [tc_solve | apply io_only_ensureDirectoriesExist|].
    intros _. apply io_only_cleanScreenshotDirectories. }
  specialize (Hio s1). unfold bind in Hio.
  destruct (ensureDirectoriesExist env s1) as [[[]|e] s2]; simpl in *;
    destruct Hio as ((Ha & Hn & Ht & _) & _);
    unfold wf_refs, primary, secondary, array_get; rewrite Ha, Hn, Ht; simpl;
    rewrite lookup_insert_eq, lookup_insert_ne, lookup_insert_eq by lia;
    repeat split; auto with lia.
Qed.

Lemma constructor_Inv v w : Inv env (constructor env v w).
Proof.
  destruct (constructor_spec v w) as (H1 & _ & Hp & Hs).
  split; rewrite ?Hp, ?Hs; simpl; auto using Forall_nil_2; unfold MAX_SCREENSHOTS; lia.
Qed.

Lemma run_Inv cs s : Inv env s -> Inv env (run env cs s).
Proof.
  revert s. induction cs as [|c cs IH]; intros s HI; simpl; [done|].
  apply IH. by apply call_Inv.
Qed.

Lemma reachable_Inv v w cs : Inv env (run env cs (constructor env v w)).
Proof. apply run_Inv, constructor_Inv. Qed.

End Invariants.

(** ** Distinct paths, when UUIDs do not repeat *)

Lemma string_length_append (a b : string) :
  String.length (a +:+ b) = String.length a + String.length b.
Proof. induction a as [|c a IH]; simpl; [done | by rewrite IH]. Qed.

Lemma append_inv_tail (a b t : string) : a +:+ t = b +:+ t -> a = b.
Proof.
  revert b. induction a as [|c a IH]; intros [|d b] H; simpl in *.
  - done.
  - apply (f_equal String.length) in H. simpl in H.
    rewrite ?string_length_append in H. simpl in H. lia.
  - apply (f_equal String.length) in H. simpl in H.
    rewrite ?string_length_append in H. simpl in H. lia.
  - injection H as -> H. f_equal. by apply IH.
Qed.

Lemma path_join_inj dir a b : path_join dir a = path_join dir b -> a = b.
Proof.
  unfold path_join. intros H. apply (inj (String.append dir)) in H.
  by apply (inj (String.append "/")) in H.
Qed.

Lemma path_join_nonempty dir a : path_join dir a <> "".
Proof.
  unfold path_join. intros H. apply (f_equal String.length) in H.
  rewrite string_length_append in H. simpl in H. lia.
Qed.

Section Distinct.

Variable env : Env.
Hypothesis uuid_inj : forall n m, uuid env n = uuid env m -> n = m.

Lemma generated_fresh dir c n l :
  Forall (generated env dir c) l -> c <= n ->
  path_join dir (uuid env n +:+ ".png") ∉ l.
Proof.
  intros Hl Hc Hin. rewrite list.Forall_forall in Hl.
  destruct (Hl _ Hin) as (m & Hm & Heq).
  apply path_join_inj, append_inv_tail, uuid_inj in Heq. lia.
Qed.

Lemma call_Distinct c s : Inv env s -> Distinct s -> Distinct (call env c s).
Proof.
  intros [H1 H2 H3 H4 H5] [Dp Ds]. destruct c; simpl; try (by split).
  - destruct (clearQueues_spec env s) as (s' & -> & _ & _ & _ & Hp & Hs). simpl.
    split; rewrite ?Hp, ?Hs; apply NoDup_nil_2.
  - destruct (takeScreenshot env s) as [[p|e] s'] eqn:Hrun; simpl.
    + destruct (takeScreenshot_queues env s p s' H1 Hrun)
        as (_ & _ & (n & Hn & Hp) & Hq & Ho).
      destruct (decide (view (this s) = queue)) as [Hv|Hv].
      * destruct (Hq Hv) as (Hp' & Hs'). rewrite target_dir_queue in Hp by done.
        split; rewrite ?Hp', ?Hs'; [|done].
        apply pushed_NoDup; [done|]. subst p. eapply generated_fresh; [exact H4 | lia].
      * destruct (Ho Hv) as (Hs' & Hp'). rewrite target_dir_other in Hp by done.
        split; rewrite ?Hp', ?Hs'; [done|].
        apply pushed_NoDup; [done|]. subst p. eapply generated_fresh; [exact H5 | lia].
    + apply takeScreenshot_Throw_frame in Hrun.
      split; by rewrite ?(heap_frame_primary _ _ Hrun), ?(heap_frame_secondary _ _ Hrun).
  - destruct (deleteScreenshot_spec env path s H1) as (r & s' & -> & _ & _ & _ & _ & _ & H). simpl.
    destruct (success r).
    + destruct H as (_ & Hq & Ho).
      destruct (decide (view (this s) = queue)) as [Hv|Hv];
        [destruct (Hq Hv) as (Hp' & Hs') | destruct (Ho Hv) as (Hs' & Hp')];
        split; rewrite ?Hp', ?Hs'; auto using NoDup_filter.
    + destruct H as (Hp' & Hs' & _). split; by rewrite ?Hp', ?Hs'.
  - destruct (clearExtraScreenshotQueue_spec env s H1) as (s' & -> & _ & _ & _ & Hp & Hs).
    simpl. split; rewrite ?Hp, ?Hs; [done | apply NoDup_nil_2].
Qed.

Lemma run_Distinct cs s : Inv env s -> Distinct s -> Distinct (run env cs s).
Proof.
  revert s. induction cs as [|c cs IH]; intros s HI HD; simpl; [done|].
  apply IH; [by apply call_Inv | by apply call_Distinct].
Qed.

Lemma reachable_Distinct v w cs : Distinct (run env cs (constructor env v w)).
Proof.
  apply run_Distinct; [apply constructor_Inv|].
  destruct (constructor_spec env v w) as (_ & _ & Hp & Hs).
  split; rewrite ?Hp, ?Hs; apply NoDup_nil_2.
Qed.

End Distinct.

(** ** The Windows capture loop *)

Section Orchestrator.

Variable env : Env.

Lemma method1_Return_valid s buffer s' :
  method1 env s = (Return buffer, s') ->
  isValidPng buffer = true /\ 1024 <= length buffer.
Proof.
  unfold method1. intros H.
  apply bind_Return_inv in H as (id & s1 & _ & H). cbv zeta in H.
  apply bind_Return_inv in H as ([] & s2 & _ & H).
  apply bind_Return_inv in H as (e & s3 & _ & H).
  destruct e; [|discriminate].
  apply bind_Return_inv in H as (b & s4 & _ & H).
  destruct (isValidPng b) eqn:Hv; simpl in H; [|discriminate].
  destruct (length b <? 1024) eqn:Hl; [discriminate|].
  apply bind_Return_inv in H as ([] & s5 & _ & H).
  injection H as <- <-. split; [done|]. by apply Nat.ltb_ge.
Qed.

Lemma method2_Return_valid s buffer s' :
  method2 env s = (Return buffer, s') ->
  isValidPng buffer = true /\ 1024 <= length buffer.
Proof.
  unfold method2. intros H.
  apply bind_Return_inv in H as (id & s1 & _ & H). cbv zeta in H.
  apply bind_Return_inv in H as ([] & s2 & _ & H).
  apply bind_Return_inv in H as (e & s3 & _ & H).
  destruct e; [|discriminate].
  apply bind_Return_inv in H as (b & s4 & _ & H).
  destruct (isValidPng b) eqn:Hv; simpl in H; [|discriminate].
  destruct (length b <? 1024) eqn:Hl; [discriminate|].
  apply bind_Return_inv in H as ([] & s5 & _ & H).
  injection H as <- <-. split; [done|]. by apply Nat.ltb_ge.
Qed.

Lemma cleanupTempFiles_run s :
  exists s0, cleanupTempFiles env s = (Return tt, s0) /\ io_frame s s0.
Proof.
  assert (total (cleanupTempFiles env)) as Ht.
  { apply total_try_catch. intros _. apply total_ret. }
  destruct (Ht s) as ([] & s0 & Hrun). exists s0. split; [done|].
  eapply (preserves_run io_frame); [apply io_only_cleanupTempFiles | exact Hrun].
Qed.

Lemma attempt_round_both_fail attempt errors s e1 s1 e2 s2 :
  method1 env s = (Throw e1, s1) ->
  method2 env s1 = (Throw e2, s2) ->
  attempt_round env attempt errors s =
    (Return (None,
       (errors ++ ["Method 1 (attempt " +:+ pretty attempt +:+ "): " +:+ e1])
         ++ ["Method 2 (attempt " +:+ pretty attempt +:+ "): " +:+ e2]), s2).
Proof.
  intros H1 H2. unfold attempt_round, try_catch, bind. rewrite H1. cbv zeta.
  by rewrite H2.
Qed.

Lemma attempt_round_fallback attempt errors s e1 s1 buffer s2 :
  method1 env s = (Throw e1, s1) ->
  method2 env s1 = (Return buffer, s2) ->
  attempt_round env attempt errors s =
    (Return (Some buffer,
       errors ++ ["Method 1 (attempt " +:+ pretty attempt +:+ "): " +:+ e1]), s2).
Proof.
  intros H1 H2. unfold attempt_round, try_catch, bind. rewrite H1. cbv zeta.
  by rewrite H2.
Qed.

Lemma attempts_loop_cons attempt rest errors s :
  attempts_loop env (attempt :: rest) errors s =
  match attempt_round env attempt errors s with
  | (Return (Some buffer, errors), s') => (Return (Some buffer, errors), s')
  | (Return (None, errors), s') =>
      attempts_loop env rest errors (snd (backoff attempt s'))
  | (Throw e, s') => (Throw e, s')
  end.
Proof.
  simpl. unfold bind at 1.
  destruct (attempt_round env attempt errors s) as [[[[b|] errs]|e] s']; try reflexivity.
  unfold bind, backoff. by destruct (when _ _ s') as [[[]|?] ?] eqn:Hw;
    [| unfold when in Hw; destruct (attempt <? maxRetries); discriminate].
Qed.

Lemma method_frame_sleeps {A} (m : M A) s c s' :
  io_only m -> m s = (c, s') -> sleeps (world s') = sleeps (world s).
Proof. intros Hm Hrun. eapply (preserves_run io_frame) in Hrun; [apply Hrun | done]. Qed.

End Orchestrator.

(** ** The purge at construction *)

Lemma string_append_assoc (a b c : string) : (a +:+ b) +:+ c = a +:+ b +:+ c.
Proof.
  induction a as [|x a IH]; [done|].
  change (String x ((a +:+ b) +:+ c) = String x (a +:+ b +:+ c)). by rewrite IH.
Qed.



Lemma entry_name_sound dir p name : entry_name dir p = Some name -> p = path_join dir name.
Proof.
  unfold entry_name, path_join.
  assert (forall a s r, strip_prefix a s = Some r -> s = a +:+ r) as Hstrip.
  { induction a as [|x a IH]; intros s r H.
    - simpl in H. by injection H as ->.
    - destruct s as [|y s]; simpl in H; [done|].
      destruct (Ascii.eqb_spec x y) as [->|]; [|done].
      change (String y s = String y (a +:+ r)). f_equal. by apply IH. }
  destruct (strip_prefix (dir +:+ "/") p) as [r|] eqn:Hs; [|done].
  apply Hstrip in Hs. rewrite string_append_assoc in Hs.
  destruct r; [done|]. destruct (String.index 0 "/" _); [done|]. by intros [= <-].
Qed.

Section Purge.

Variable env : Env.

Lemma unlink_logged_run p s :
  try_catch (unlink env p) (fun _ => ret tt) s = (Return tt, snd (unlink env p s)).
Proof. unfold try_catch. by destruct (unlink env p s) as [[[]|e] s1]. Qed.

Lemma unlink_no_fault p s :
  fs_fault env (clock (world s)) OpUnlink p = None ->
  files (world (snd (unlink env p s))) !! p = None.
Proof.
  intros Hf. unfold unlink, fs_call, bind, tick, get_world, modify_world, throw, ret.
  simpl. rewrite Hf. simpl.
  destruct (files (world s) !! p) eqn:Hl; simpl; [apply lookup_delete_eq | done].
Qed.


Lemma entry_name_plain dir p name :
  entry_name dir p = Some name -> name <> "" /\ String.index 0 "/" name = None.
Proof.
  unfold entry_name. destruct (strip_prefix (dir +:+ "/") p) as [r|]; [|done].
  destruct r as [|c r]; [done|].
  destruct (String.index 0 "/" (String c r)) eqn:E; [done|].
  intros [= <-]. by split.
Qed.




End Purge.


Lemma bind_Return {A B} (m : M A) (k : A -> M B) s a s1 :
  m s = (Return a, s1) -> bind m k s = k a s1.
Proof. intros H. unfold bind. by rewrite H. Qed.

Lemma mkdir_adds p (D : gset string) : p ∈ list_to_set (p :: parents p) ∪ D.
Proof. apply elem_of_union. left. apply elem_of_list_to_set, list_elem_of_here. Qed.

Section Construction.

Variable env : Env.





End Construction.

(** * The claims *)

(** ** C3: the validator *)

(** C3, as amended.  [isValidPng] accepts exactly the buffers that start
    with the eight signature bytes: a buffer shorter than eight bytes or with
    a wrong first byte is rejected, and the length plays no other role.  The
    1024-byte minimum is a separate check of the two Windows capture methods:
    a buffer that either of them returns has the signature and at least 1024
    bytes. *)
Theorem isValidPng_checks_the_signature_only :
  (forall buffer : Buffer,
     isValidPng buffer = true <-> exists rest, buffer = pngSignature ++ rest) /\
  (forall buffer : Buffer, length buffer < 8 -> isValidPng buffer = false) /\
  (forall (b : byte) (rest : Buffer), b <> x89 -> isValidPng (b :: rest) = false) /\
  (forall env s buffer s',
     method1 env s = (Return buffer, s') \/ method2 env s = (Return buffer, s') ->
     isValidPng buffer = true /\ 1024 <= length buffer).
Proof.
  split; [|split; [|split]].
  - intros buffer. unfold isValidPng. split.
    + destruct (Nat.ltb_spec (length buffer) 8) as [Hl|Hl]; [done|].
      intros Ht%bool_decide_eq_true. exists (drop 8 buffer).
      by rewrite <- Ht, take_drop.
    + intros (rest & ->). rewrite length_app. reflexivity.
  - intros buffer Hl. unfold isValidPng.
    by destruct (Nat.ltb_spec (length buffer) 8) as [_|Hge]; [|lia].
  - intros b rest Hb. unfold isValidPng.
    destruct (length (b :: rest) <? 8); [done|].
    apply bool_decide_eq_false. intros Ht. apply Hb.
    unfold pngSignature in Ht. simpl in Ht. by injection Ht.
  - intros env s buffer s' [H|H].
    + by eapply method1_Return_valid.
    + by eapply method2_Return_valid.
Qed.

(** C3, as stated, fails: the bare signature is eight bytes long, far below
    the 1024-byte minimum, and [isValidPng] accepts it. *)
Lemma isValidPng_accepts_a_tiny_buffer :
  ~ (forall buffer : Buffer,
       isValidPng buffer = true ->
       take 8 buffer = pngSignature /\ 1024 <= length buffer).
Proof.
  intros H. destruct (H pngSignature) as [_ Hl]; [reflexivity|].
  simpl in Hl. lia.
Qed.

(** ** C5: the queue getters *)

(** C5, as amended.  [getScreenshotQueue] and [getExtraScreenshotQueue]
    return the array object that the field holds, not a copy, and change
    nothing: element for element the result shows the current queue, and a
    [push] on it is a [push] on the queue of the service. *)
Theorem getters_return_the_queue_itself (s : St) :
  getScreenshotQueue s = (Return (screenshotQueue (this s)), s) /\
  getExtraScreenshotQueue s = (Return (extraScreenshotQueue (this s)), s) /\
  array_get (screenshotQueue (this s)) (world s) = primary s /\
  array_get (extraScreenshotQueue (this s)) (world s) = secondary s /\
  (forall x s',
     array_push (screenshotQueue (this s)) x s = (Return tt, s') ->
     primary s' = primary s ++ [x] /\
     fst (getScreenshotQueue s') = Return (screenshotQueue (this s))) /\
  (forall x s',
     array_push (extraScreenshotQueue (this s)) x s = (Return tt, s') ->
     secondary s' = secondary s ++ [x] /\
     fst (getExtraScreenshotQueue s') = Return (extraScreenshotQueue (this s))).
Proof.
  split_and!; try reflexivity.
  - intros x s' [= <-]. split; [|done].
    unfold primary, array_get. simpl. by rewrite lookup_insert_eq.
  - intros x s' [= <-]. split; [|done].
    unfold secondary, array_get. simpl. by rewrite lookup_insert_eq.
Qed.

(** C5, as stated, fails: a caller that pushes onto the array it got from
    [getScreenshotQueue] has changed the primary queue of the service. *)
Lemma getScreenshotQueue_leaks_the_queue :
  let s := constructor env_posix queue world_empty in
  exists q s1 s2,
    getScreenshotQueue s = (Return q, s1) /\
    array_push q "/home/me/holiday.png" s1 = (Return tt, s2) /\
    primary s = [] /\
    primary s2 = ["/home/me/holiday.png"] /\
    fst (takeScreenshot env_posix s) = Return "/data/screenshots/shot-6.png" /\
    primary (snd (takeScreenshot env_posix s)) = ["/data/screenshots/shot-6.png"] /\
    primary (snd (takeScreenshot env_posix s2))
      = ["/home/me/holiday.png"; "/data/screenshots/shot-6.png"].
Proof.
  eexists _, _, _. split; [reflexivity|]. split; [reflexivity|].
  by vm_compute.
Qed.

(** ** C4 and C9: deletion *)

(** [deleteScreenshot] reports a failure only for an [unlink] that threw,
    and with its message. *)
Lemma deleteScreenshot_failure env path s r s' :
  deleteScreenshot env path s = (Return r, s') ->
  success r = false ->
  (is_Some (files (world s) !! path) \/ path ∈ dirs (world s)) /\
  exists e, unlink env path s = (Throw e, s') /\ r = mkDeleteResult false (Some e).
Proof.
  unfold deleteScreenshot.
  match goal with |- context [bind get_this ?k] => set (rest := bind get_this k) end.
  assert (forall s1, exists s2, rest s1 = (Return (mkDeleteResult true None), s2)) as Hrest.
  { intros s1. unfold rest.
    unfold bind, get_this, array_read, get_world, array_new, set_screenshotQueue,
      set_extraScreenshotQueue, set_this, ret. cbn [fst snd].
    destruct (decide (view (this s1) = queue)); by eexists. }
  clearbody rest. intros Hrun Hok. unfold try_catch in Hrun.
  rewrite (bind_Return _ _ _ _ _
             (eq_refl : existsSync path s
                        = (Return (bool_decide (is_Some (files (world s) !! path))
                                   || bool_decide (path ∈ dirs (world s))), s))) in Hrun.
  destruct (bool_decide (is_Some (files (world s) !! path))
            || bool_decide (path ∈ dirs (world s))) eqn:Hex; cbn [when] in Hrun.
  - assert (is_Some (files (world s) !! path) \/ path ∈ dirs (world s)) as Hex'.
    { apply orb_true_iff in Hex as [H1|H1]; apply bool_decide_eq_true in H1; auto. }
    destruct (unlink env path s) as [[[]|e] s1] eqn:Hun.
    + rewrite (bind_Return _ _ _ _ _ Hun) in Hrun.
      destruct (Hrest s1) as (s2 & Hr). rewrite Hr in Hrun.
      injection Hrun as <- <-. discriminate Hok.
    + unfold bind in Hrun. rewrite Hun in Hrun. injection Hrun as <- <-.
      split; [done|]. by exists e.
  - rewrite (bind_Return _ _ _ _ _ (eq_refl : ret tt s = (Return tt, s))) in Hrun.
    destruct (Hrest s) as (s2 & Hr). rewrite Hr in Hrun.
    injection Hrun as <- <-. discriminate Hok.
Qed.

(** C4, as amended.  In every state the class can reach,
    [deleteScreenshot path] never throws.  When it reports success, the file
    at [path] is gone, every entry equal to [path] is gone from the queue of
    the current view (the primary queue in view [queue], the secondary queue
    otherwise), the entries of that queue that differ from [path] are kept
    in order, and the other queue is as it was.  It reports success whenever
    nothing exists at [path], and also whenever a file is at [path] and the
    [unlink] does not fail: that file is then deleted.  It reports failure
    only when something is at [path] and the [unlink] threw; the error it
    reports is the message of the [unlink], and both queues are as they
    were. *)
Theorem deleteScreenshot_filters_the_current_queue env v w cs path :
  let s := run env cs (constructor env v w) in
  exists r s',
    deleteScreenshot env path s = (Return r, s') /\
    (success r = true ->
       files (world s') !! path = None /\
       (view (this s) = queue ->
          primary s' = filter (fun filePath => filePath <> path) (primary s) /\
          secondary s' = secondary s) /\
       (view (this s) <> queue ->
          secondary s' = filter (fun filePath => filePath <> path) (secondary s) /\
          primary s' = primary s)) /\
    (files (world s) !! path = None -> path ∉ dirs (world s) -> success r = true) /\
    (is_Some (files (world s) !! path) ->
     fs_fault env (clock (world s)) OpUnlink path = None ->
     success r = true /\ files (world s') !! path = None) /\
    (success r = false ->
     primary s' = primary s /\ secondary s' = secondary s /\
     (is_Some (files (world s) !! path) \/ path ∈ dirs (world s)) /\
     exists e, unlink env path s = (Throw e, s') /\ r = mkDeleteResult false (Some e)).
Proof.
  intros s.
  destruct (deleteScreenshot_spec env path s) as (r & s' & Hrun & _ & _ & _ & _ & _ & H).
  { apply (inv_refs env), reachable_Inv. }
  exists r, s'. split; [done|].
  destruct (success r) eqn:Hok.
  - split_and!; [by intros _ | done | by destruct H | done].
  - destruct H as (Hp & Hs & Hex).
    destruct (deleteScreenshot_failure env path s r s' Hrun Hok) as (_ & e & Hun & Hr).
    split_and!; [done | | | ].
    + intros Hnone Hdir. destruct Hex as [[b Hb]|Hin]; [congruence | done].
    + intros [b Hb] Hnf. exfalso. revert Hun.
      cbv [unlink fs_call bind tick get_world modify_world throw ret]. cbn [fst snd].
      rewrite Hnf. cbn [world files set_clock]. by rewrite Hb.
    + intros _. split_and!; [done | done | done | by exists e].
Qed.

(** C4, as stated, fails: in view [queue], a path that is in the secondary
    queue stays there, although [deleteScreenshot] deletes its file and
    reports success. *)
Lemma deleteScreenshot_misses_the_other_queue :
  let s := run env_posix [CallSetView solutions; CallTakeScreenshot; CallSetView queue]
             (constructor env_posix queue world_empty) in
  let path := "/data/extra_screenshots/shot-6.png" in
  view (this s) = queue /\
  secondary s = [path] /\
  is_Some (files (world s) !! path) /\
  fst (deleteScreenshot env_posix path s) = Return (mkDeleteResult true None) /\
  files (world (snd (deleteScreenshot env_posix path s))) !! path = None /\
  secondary (snd (deleteScreenshot env_posix path s)) = [path].
Proof.
  vm_compute. repeat split; try reflexivity. by eexists.
Qed.

Lemma filter_other_id (path : string) (l : list string) :
  path ∉ l -> filter (fun filePath => filePath <> path) l = l.
Proof.
  induction l as [|x l IH]; intros H; [done|].
  apply not_elem_of_cons in H as [Hx Hl].
  rewrite filter_cons_True; [by rewrite IH | by intros ->].
Qed.

(** C9.  Once nothing exists at [path] and [path] is in neither queue,
    [deleteScreenshot path] reports success, and so does a second call; the
    two queues hold after each call what they held before. *)
Theorem deleteScreenshot_twice env v w cs path :
  let s := run env cs (constructor env v w) in
  files (world s) !! path = None ->
  path ∉ dirs (world s) ->
  path ∉ primary s ->
  path ∉ secondary s ->
  exists s1 s2,
    deleteScreenshot env path s = (Return (mkDeleteResult true None), s1) /\
    deleteScreenshot env path s1 = (Return (mkDeleteResult true None), s2) /\
    primary s1 = primary s /\ secondary s1 = secondary s /\
    primary s2 = primary s /\ secondary s2 = secondary s.
Proof.
  intros s Hfile Hdir Hp Hs.
  assert (Hstep : forall s0, wf_refs s0 ->
    files (world s0) !! path = None -> path ∉ dirs (world s0) ->
    path ∉ primary s0 -> path ∉ secondary s0 ->
    exists s1, deleteScreenshot env path s0 = (Return (mkDeleteResult true None), s1) /\
      wf_refs s1 /\ files (world s1) !! path = None /\ (path ∉ dirs (world s1)) /\
      primary s1 = primary s0 /\ secondary s1 = secondary s0).
  { intros s0 Hwf Hf0 Hd0 Hp0 Hs0.
    destruct (deleteScreenshot_spec env path s0 Hwf)
      as (r & s1 & Hrun & Hwf1 & _ & _ & Hd1 & Hr & H).
    destruct (success r).
    - destruct H as (Hgone & Hcur & Hoth). rewrite Hr in Hrun by done.
      exists s1. split_and!; auto; [congruence|..];
        destruct (decide (view (this s0) = queue)) as [Hv|Hv];
        [destruct (Hcur Hv) as (Hp1 & Hs1) | destruct (Hoth Hv) as (Hs1 & Hp1) |
         destruct (Hcur Hv) as (Hp1 & Hs1) | destruct (Hoth Hv) as (Hs1 & Hp1)];
        rewrite ?Hp1, ?Hs1; auto using filter_other_id.
    - destruct H as (_ & _ & [[b Hb]|Hin]); [congruence | done]. }
  destruct (Hstep s) as (s1 & Hrun1 & Hwf1 & Hf1 & Hd1 & Hp1 & Hs1); auto.
  { apply (inv_refs env), reachable_Inv. }
  destruct (Hstep s1) as (s2 & Hrun2 & _ & _ & _ & Hp2 & Hs2); auto; try congruence.
  exists s1, s2. split_and!; auto; congruence.
Qed.

(** An instance of C9: a path that was captured and deleted, deleted twice
    more. *)
Lemma deleteScreenshot_twice_witness :
  let s := run env_posix
             [CallTakeScreenshot; CallDeleteScreenshot "/data/screenshots/shot-6.png";
              CallTakeScreenshot]
             (constructor env_posix queue world_empty) in
  primary s = ["/data/screenshots/shot-10.png"] /\
  exists s1 s2,
    deleteScreenshot env_posix "/data/screenshots/shot-6.png" s
      = (Return (mkDeleteResult true None), s1) /\
    deleteScreenshot env_posix "/data/screenshots/shot-6.png" s1
      = (Return (mkDeleteResult true None), s2) /\
    primary s1 = primary s /\ secondary s1 = secondary s /\
    primary s2 = primary s /\ secondary s2 = secondary s.
Proof.
  split; [by vm_compute|].
  apply (deleteScreenshot_twice env_posix queue world_empty
           [CallTakeScreenshot; CallDeleteScreenshot "/data/screenshots/shot-6.png";
            CallTakeScreenshot]
           "/data/screenshots/shot-6.png").
  - by vm_compute.
  - apply (bool_decide_unpack _). by vm_compute.
  - apply (bool_decide_unpack _). by vm_compute.
  - apply (bool_decide_unpack _). by vm_compute.
Defined.

(** ** C1 and C7: capture and the two queues *)

Lemma pushed_below l p : length l < MAX_SCREENSHOTS -> pushed l p = l ++ [p].
Proof.
  unfold pushed, MAX_SCREENSHOTS. intros Hl.
  destruct (Nat.ltb_spec 5 (length (l ++ [p]))) as [H|H]; [|done].
  rewrite length_app in H. simpl in H. lia.
Qed.

Lemma pushed_full front rest p :
  length (front :: rest) = MAX_SCREENSHOTS -> pushed (front :: rest) p = rest ++ [p].
Proof.
  unfold pushed, MAX_SCREENSHOTS. intros Hl.
  destruct (Nat.ltb_spec 5 (length ((front :: rest) ++ [p]))) as [H|H]; [done|].
  rewrite length_app in H. simpl in *. lia.
Qed.

Lemma pushed_snoc l p : pushed l p = l ++ [p] \/ pushed l p = tail l ++ [p].
Proof.
  unfold pushed. destruct (MAX_SCREENSHOTS <? length (l ++ [p])) eqn:H; [|by left].
  destruct l as [|x l]; [discriminate | by right].
Qed.

Lemma target_array (s : St) :
  array_get (target (this s)) (world s) =
  if decide (view (this s) = queue) then primary s else secondary s.
Proof. unfold target, primary, secondary. by destruct (decide _). Qed.

(** C1, as amended.  After every successful [takeScreenshot], whatever was
    called before it, each queue holds at most five paths.  The path goes to
    the end of the queue of the current view; if that queue held fewer than
    five paths nothing is removed, and if it held five, its first path is
    removed and five are left.  The removed path occurs no more in the queue
    provided [uuidv4] never repeats itself, and its file is gone provided that
    unlinking it does not fail: a failed [unlink] is logged only, and then the
    path has left the queue while the file is still there. *)
Theorem takeScreenshot_keeps_five_and_evicts_the_oldest env v w cs p s' :
  let s := run env cs (constructor env v w) in
  takeScreenshot env s = (Return p, s') ->
  let old := if decide (view (this s) = queue) then primary s else secondary s in
  let new := if decide (view (this s) = queue) then primary s' else secondary s' in
  length (primary s') <= MAX_SCREENSHOTS /\
  length (secondary s') <= MAX_SCREENSHOTS /\
  (length old < MAX_SCREENSHOTS -> new = old ++ [p]) /\
  (length old = MAX_SCREENSHOTS ->
   exists front rest,
     old = front :: rest /\ new = rest ++ [p] /\ length new = MAX_SCREENSHOTS /\
     ((forall n m, uuid env n = uuid env m -> n = m) -> front ∉ new) /\
     ((forall n, fs_fault env n OpUnlink front = None) ->
      files (world s') !! front = None)).
Proof.
  intros s Hrun old new.
  pose proof (reachable_Inv env v w cs) as HI. fold s in HI.
  pose proof (takeScreenshot_Inv env s HI) as HI'. rewrite Hrun in HI'. simpl in HI'.
  destruct (takeScreenshot_queues env s p s' (inv_refs env s HI) Hrun)
    as (_ & _ & (n & Hn & Hp) & Hq & Ho).
  assert (new = pushed old p) as Hnew.
  { unfold new, old. destruct (decide (view (this s) = queue)) as [Hv|Hv].
    - by destruct (Hq Hv). - by destruct (Ho Hv). }
  assert (Forall (generated env (target_dir env (this s)) (clock (world s))) old) as Hgen.
  { unfold old, target_dir. destruct (decide (view (this s) = queue)); apply HI. }
  split; [apply HI'|]. split; [apply HI'|]. split.
  - intros Hl. rewrite Hnew. by apply pushed_below.
  - intros Hl. destruct old as [|front rest] eqn:Hold; [discriminate|].
    exists front, rest. split; [done|].
    rewrite Hnew, pushed_full by done. split; [done|]. split.
    { rewrite length_app. simpl in *. unfold MAX_SCREENSHOTS in *. lia. }
    split.
    + intros Hinj.
      assert (NoDup (front :: rest)) as Hnd.
      { rewrite <- Hold. unfold old.
        destruct (reachable_Distinct env Hinj v w cs) as [Dp Ds]. fold s in Dp, Ds.
        by destruct (decide (view (this s) = queue)). }
      assert (p ∉ front :: rest) as Hfresh.
      { subst p. eapply generated_fresh; [exact Hinj | exact Hgen | lia]. }
      apply NoDup_cons in Hnd as [Hfr _].
      intros [Hin| ->%list_elem_of_singleton]%elem_of_app; [done|].
      apply Hfresh. by left.
    + intros Hnf.
      pose proof (takeScreenshot_spec env s) as Hspec. rewrite Hrun in Hspec.
      destruct Hspec as (_ & _ & _ & _ & _ & _ & Hfile).
      rewrite target_array in Hfile. fold old in Hfile. rewrite Hold in Hfile.
      apply Hfile; [| done | | done].
      * rewrite length_app. simpl in *. unfold MAX_SCREENSHOTS in *. lia.
      * apply Forall_cons in Hgen as [(m & _ & ->) _]. apply path_join_nonempty.
Qed.

(** An instance of C1: the sixth capture on a quiet machine. *)
Lemma takeScreenshot_keeps_five_witness :
  let cs := replicate 5 CallTakeScreenshot in
  let s := run env_posix cs (constructor env_posix queue world_empty) in
  let s' := snd (takeScreenshot env_posix s) in
  takeScreenshot env_posix s = (Return "/data/screenshots/shot-21.png", s') /\
  length (primary s') <= MAX_SCREENSHOTS /\ length (secondary s') <= MAX_SCREENSHOTS.
Proof.
  intros cs s s'.
  assert (takeScreenshot env_posix s = (Return "/data/screenshots/shot-21.png", s')) as H.
  { by vm_compute. }
  split; [exact H|].
  destruct (takeScreenshot_keeps_five_and_evicts_the_oldest
              env_posix queue world_empty cs _ _ H) as (Hp & Hs & _).
  by split.
Defined.

(** On the quiet machine the sixth capture evicts the first path and
    deletes its file. *)
Example eviction_on_a_quiet_machine :
  let s := run env_posix (replicate 5 CallTakeScreenshot)
             (constructor env_posix queue world_empty) in
  let s' := snd (takeScreenshot env_posix s) in
  primary s' = ["/data/screenshots/shot-9.png"; "/data/screenshots/shot-12.png";
                "/data/screenshots/shot-15.png"; "/data/screenshots/shot-18.png";
                "/data/screenshots/shot-21.png"] /\
  files (world s') !! "/data/screenshots/shot-6.png" = None /\
  files (world s') !! "/data/screenshots/shot-21.png" = Some (png 2000).
Proof. by vm_compute. Qed.

(** C1, as stated, fails: on a machine where files cannot be deleted, the
    sixth capture removes the oldest path from the queue, and the file of
    that path is still on disk. *)
Lemma eviction_can_leave_the_file :
  let s := run env_busy (replicate 5 CallTakeScreenshot)
             (constructor env_busy queue world_empty) in
  let s' := snd (takeScreenshot env_busy s) in
  primary s = ["/data/screenshots/shot-6.png"; "/data/screenshots/shot-9.png";
               "/data/screenshots/shot-12.png"; "/data/screenshots/shot-15.png";
               "/data/screenshots/shot-18.png"] /\
  fst (takeScreenshot env_busy s) = Return "/data/screenshots/shot-21.png" /\
  primary s' = ["/data/screenshots/shot-9.png"; "/data/screenshots/shot-12.png";
                "/data/screenshots/shot-15.png"; "/data/screenshots/shot-18.png";
                "/data/screenshots/shot-21.png"] /\
  files (world s') !! "/data/screenshots/shot-6.png" = Some (png 2000).
Proof. by vm_compute. Qed.

(** C7.  Whatever calls came before, among them any changes of view, a
    successful [takeScreenshot] in view [queue] puts its path at the end of
    the primary queue and leaves the secondary queue as it is, and one in
    view [solutions] or [debug] puts its path at the end of the secondary
    queue and leaves the primary queue as it is; the path lies in the
    directory of that queue, and [setView] itself moves nothing. *)
Theorem capture_goes_to_the_queue_of_the_view env v w cs p s' :
  let s := run env cs (constructor env v w) in
  takeScreenshot env s = (Return p, s') ->
  (view (this s) = queue ->
     (primary s' = primary s ++ [p] \/ primary s' = tail (primary s) ++ [p]) /\
     secondary s' = secondary s /\
     exists n, p = path_join (screenshotDir env) (uuid env n +:+ ".png")) /\
  (view (this s) = solutions \/ view (this s) = debug ->
     (secondary s' = secondary s ++ [p] \/ secondary s' = tail (secondary s) ++ [p]) /\
     primary s' = primary s /\
     exists n, p = path_join (extraScreenshotDir env) (uuid env n +:+ ".png")) /\
  view (this s') = view (this s) /\
  (forall v',
     view (this (call env (CallSetView v') s)) = v' /\
     primary (call env (CallSetView v') s) = primary s /\
     secondary (call env (CallSetView v') s) = secondary s).
Proof.
  intros s Hrun.
  pose proof (reachable_Inv env v w cs) as HI. fold s in HI.
  destruct (takeScreenshot_queues env s p s' (inv_refs env s HI) Hrun)
    as (_ & Ht & (n & _ & Hp) & Hq & Ho).
  split_and!.
  - intros Hv. destruct (Hq Hv) as (-> & ->).
    rewrite target_dir_queue in Hp by done.
    split_and!; [apply pushed_snoc | done | by exists n].
  - intros Hv. assert (view (this s) <> queue) as Hv' by (destruct Hv as [-> | ->]; done).
    destruct (Ho Hv') as (-> & ->).
    rewrite target_dir_other in Hp by done.
    split_and!; [apply pushed_snoc | done | by exists n].
  - by rewrite Ht.
  - intros v'. by split_and!.
Qed.

(** An instance of C7: a capture in view [solutions], after one in view
    [queue]. *)
Lemma capture_goes_to_the_queue_of_the_view_witness :
  let cs := [CallTakeScreenshot; CallSetView solutions] in
  let s := run env_posix cs (constructor env_posix queue world_empty) in
  let s' := snd (takeScreenshot env_posix s) in
  takeScreenshot env_posix s = (Return "/data/extra_screenshots/shot-9.png", s') /\
  primary s' = primary s /\
  (secondary s' = secondary s ++ ["/data/extra_screenshots/shot-9.png"] \/
   secondary s' = tail (secondary s) ++ ["/data/extra_screenshots/shot-9.png"]).
Proof.
  intros cs s s'.
  assert (takeScreenshot env_posix s
          = (Return "/data/extra_screenshots/shot-9.png", s')) as H.
  { by vm_compute. }
  split; [exact H|].
  destruct (capture_goes_to_the_queue_of_the_view
              env_posix queue world_empty cs _ _ H) as (_ & Hsol & _).
  destruct Hsol as (Hsec & Hprim & _); [left; by vm_compute|].
  by split.
Defined.

(** ** C10: a failed capture *)

Lemma try_catch_rethrow {A} (m : M A) s : try_catch m (fun error => throw error) s = m s.
Proof. unfold try_catch, throw. by destruct (m s) as [[a|e] s1]. Qed.

Section Failure.

Variable env : Env.

(** [saveAndEnqueue], cut at the write: what precedes it, the write, and the
    push with the eviction that follow it. *)
Lemma saveAndEnqueue_cut dir q buffer s :
  let p := path_join dir (uuid env (clock (world s)) +:+ ".png") in
  match before_write env p s with
  | (Throw e, s2) => saveAndEnqueue env dir q buffer s = (Throw e, s2)
  | (Return _, s2) =>
      match writeFile env p buffer s2 with
      | (Throw e, s3) => saveAndEnqueue env dir q buffer s = (Throw e, s3)
      | (Return _, s3) =>
          exists s',
            saveAndEnqueue env dir q buffer s = (Return p, s') /\
            this s' = this s3 /\
            arrays (world s') = <[q := pushed (array_get q (world s3)) p]> (arrays (world s3))
      end
  end.
Proof.
  intros p. unfold saveAndEnqueue, before_write.
  rewrite !(bind_Return _ _ _ _ _ (uuidv4_run env s)). cbv zeta. fold p.
  set (s1 := mkSt _ _).
  rewrite !(bind_Return _ _ _ _ _
              (eq_refl : existsSync (dirname p) s1
                         = (Return (bool_decide (is_Some (files (world s1) !! dirname p))
                                    || bool_decide (dirname p ∈ dirs (world s1))), s1))).
  destruct (when _ (mkdirSync env (dirname p)) s1) as [[[]|e] s2] eqn:Hmk.
  - rewrite (bind_Return _ _ _ _ _ Hmk).
    destruct (writeFile env p buffer s2) as [[[]|e] s3] eqn:Hw.
    + rewrite (bind_Return _ _ _ _ _ Hw).
      destruct (enqueue_spec env q p s3) as (s' & Hrun & Hthis & _ & _ & Harr & _).
      exists s'. by rewrite Hrun.
    + unfold bind. by rewrite Hw.
  - unfold bind. by rewrite Hmk.
Qed.

Lemma before_write_io_only p : io_only (before_write env p).
Proof.
  unfold before_write. apply preserves_bind; [tc_solve | apply io_only_uuidv4 |].
  intros _. apply preserves_bind; [tc_solve | apply io_only_existsSync |].
  intros e. apply preserves_when; [tc_solve | apply io_only_mkdirSync].
Qed.

(** [takeScreenshot], cut at the end of the capture. *)
Lemma takeScreenshot_cut s buffer s1 :
  captureScreenshot env s = (Return buffer, s1) ->
  length buffer <> 0 -> isValidPng buffer = true ->
  this s1 = this s /\ arrays (world s1) = arrays (world s) /\
  takeScreenshot env s
  = saveAndEnqueue env (target_dir env (this s)) (target (this s)) buffer s1.
Proof.
  intros Hcap Hlen Hvalid.
  pose proof (preserves_run heap_frame _ _ _ _ (heap_only_captureScreenshot env) Hcap)
    as (Harr & _ & Hthis & _).
  split_and!; [done | done |].
  unfold takeScreenshot. rewrite try_catch_rethrow, (bind_Return _ _ _ _ _ Hcap).
  destruct (Nat.eqb_spec (length buffer) 0) as [|_]; [done|].
  rewrite Hvalid. cbn [negb]. unfold bind at 1, get_this. cbn [fst snd].
  unfold target_dir, target. rewrite <- Hthis.
  by destruct (decide (view (this s1) = queue)).
Qed.

(** A path is returned only after [writeFile] returned for it, and up to
    then the heap is as at the start. *)
Lemma saveAndEnqueue_Return_write dir q buffer s p s' :
  saveAndEnqueue env dir q buffer s = (Return p, s') ->
  p = path_join dir (uuid env (clock (world s)) +:+ ".png") /\
  exists s2 s3, writeFile env p buffer s2 = (Return tt, s3) /\
                heap_frame s s2 /\ heap_frame s s3.
Proof.
  assert (Hmk : forall b d, io_only (when b (mkdirSync env d))).
  { intros. apply preserves_when; [tc_solve | apply io_only_mkdirSync]. }
  unfold saveAndEnqueue. intros H.
  apply bind_Return_inv in H as (id & s1 & Hid & H).
  pose proof (io_only_run _ _ _ _ (io_only_uuidv4 _) Hid) as F1.
  rewrite uuidv4_run in Hid. injection Hid as <- Hs1. cbv zeta in H.
  apply bind_Return_inv in H as (ex & s2 & Hex & H).
  pose proof (io_only_run _ _ _ _ (io_only_existsSync _) Hex) as F2.
  apply bind_Return_inv in H as ([] & s3 & Hm & H).
  pose proof (io_only_run _ _ _ _ (Hmk _ _) Hm) as F3.
  apply bind_Return_inv in H as ([] & s4 & Hw & H).
  pose proof (io_only_run _ _ _ _ (io_only_writeFile _ _ _) Hw) as F4.
  destruct (enqueue_spec env q (path_join dir (uuid env (clock (world s)) +:+ ".png")) s4)
    as (s5 & Heq & _).
  rewrite Heq in H. injection H as <- <-.
  pose proof (heap_frame_trans _ _ _ (heap_frame_trans _ _ _ F1 F2) F3) as F.
  split; [done|].
  exists s3, s4. split_and!; [done | done | by eapply heap_frame_trans].
Qed.

Lemma takeScreenshot_Return_inv s p s' :
  takeScreenshot env s = (Return p, s') ->
  exists buffer s1 s2 s3,
    captureScreenshot env s = (Return buffer, s1) /\
    length buffer <> 0 /\ isValidPng buffer = true /\
    p = path_join (target_dir env (this s)) (uuid env (clock (world s1)) +:+ ".png") /\
    writeFile env p buffer s2 = (Return tt, s3) /\
    heap_frame s s3.
Proof.
  intros Hrun. unfold takeScreenshot in Hrun. rewrite try_catch_rethrow in Hrun.
  apply bind_Return_inv in Hrun as (buffer & s1 & Hcap & H).
  pose proof (preserves_run heap_frame _ _ _ _ (heap_only_captureScreenshot env) Hcap)
    as F1.
  destruct (Nat.eqb_spec (length buffer) 0) as [|Hlen]; [discriminate|].
  destruct (isValidPng buffer) eqn:Hvalid; simpl in H; [|discriminate].
  apply bind_Return_inv in H as (h & s1' & [= <- <-] & H).
  assert (this s1 = this s) as Hthis by apply F1.
  assert (p = path_join (target_dir env (this s)) (uuid env (clock (world s1)) +:+ ".png")
          /\ exists s2 s3, writeFile env p buffer s2 = (Return tt, s3)
                            /\ heap_frame s1 s2 /\ heap_frame s1 s3)
    as (Hp & s2 & s3 & Hw & _ & F3).
  { unfold target_dir. rewrite <- Hthis.
    destruct (decide (view (this s1) = queue));
      by eapply saveAndEnqueue_Return_write. }
  exists buffer, s1, s2, s3. split_and!; auto. by eapply heap_frame_trans.
Qed.

End Failure.

(** C10.  [takeScreenshot] either throws, and then the two queues, the
    fields and every array of the heap are as before the call, or returns a
    path.  In that case the capture had returned a non-empty buffer with the
    PNG signature in some state; from that state the UUID was drawn and the
    directory made sure of; in the state so reached [writeFile] returned for
    the path and the buffer, and when it had returned the heap was still as
    at the start; the one change of the heap is the push on the queue of the
    current view (with the eviction), made after the write.  A capture that
    throws makes [takeScreenshot] throw with the same message; an empty
    buffer or one without the signature makes it throw where the capture
    ended; a failure to make the directory, and a failure of the write in
    the state in which [takeScreenshot] calls it, make it throw with the
    message of that failure in the state the failure left. *)
Theorem takeScreenshot_throws_before_it_pushes env s :
  match takeScreenshot env s with
  | (Throw e, s') =>
      primary s' = primary s /\ secondary s' = secondary s /\
      this s' = this s /\ arrays (world s') = arrays (world s)
  | (Return p, s') =>
      exists buffer s1 s2 s3,
        captureScreenshot env s = (Return buffer, s1) /\
        length buffer <> 0 /\ isValidPng buffer = true /\
        p = path_join (target_dir env (this s)) (uuid env (clock (world s1)) +:+ ".png") /\
        before_write env p s1 = (Return tt, s2) /\
        writeFile env p buffer s2 = (Return tt, s3) /\
        arrays (world s3) = arrays (world s) /\ this s3 = this s /\
        files (world s3) !! p = Some buffer /\
        arrays (world s') =
          <[target (this s) := pushed (array_get (target (this s)) (world s)) p]>
            (arrays (world s)) /\
        this s' = this s
  end /\
  (forall e s1, captureScreenshot env s = (Throw e, s1) ->
     takeScreenshot env s = (Throw e, s1)) /\
  (forall buffer s1, captureScreenshot env s = (Return buffer, s1) ->
     (length buffer = 0 ->
      takeScreenshot env s = (Throw "Screenshot capture returned empty buffer", s1)) /\
     (length buffer <> 0 -> isValidPng buffer = false ->
      takeScreenshot env s = (Throw "Captured screenshot is not a valid PNG", s1)) /\
     (length buffer <> 0 -> isValidPng buffer = true ->
      let p := path_join (target_dir env (this s)) (uuid env (clock (world s1)) +:+ ".png") in
      (forall e s2, before_write env p s1 = (Throw e, s2) ->
         takeScreenshot env s = (Throw e, s2)) /\
      (forall s2 e s3,
         before_write env p s1 = (Return tt, s2) ->
         writeFile env p buffer s2 = (Throw e, s3) ->
         takeScreenshot env s = (Throw e, s3)))).
Proof.
  split_and!.
  - destruct (takeScreenshot env s) as [[p|e] s'] eqn:Hrun.
    + destruct (takeScreenshot_Return_inv env s p s' Hrun)
        as (buffer & s1 & _ & _ & Hcap & Hlen & Hvalid & Hp & _).
      destruct (takeScreenshot_cut env s buffer s1 Hcap Hlen Hvalid) as (Hthis & Harr & Hcut).
      pose proof (saveAndEnqueue_cut env (target_dir env (this s)) (target (this s)) buffer s1)
        as H.
      cbv zeta in H. rewrite <- Hp, <- Hcut, Hrun in H.
      destruct (before_write env p s1) as [[[]|e] s2] eqn:Hb; [|done].
      destruct (preserves_run io_frame _ _ _ _ (before_write_io_only env p) Hb)
        as ((Ha2 & _ & Ht2 & _) & _).
      destruct (writeFile env p buffer s2) as [[[]|e] s3] eqn:Hw; [|done].
      destruct (preserves_run io_frame _ _ _ _ (io_only_writeFile env p buffer) Hw)
        as ((Ha3 & _ & Ht3 & _) & _).
      destruct H as (s'' & [= <-] & Hthis' & Harr').
      exists buffer, s1, s2, s3. split_and!; try done; try congruence.
      * revert Hw. unfold writeFile, fs_call, bind, tick, modify_world, throw, ret.
        cbn [fst snd]. destruct (fs_fault env (clock (world s2)) OpWriteFile p); [done|].
        intros [= <-]. apply lookup_insert_eq.
      * rewrite Harr'. unfold array_get. rewrite Ha3, Ha2, Harr. done.
    + apply takeScreenshot_Throw_frame in Hrun.
      rewrite (heap_frame_primary _ _ Hrun), (heap_frame_secondary _ _ Hrun).
      destruct Hrun as (? & _ & ? & _). by split_and!.
  - intros e s1 Hcap. unfold takeScreenshot. rewrite try_catch_rethrow.
    unfold bind. by rewrite Hcap.
  - intros buffer s1 Hcap. split_and!.
    + intros Hlen. unfold takeScreenshot. rewrite try_catch_rethrow.
      unfold bind. rewrite Hcap, Hlen. reflexivity.
    + intros Hlen Hvalid. unfold takeScreenshot. rewrite try_catch_rethrow.
      unfold bind. rewrite Hcap, Hvalid.
      by destruct (Nat.eqb_spec (length buffer) 0).
    + intros Hlen Hvalid p.
      destruct (takeScreenshot_cut env s buffer s1 Hcap Hlen Hvalid) as (_ & _ & ->).
      pose proof (saveAndEnqueue_cut env (target_dir env (this s)) (target (this s)) buffer s1)
        as H.
      cbv zeta in H. fold p in H. split.
      * intros e s2 Hb. by rewrite Hb in H.
      * intros s2 e s3 Hb Hw. by rewrite Hb, Hw in H.
Qed.

(** Two instances of C10: a disk on which nothing can be written, and a
    Windows machine without a working capture method. *)
Example takeScreenshot_on_a_full_disk :
  let s := run env_full [CallSetView solutions] (constructor env_full queue world_empty) in
  fst (takeScreenshot env_full s) = Throw "ENOSPC: no space left on device" /\
  primary (snd (takeScreenshot env_full s)) = [] /\
  secondary (snd (takeScreenshot env_full s)) = [].
Proof. by vm_compute. Qed.

Example takeScreenshot_without_a_capture_method :
  let s := constructor env_win_down queue world_empty in
  fst (takeScreenshot env_win_down s) =
    Throw ("Failed to capture screenshot: Could not capture screenshot after 3 attempts. "
           +:+ "Errors: Method 1 (attempt 1): screen grab failed; "
           +:+ "Method 2 (attempt 1): powershell not found; "
           +:+ "Method 1 (attempt 2): screen grab failed; "
           +:+ "Method 2 (attempt 2): powershell not found; "
           +:+ "Method 1 (attempt 3): screen grab failed; "
           +:+ "Method 2 (attempt 3): powershell not found") /\
  primary (snd (takeScreenshot env_win_down s)) = [] /\
  secondary (snd (takeScreenshot env_win_down s)) = [].
Proof. by vm_compute. Qed.

(** ** C2 and C6: the Windows capture loop *)

Section Rounds.

Variable env : Env.

Lemma backoff_sleeps attempt s :
  sleeps (world (snd (backoff attempt s))) =
  sleeps (world s) ++
    (if attempt <? maxRetries then [(200 * 2 ^ (Z.of_nat attempt - 1))%Z] else []).
Proof.
  unfold backoff. destruct (attempt <? maxRetries); simpl; [done|].
  by rewrite app_nil_r.
Qed.


End Rounds.



Example captureWindowsScreenshot_gives_up_run :
  let s := constructor env_win_down queue world_empty in
  fst (captureWindowsAttempts env_win_down s) =
    Return (None,
      ["Method 1 (attempt 1): screen grab failed";
       "Method 2 (attempt 1): powershell not found";
       "Method 1 (attempt 2): screen grab failed";
       "Method 2 (attempt 2): powershell not found";
       "Method 1 (attempt 3): screen grab failed";
       "Method 2 (attempt 3): powershell not found"]) /\
  sleeps (world (snd (captureWindowsAttempts env_win_down s))) = [200%Z; 400%Z].
Proof. by vm_compute. Qed.

(** C6.  When method 1 fails and method 2 succeeds whenever they are
    tried, the loop ends in its first round: after the clean-up, method 1 runs
    once and fails, method 2 runs once, and its buffer, which has the PNG
    signature and at least 1024 bytes, is what [captureWindowsScreenshot]
    returns, in the state in which method 2 ended.  Nothing was awaited, and
    the one recorded error is that of method 1 in attempt 1. *)
Theorem captureWindowsScreenshot_falls_back_to_method2 env s :
  (forall s0, exists e s1, method1 env s0 = (Throw e, s1)) ->
  (forall s0, exists buffer s1, method2 env s0 = (Return buffer, s1)) ->
  exists s0 e s1 buffer s2,
    cleanupTempFiles env s = (Return tt, s0) /\
    method1 env s0 = (Throw e, s1) /\
    method2 env s1 = (Return buffer, s2) /\
    captureWindowsAttempts env s =
      (Return (Some buffer, ["Method 1 (attempt 1): " +:+ e]), s2) /\
    captureWindowsScreenshot env s = (Return buffer, s2) /\
    sleeps (world s2) = sleeps (world s) /\
    isValidPng buffer = true /\ 1024 <= length buffer.
Proof.
  intros H1 H2.
  destruct (cleanupTempFiles_run env s) as (s0 & Hclean & (_ & Hsl0)).
  destruct (H1 s0) as (e & s1 & Hm1). destruct (H2 s1) as (buffer & s2 & Hm2).
  exists s0, e, s1, buffer, s2.
  assert (captureWindowsAttempts env s =
          (Return (Some buffer, ["Method 1 (attempt 1): " +:+ e]), s2)) as Hrun.
  { unfold captureWindowsAttempts.
    rewrite (bind_Return _ _ _ _ _ Hclean).
    change (seq 1 maxRetries) with [1; 2; 3].
    rewrite attempts_loop_cons.
    by rewrite (attempt_round_fallback env 1 [] s0 e s1 buffer s2 Hm1 Hm2). }
  destruct (method2_Return_valid env s1 buffer s2 Hm2) as (Hvalid & Hlen).
  split_and!; try done.
  - unfold captureWindowsScreenshot. by rewrite (bind_Return _ _ _ _ _ Hrun).
  - rewrite (method_frame_sleeps _ _ _ _ (io_only_method2 env) Hm2).
    by rewrite (method_frame_sleeps _ _ _ _ (io_only_method1 env) Hm1).
Qed.

Lemma method2_on_the_fallback_machine s0 :
  exists buffer s1, method2 env_win_fallback s0 = (Return buffer, s1).
Proof.
  destruct (method2 env_win_fallback s0) as [[buffer|e] s1] eqn:H; [by eauto|].
  exfalso. revert H.
  unfold method2, bind, uuidv4, tick, ret, capture_to_file, withTimeout, modify_world,
    existsSync, get_world, readFile, fs_call. simpl.
  rewrite lookup_insert_eq. simpl.
  unfold bind, tick, ret, get_world. simpl. rewrite lookup_insert_eq.
  change (isValidPng (png 2000)) with true. simpl.
  change (length (png 2000) <? 1024) with false. cbv iota.
  unfold try_catch.
  match goal with |- context [unlink ?e ?p ?s] => destruct (unlink e p s) as [[[]|?] ?] end;
    discriminate.
Qed.

(** An instance of C6: only the PowerShell method works. *)
Lemma captureWindowsScreenshot_falls_back_witness :
  let s := constructor env_win_fallback queue world_empty in
  (forall s0, exists e s1, method1 env_win_fallback s0 = (Throw e, s1)) /\
  (forall s0, exists buffer s1, method2 env_win_fallback s0 = (Return buffer, s1)) /\
  exists s0 e s1 buffer s2,
    cleanupTempFiles env_win_fallback s = (Return tt, s0) /\
    method1 env_win_fallback s0 = (Throw e, s1) /\
    method2 env_win_fallback s1 = (Return buffer, s2) /\
    captureWindowsAttempts env_win_fallback s =
      (Return (Some buffer, ["Method 1 (attempt 1): " +:+ e]), s2) /\
    captureWindowsScreenshot env_win_fallback s = (Return buffer, s2) /\
    sleeps (world s2) = sleeps (world s) /\
    isValidPng buffer = true /\ 1024 <= length buffer.
Proof.
  intros s.
  assert (forall s0, exists e s1, method1 env_win_fallback s0 = (Throw e, s1)) as H1.
  { intros s0. eexists _, _.
    unfold method1, bind, uuidv4, tick, ret, capture_to_file, withTimeout. simpl.
    reflexivity. }
  split; [exact H1|]. split; [exact method2_on_the_fallback_machine|].
  exact (captureWindowsScreenshot_falls_back_to_method2 env_win_fallback s H1
           method2_on_the_fallback_machine).
Defined.

Example captureWindowsScreenshot_falls_back_run :
  let s := constructor env_win_fallback queue world_empty in
  fst (captureWindowsAttempts env_win_fallback s) =
    Return (Some (png 2000), ["Method 1 (attempt 1): screen grab failed"]) /\
  sleeps (world (snd (captureWindowsAttempts env_win_fallback s))) = [].
Proof. by vm_compute. Qed.

(** ** C8: the purge at construction *)



(** Nor does the purge descend into subdirectories: an image below a
    subdirectory of the primary artifact directory is kept. *)
Example constructor_keeps_nested_images :
  let s := constructor env_posix queue world_nested in
  files world_nested !! "/data/screenshots/sub/keep.png" = Some (png 1) /\
  files (world s) !! "/data/screenshots/sub/keep.png" = Some (png 1) /\
  files (world s) !! "/data/screenshots/old.png" = None.
Proof. by vm_compute. Qed.

(** * Further properties *)

#[local] Hint Resolve io_only_statSync_mtimeMs io_only_Date_now : io.

(** ** Loops that delete files *)

(** A loop whose body, at [x], can do no more to the disk than delete the
    file at [g x], and that only when [D (g x)]. *)
Lemma deleting_loop {A} (g : A -> string) (D : string -> Prop) (body : A -> M unit)
    (l : list A) s :
  (forall x, io_only (body x)) ->
  (forall x s0,
     fst (body x s0) = Return tt /\
     dirs (world (snd (body x s0))) = dirs (world s0) /\
     (files (world (snd (body x s0))) = files (world s0) \/
      files (world (snd (body x s0))) = delete (g x) (files (world s0)) /\ D (g x))) ->
  exists s',
    for_of l body s = (Return tt, s') /\ io_frame s s' /\
    dirs (world s') = dirs (world s) /\
    (forall p, files (world s') !! p = files (world s) !! p \/
               files (world s') !! p = None /\ D p /\ p ∈ map g l) /\
    ((forall x s0, files (world (snd (body x s0))) !! g x = None) ->
     forall x, x ∈ l -> files (world s') !! g x = None).
Proof.
  intros Hio Hbody. revert s. induction l as [|x l IH]; intros s.
  - exists s. split_and!; [done | reflexivity | done | by left |].
    intros _ x Hx. by apply not_elem_of_nil in Hx.
  - destruct (Hbody x s) as (Hret & Hdirs & Hfiles).
    destruct (body x s) as [[[]|e] s1] eqn:Hb; simpl in *; [|done].
    destruct (IH s1) as (s' & Hrun & Hfr & Hd & Hf & Hgone).
    exists s'. split_and!.
    + by rewrite (bind_Return _ _ _ _ _ Hb).
    + etrans; [|exact Hfr]. by eapply (preserves_run io_frame).
    + congruence.
    + intros p. destruct (Hf p) as [Hp|(Hp & HD & Hin)].
      * rewrite Hp. destruct Hfiles as [-> | [-> HD]]; [by left|].
        destruct (decide (g x = p)) as [<-|Hne].
        -- right. split_and!; [apply lookup_delete_eq | done | by left].
        -- left. by rewrite lookup_delete_ne.
      * right. split_and!; [done | done | by right].
    + intros Hnone y [->|Hy]%elem_of_cons; [|by apply Hgone].
      destruct (Hf (g x)) as [Hp|(Hp & _)]; [|done].
      rewrite Hp. specialize (Hnone x s). by rewrite Hb in Hnone.
Qed.

Section FileLoops.

Variable env : Env.

Lemma unlink_logged_step p s0 :
  fst (try_catch (unlink env p) (fun _ => ret tt) s0) = Return tt /\
  dirs (world (snd (try_catch (unlink env p) (fun _ => ret tt) s0))) = dirs (world s0) /\
  (files (world (snd (try_catch (unlink env p) (fun _ => ret tt) s0))) = files (world s0) \/
   files (world (snd (try_catch (unlink env p) (fun _ => ret tt) s0)))
     = delete p (files (world s0)) /\ True).
Proof.
  rewrite unlink_logged_run. simpl.
  destruct (unlink_spec env p s0) as (_ & Hd & Hf).
  split_and!; [done | done |].
  destruct (fst (unlink env p s0)); [right | left]; done.
Qed.

Lemma unlink_existing_step p s0 :
  let body := (e <- existsSync p ;;
               when e (try_catch (unlink env p) (fun _ => ret tt)))%js in
  fst (body s0) = Return tt /\
  dirs (world (snd (body s0))) = dirs (world s0) /\
  (files (world (snd (body s0))) = files (world s0) \/
   files (world (snd (body s0))) = delete p (files (world s0)) /\ True).
Proof.
  intros body. unfold body. erewrite bind_Return by reflexivity.
  destruct (bool_decide (is_Some (files (world s0) !! p)) || bool_decide (p ∈ dirs (world s0)));
    simpl; [|by split_and!; [| |left]].
  pose proof (unlink_logged_step p s0) as H.
  by destruct (try_catch (unlink env p) (fun _ => ret tt) s0) as [[[]|e] s1].
Qed.

Lemma unlink_existing_no_fault p s0 :
  (forall n q, fs_fault env n OpUnlink q = None) ->
  files (world (snd ((e <- existsSync p ;;
     when e (try_catch (unlink env p) (fun _ => ret tt)))%js s0))) !! p = None.
Proof.
  intros Hnf. erewrite bind_Return by reflexivity.
  destruct (bool_decide (is_Some (files (world s0) !! p))) eqn:Hex; simpl.
  - rewrite unlink_logged_run. apply unlink_no_fault, Hnf.
  - apply bool_decide_eq_false in Hex. apply eq_None_not_Some in Hex.
    destruct (bool_decide (p ∈ dirs (world s0))); simpl; [|done].
    rewrite unlink_logged_run. apply unlink_no_fault, Hnf.
Qed.

End FileLoops.

(** ** Clearing the queues *)

(** X1.  In every state the class can reach, [clearQueues] returns, and
    afterwards both queues are empty and the view is as before.  The only
    files it can delete are those whose path was in one of the two queues;
    when no [unlink] fails, all of those are gone, and a failed [unlink]
    leaves its file while the path has left the queue all the same. *)
Theorem clearQueues_empties_both_queues env v w cs :
  let s := run env cs (constructor env v w) in
  exists s',
    clearQueues env s = (Return tt, s') /\
    primary s' = [] /\ secondary s' = [] /\ view (this s') = view (this s) /\
    dirs (world s') = dirs (world s) /\
    (forall p, files (world s') !! p = None \/ files (world s') !! p = files (world s) !! p) /\
    (forall p, p ∉ primary s -> p ∉ secondary s ->
       files (world s') !! p = files (world s) !! p) /\
    ((forall n p, fs_fault env n OpUnlink p = None) ->
     forall p, p ∈ primary s \/ p ∈ secondary s -> files (world s') !! p = None).
Proof.
  intros s.
  destruct (inv_refs env s (reachable_Inv env v w cs)) as (Hne & Hq & He).
  destruct (clearQueues_spec env s) as (s' & Hrun & _ & Hv & _ & Hp & Hs).
  exists s'. split_and!; try done.
  all: revert Hrun; unfold clearQueues;
    cbv [bind get_this array_read get_world]; simpl;
    destruct (deleting_loop id (fun _ => True)
                (fun p => try_catch (unlink env p) (fun _ => ret tt))
                (array_get (screenshotQueue (this s)) (world s)) s
                (unlink_logged_io_only env) (unlink_logged_step env))
      as (s1 & -> & ((Ha1 & Hn1 & Ht1 & _) & _) & Hd1 & Hf1 & Hg1);
    cbv [array_new set_screenshotQueue bind get_this set_this]; simpl;
    match goal with |- context [for_of ?l ?b ?s2] =>
      destruct (deleting_loop id (fun _ => True) b l s2
                  (unlink_logged_io_only env) (unlink_logged_step env))
        as (s3 & -> & ((Ha3 & Hn3 & Ht3 & _) & _) & Hd3 & Hf3 & Hg3) end;
    cbv [set_extraScreenshotQueue bind get_this set_this array_new]; simpl;
    simpl in *; intros [= <-]; simpl.
  all: assert (array_get (extraScreenshotQueue (this s1))
         (set_next_ref (S (next_ref (world s1)))
            (set_arrays (<[next_ref (world s1):=[]]> (arrays (world s1))) (world s1)))
         = secondary s) as Hsec
    by (unfold array_get, secondary; simpl;
        rewrite Ht1, Hn1, Ha1, lookup_insert_ne by lia; done).
  all: rewrite Hsec in Hf3, Hg3; rewrite list_fmap_id in Hf1, Hf3.
  - congruence.
  - intros p. destruct (Hf3 p) as [->|(-> & _)]; [|by left].
    destruct (Hf1 p) as [->|(-> & _)]; [by right | by left].
  - intros p Hp1 Hp2. destruct (Hf3 p) as [->|(_ & _ & Hin)]; [|done].
    by destruct (Hf1 p) as [->|(_ & _ & Hin)].
  - intros Hnf p Hin.
    assert (forall (x : string) (s0 : St),
      files (world (snd (try_catch (unlink env x) (fun _ => ret tt) s0))) !! id x = None) as Hgo.
    { intros x s0. rewrite unlink_logged_run. apply unlink_no_fault, Hnf. }
    destruct (Hf3 p) as [Hp3|(Hp3 & _)]; [|done]. rewrite Hp3.
    destruct Hin as [Hin|Hin].
    + by apply (Hg1 Hgo p).
    + specialize (Hg3 Hgo p Hin). simpl in Hg3. congruence.
Qed.

(** X2.  In every state the class can reach, [clearExtraScreenshotQueue]
    returns, and afterwards the secondary queue is empty while the primary
    queue and the view are as before.  The only files it can delete are those
    whose path was in the secondary queue; when no [unlink] fails, all of
    those are gone. *)
Theorem clearExtraScreenshotQueue_empties_the_secondary_queue env v w cs :
  let s := run env cs (constructor env v w) in
  exists s',
    clearExtraScreenshotQueue env s = (Return tt, s') /\
    secondary s' = [] /\ primary s' = primary s /\ view (this s') = view (this s) /\
    (forall p, files (world s') !! p = None \/ files (world s') !! p = files (world s) !! p) /\
    (forall p, p ∉ secondary s -> files (world s') !! p = files (world s) !! p) /\
    ((forall n p, fs_fault env n OpUnlink p = None) ->
     forall p, p ∈ secondary s -> files (world s') !! p = None).
Proof.
  intros s.
  pose proof (inv_refs env s (reachable_Inv env v w cs)) as Hwf.
  destruct (clearExtraScreenshotQueue_spec env s Hwf) as (s' & Hrun & _ & Hv & _ & Hp & Hs).
  exists s'. split_and!; try done.
  all: revert Hrun; unfold clearExtraScreenshotQueue;
    rewrite (bind_Return _ _ _ _ _ (eq_refl : get_this s = (Return (this s), s)));
    rewrite (bind_Return _ _ _ _ _
      (eq_refl : array_read (extraScreenshotQueue (this s)) s
                 = (Return (array_get (extraScreenshotQueue (this s)) (world s)), s)));
    destruct (deleting_loop id (fun _ => True)
                (fun p => (e <- existsSync p ;;
                           when e (try_catch (unlink env p) (fun _ => ret tt)))%js)
                (array_get (extraScreenshotQueue (this s)) (world s)) s
                (unlink_existing_io_only env) (unlink_existing_step env))
      as (s1 & Hloop & _ & _ & Hf1 & Hg1);
    rewrite (bind_Return _ _ _ _ _ Hloop);
    cbv [array_new set_extraScreenshotQueue bind get_this set_this]; simpl;
    intros [= <-]; simpl; rewrite list_fmap_id in Hf1;
    fold (secondary s) in Hf1, Hg1.
  - intros p. destruct (Hf1 p) as [->|(-> & _)]; [by right | by left].
  - intros p Hp1. by destruct (Hf1 p) as [->|(_ & _ & Hin)].
  - intros Hnf p Hin. apply (Hg1 (fun x s0 => unlink_existing_no_fault env x s0 Hnf) p Hin).
Qed.

(** ** The clean-up of the temp directory *)

Section TempFiles.

Variable env : Env.

Lemma bind_Throw {A B} (m : M A) (k : A -> M B) s e s1 :
  m s = (Throw e, s1) -> bind m k s = (Throw e, s1).
Proof. intros H. unfold bind. by rewrite H. Qed.

Lemma statSync_mtimeMs_run p s0 :
  exists c s1,
    statSync_mtimeMs env p s0 = (c, s1) /\
    files (world s1) = files (world s0) /\ dirs (world s1) = dirs (world s0) /\
    forall mtime, c = Return mtime -> mtime = mtimeMs env (clock (world s0)) p.
Proof.
  unfold statSync_mtimeMs, fs_call, bind, tick, throw, ret. simpl.
  destruct (fs_fault env (clock (world s0)) OpStat p); eexists _, _;
    (split; [reflexivity|]); simpl; split_and!; try done.
  by intros mtime [= <-].
Qed.

(** One pass through the body of the loop, for the entry [file]: the time
    stamp is the one read in the state in which the pass starts. *)
Lemma stale_check_step now file s0 :
  exists s1,
    (let filePath := path_join (tempDir env) file in
     try_catch
       (mtime <- statSync_mtimeMs env filePath ;;
        when (5 * 60 * 1000 <? now - mtime)%Z (unlink env filePath))
       (fun _ => ret tt)) s0 = (Return tt, s1) /\
    clock (world s0) <= clock (world s1) /\
    dirs (world s1) = dirs (world s0) /\
    (files (world s1) = files (world s0) \/
     files (world s1) = delete (path_join (tempDir env) file) (files (world s0)) /\
     clock (world s0) < clock (world s1) /\
     fs_fault env (clock (world s0)) OpStat (path_join (tempDir env) file) = None /\
     (5 * 60 * 1000
      < now - mtimeMs env (clock (world s0)) (path_join (tempDir env) file))%Z).
Proof.
  cbv zeta. unfold try_catch.
  assert (statSync_mtimeMs env (path_join (tempDir env) file) s0 =
          (match fs_fault env (clock (world s0)) OpStat (path_join (tempDir env) file) with
           | Some e => Throw e
           | None => Return (mtimeMs env (clock (world s0)) (path_join (tempDir env) file))
           end,
           mkSt (set_clock (S (clock (world s0))) (world s0)) (this s0))) as Hstat.
  { unfold statSync_mtimeMs, fs_call, bind, tick, throw, ret. cbn [fst snd].
    by destruct (fs_fault env (clock (world s0)) OpStat (path_join (tempDir env) file)). }
  set (s1 := mkSt _ _) in Hstat.
  destruct (fs_fault env (clock (world s0)) OpStat (path_join (tempDir env) file))
    eqn:Hfault.
  { rewrite (bind_Throw _ _ _ _ _ Hstat). exists s1. unfold ret.
    split_and!; [done | simpl; lia | done | by left]. }
  rewrite (bind_Return _ _ _ _ _ Hstat).
  destruct (5 * 60 * 1000
            <? now - mtimeMs env (clock (world s0)) (path_join (tempDir env) file))%Z
    eqn:Hstale; unfold when.
  - pose proof (unlink_spec env (path_join (tempDir env) file) s1) as ((_ & _ & _ & Hc) & Hd & Hf).
    destruct (unlink env (path_join (tempDir env) file) s1) as [[[]|e] s2];
      cbn [fst snd] in *; exists s2; unfold ret;
      (split_and!; [done | simpl in Hc; lia | by rewrite Hd |]).
    + right. split_and!; [by rewrite Hf | simpl in Hc; lia | done | by apply Z.ltb_lt].
    + left. by rewrite Hf.
  - exists s1. unfold ret. split_and!; [done | simpl; lia | done | by left].
Qed.

(** The loop over the listing, for any body that behaves like a pass. *)
Lemma stale_loop (dir : string) (D : nat -> string -> Prop) (body : string -> M unit)
    (names : list string) s0 :
  (forall file s, exists s1,
     body file s = (Return tt, s1) /\
     clock (world s) <= clock (world s1) /\
     dirs (world s1) = dirs (world s) /\
     (files (world s1) = files (world s) \/
      files (world s1) = delete (path_join dir file) (files (world s)) /\
      clock (world s) < clock (world s1) /\
      D (clock (world s)) (path_join dir file))) ->
  exists s',
    for_of names body s0 = (Return tt, s') /\
    clock (world s0) <= clock (world s') /\
    dirs (world s') = dirs (world s0) /\
    forall p,
      files (world s') !! p = files (world s0) !! p \/
      files (world s') !! p = None /\
      exists name m,
        name ∈ names /\ p = path_join dir name /\
        clock (world s0) <= m < clock (world s') /\ D m p.
Proof.
  intros Hstep. revert s0. induction names as [|x names IH]; intros s0.
  - exists s0. split_and!; [done | done | done | by left].
  - destruct (Hstep x s0) as (s1 & Hb & Hc1 & Hd1 & Hf1).
    destruct (IH s1) as (s' & Hl & Hc & Hd & Hf).
    exists s'. cbn [for_of]. rewrite (bind_Return _ _ _ _ _ Hb).
    split_and!; [done | lia | congruence |].
    intros p. destruct (Hf p) as [Hp | (Hp & name & m & Hin & -> & Hm & HD)].
    + rewrite Hp. destruct Hf1 as [-> | (-> & Hlt & HD)]; [by left|].
      destruct (decide (path_join dir x = p)) as [<- | Hne].
      * right. split; [apply lookup_delete_eq|].
        exists x, (clock (world s0)). split_and!; [by left | done | lia | lia | done].
      * left. by apply lookup_delete_ne.
    + right. split; [done|]. exists name, m.
      split_and!; [by right | done | lia | lia | done].
Qed.

Lemma stale_check_io_only now file :
  io_only (let filePath := path_join (tempDir env) file in
           try_catch
             (mtime <- statSync_mtimeMs env filePath ;;
              when (5 * 60 * 1000 <? now - mtime)%Z (unlink env filePath))
             (fun _ => ret tt)).
Proof. frame_solve. Qed.

End TempFiles.

(** X3.  [cleanupTempFiles] always returns.  It leaves the queues, the
    fields and the directories as they are and awaits nothing.  A file that it
    deletes lies directly in the temp directory, under a name without a
    ["/"], and was more than five minutes old by the two readings of this
    call: the time that [Date.now()] gave right after the listing, and the
    time stamp that a [statSync] of that file gave, without failing, later
    in the call.  Every
    other file is kept as it is. *)
Theorem cleanupTempFiles_deletes_only_stale_temp_files env s :
  exists s',
    cleanupTempFiles env s = (Return tt, s') /\
    io_frame s s' /\ dirs (world s') = dirs (world s) /\
    forall p,
      files (world s') !! p = files (world s) !! p \/
      files (world s') !! p = None /\
      (exists name,
         p = path_join (tempDir env) name /\
         name <> "" /\ String.index 0 "/" name = None) /\
      (exists m,
         S (clock (world s)) < m < clock (world s') /\
         fs_fault env m OpStat p = None /\
         (5 * 60 * 1000 < date_now env (S (clock (world s))) - mtimeMs env m p)%Z).
Proof.
  assert (exists s',
    cleanupTempFiles env s = (Return tt, s') /\ dirs (world s') = dirs (world s) /\
    forall p,
      files (world s') !! p = files (world s) !! p \/
      files (world s') !! p = None /\
      (exists name,
         p = path_join (tempDir env) name /\
         name <> "" /\ String.index 0 "/" name = None) /\
      (exists m,
         S (clock (world s)) < m < clock (world s') /\
         fs_fault env m OpStat p = None /\
         (5 * 60 * 1000 < date_now env (S (clock (world s))) - mtimeMs env m p)%Z))
    as (s' & Hrun & Hd & Hf).
  { unfold cleanupTempFiles, try_catch.
    rewrite (bind_Return _ _ _ _ _
      (eq_refl : existsSync (tempDir env) s
                 = (Return (bool_decide (is_Some (files (world s) !! tempDir env))
                            || bool_decide (tempDir env ∈ dirs (world s))), s))).
    destruct (bool_decide (is_Some (files (world s) !! tempDir env))
              || bool_decide (tempDir env ∈ dirs (world s))); unfold when;
      [|eexists; split; [reflexivity|]; split; [done | by left]].
    set (s1 := mkSt (set_clock (S (clock (world s))) (world s)) (this s)).
    assert (readdirSync env (tempDir env) s =
            (match fs_fault env (clock (world s)) OpReaddir (tempDir env) with
             | Some e => Throw e
             | None => Return (omap (entry_name (tempDir env))
                                 (elements (dom (files (world s))) ++ elements (dirs (world s))))
             end, s1)) as Hread.
    { unfold readdirSync, fs_call, bind, tick, throw, ret, get_world. cbn [fst snd].
      by destruct (fs_fault env (clock (world s)) OpReaddir (tempDir env)). }
    destruct (fs_fault env (clock (world s)) OpReaddir (tempDir env)).
    { rewrite (bind_Throw _ _ _ _ _ Hread).
      eexists. split; [reflexivity|]. split; [done|]. intros p. by left. }
    rewrite (bind_Return _ _ _ _ _ Hread).
    rewrite (bind_Return _ _ _ _ _
      (eq_refl : Date_now env s1
                 = (Return (date_now env (S (clock (world s)))),
                    mkSt (set_clock (S (S (clock (world s)))) (world s1)) (this s1)))).
    match goal with |- context [for_of ?l ?b ?s0] =>
      destruct (stale_loop (tempDir env)
                  (fun m p =>
                     fs_fault env m OpStat p = None /\
                     (5 * 60 * 1000
                      < date_now env (S (clock (world s))) - mtimeMs env m p)%Z)
                  b l s0) as (s2 & -> & Hc & Hd & Hf)
    end.
    { intros file s0. exact (stale_check_step env (date_now env (S (clock (world s)))) file s0). }
    exists s2. split; [reflexivity|]. split; [exact Hd|].
    intros p. destruct (Hf p) as [Hp | (Hp & name & m & Hin & -> & Hm & HD)]; [by left|].
    right. split; [done|]. split.
    - exists name. split; [done|].
      apply list_elem_of_omap in Hin as (q & _ & Hq). by apply (entry_name_plain _ _ _ Hq).
    - exists m. split; [|done]. cbn [world clock set_clock] in Hm. lia. }
  exists s'. split_and!; try done.
  destruct (cleanupTempFiles_run env s) as (s'' & Hrun' & Hfr). congruence.
Qed.

(** ** The Windows capture loop, whatever the tools do *)

Section AnyTools.

Variable env : Env.

Lemma attempt_round_cases attempt errors s :
  exists r errors' s',
    attempt_round env attempt errors s = (Return (r, errors'), s') /\
    io_frame s s' /\
    match r with
    | Some buffer =>
        isValidPng buffer = true /\ 1024 <= length buffer /\
        length errors' <= S (length errors)
    | None => length errors' = S (S (length errors))
    end.
Proof.
  assert (forall c s', attempt_round env attempt errors s = (c, s') -> io_frame s s') as Hfr.
  { intros c s' H. by eapply (preserves_run io_frame); [apply io_only_attempt_round|]. }
  destruct (method1 env s) as [[b1|e1] s1] eqn:Hm1.
  - assert (attempt_round env attempt errors s = (Return (Some b1, errors), s1)) as Hrun.
    { unfold attempt_round, try_catch, bind. by rewrite Hm1. }
    destruct (method1_Return_valid env s b1 s1 Hm1) as (Hv & Hl).
    eexists _, _, _. split; [exact Hrun|]. split; [by eapply Hfr|].
    split_and!; [done | done | lia].
  - destruct (method2 env s1) as [[b2|e2] s2] eqn:Hm2.
    + pose proof (attempt_round_fallback env attempt errors s e1 s1 b2 s2 Hm1 Hm2) as Hrun.
      destruct (method2_Return_valid env s1 b2 s2 Hm2) as (Hv & Hl).
      eexists _, _, _. split; [exact Hrun|]. split; [by eapply Hfr|].
      split_and!; [done | done |]. rewrite length_app. simpl. lia.
    + pose proof (attempt_round_both_fail env attempt errors s e1 s1 e2 s2 Hm1 Hm2) as Hrun.
      eexists _, _, _. split; [exact Hrun|]. split; [by eapply Hfr|].
      rewrite !length_app. simpl. lia.
Qed.

Lemma attempts_loop_cases todo errors s :
  exists r errors' s',
    attempts_loop env todo errors s = (Return (r, errors'), s') /\
    match r with
    | Some buffer =>
        isValidPng buffer = true /\ 1024 <= length buffer /\
        length errors' < length errors + 2 * length todo /\
        exists k, k < length todo /\
                  sleeps (world s') = sleeps (world s) ++ delays (take k todo)
    | None =>
        length errors' = length errors + 2 * length todo /\
        sleeps (world s') = sleeps (world s) ++ delays todo
    end.
Proof.
  revert errors s. induction todo as [|attempt rest IH]; intros errors s.
  - exists None, errors, s. split; [done|]. simpl. split; [lia | by rewrite app_nil_r].
  - rewrite attempts_loop_cons.
    destruct (attempt_round_cases attempt errors s) as (r & errs1 & s1 & -> & (_ & Hsl) & Hr).
    destruct r as [buffer|].
    + destruct Hr as (Hv & Hl & Hlen).
      exists (Some buffer), errs1, s1. split; [done|].
      split_and!; [done | done | simpl; lia |].
      exists 0. split; [simpl; lia|]. simpl. by rewrite app_nil_r.
    + destruct (IH errs1 (snd (backoff attempt s1))) as (r & errs2 & s2 & -> & Hcase).
      exists r, errs2, s2. split; [done|].
      assert (sleeps (world (snd (backoff attempt s1))) ++ delays rest
              = sleeps (world s) ++ delays (attempt :: rest)) as Hall.
      { rewrite backoff_sleeps, Hsl. simpl. by rewrite <- app_assoc. }
      destruct r as [buffer|].
      * destruct Hcase as (Hv & Hl & Hlen & k & Hk & Hsleeps).
        split_and!; [done | done | simpl; lia |].
        exists (S k). split; [simpl; lia|].
        rewrite Hsleeps, backoff_sleeps, Hsl. simpl. by rewrite <- app_assoc.
      * destruct Hcase as (Hlen & Hsleeps).
        split; [simpl; lia|]. by rewrite Hsleeps.
Qed.

Lemma captureWindowsScreenshot_Return_valid s buffer s' :
  captureWindowsScreenshot env s = (Return buffer, s') ->
  isValidPng buffer = true /\ 1024 <= length buffer.
Proof.
  unfold captureWindowsScreenshot, captureWindowsAttempts.
  destruct (cleanupTempFiles_run env s) as (s0 & Hclean & _).
  destruct (attempts_loop_cases (seq 1 maxRetries) [] s0)
    as (r & errors & s1 & Hloop & Hcase).
  assert ((cleanupTempFiles env ;; attempts_loop env (seq 1 maxRetries) [])%js s
          = (Return (r, errors), s1)) as Hrun.
  { by rewrite (bind_Return _ _ _ _ _ Hclean). }
  rewrite (bind_Return _ _ _ _ _ Hrun).
  destruct r as [b|]; simpl; [|done].
  intros [= <- <-]. by destruct Hcase as (Hv & Hl & _).
Qed.

End AnyTools.

(** X4.  Whatever the capture tools and the file system do,
    [captureWindowsScreenshot] leaves the queues and the fields alone, and:
    a buffer that it returns has the PNG signature and at least 1024 bytes,
    and before returning it the loop awaited nothing, 200 ms, or 200 ms and
    then 400 ms; when it throws, it has awaited 200 ms and then 400 ms and the
    message is the fixed text about three attempts followed by six errors
    joined by ["; "]. *)
Theorem captureWindowsScreenshot_outcomes env s :
  heap_frame s (snd (captureWindowsScreenshot env s)) /\
  match captureWindowsScreenshot env s with
  | (Return buffer, s') =>
      isValidPng buffer = true /\ 1024 <= length buffer /\
      (sleeps (world s') = sleeps (world s) \/
       sleeps (world s') = sleeps (world s) ++ [200%Z] \/
       sleeps (world s') = sleeps (world s) ++ [200%Z; 400%Z])
  | (Throw e, s') =>
      sleeps (world s') = sleeps (world s) ++ [200%Z; 400%Z] /\
      exists errors,
        length errors = 6 /\
        e = "Could not capture screenshot after 3 attempts. Errors: "
            +:+ String.concat "; " errors
  end.
Proof.
  split; [apply heap_only_captureWindowsScreenshot|].
  unfold captureWindowsScreenshot, captureWindowsAttempts.
  destruct (cleanupTempFiles_run env s) as (s0 & Hclean & (_ & Hsl0)).
  destruct (attempts_loop_cases env (seq 1 maxRetries) [] s0)
    as (r & errors & s' & Hloop & Hcase).
  assert ((cleanupTempFiles env ;; attempts_loop env (seq 1 maxRetries) [])%js s
          = (Return (r, errors), s')) as Hrun.
  { by rewrite (bind_Return _ _ _ _ _ Hclean). }
  rewrite (bind_Return _ _ _ _ _ Hrun).
  rewrite <- Hsl0. destruct r as [buffer|]; simpl.
  - destruct Hcase as (Hv & Hl & _ & k & Hk & ->).
    split_and!; [done | done |].
    destruct k as [|[|[|k]]]; simpl in *; [| | |lia].
    + left. by rewrite app_nil_r.
    + right. by left.
    + right. by right.
  - destruct Hcase as (Hlen & ->). split; [done|]. by exists errors.
Qed.

(** ** What a capture hands on, and what [takeScreenshot] stores *)

(** X5.  Every error that [captureScreenshot] throws starts with
    ["Failed to capture screenshot: "].  On Windows a buffer that it returns
    has the PNG signature and at least 1024 bytes; elsewhere it is the buffer
    the capture tool resolved with, whatever that holds, and a rejection of
    the tool is thrown with the prefix in front of its message. *)
Theorem captureScreenshot_outcomes env s :
  match captureScreenshot env s with
  | (Throw e, s') => exists e0, e = "Failed to capture screenshot: " +:+ e0
  | (Return buffer, s') =>
      if win32 env then isValidPng buffer = true /\ 1024 <= length buffer
      else screenshot_buffer env (clock (world s)) = Resolved buffer
  end /\
  (win32 env = false ->
   forall e0, screenshot_buffer env (clock (world s)) = Rejected e0 ->
     fst (captureScreenshot env s) = Throw ("Failed to capture screenshot: " +:+ e0)).
Proof.
  unfold captureScreenshot, try_catch. destruct (win32 env) eqn:Hwin.
  - split; [|done].
    destruct (captureWindowsScreenshot env s) as [[buffer|e] s'] eqn:H; [|by eexists].
    exact (captureWindowsScreenshot_Return_valid env s buffer s' H).
  - unfold bind, tick. simpl.
    destruct (screenshot_buffer env (clock (world s))) as [buffer|e0]; simpl.
    + split; [done|]. by intros _ e0 [=].
    + split; [by eexists|]. by intros _ e1 [= <-].
Qed.

Section Stored.

Variable env : Env.

Lemma takeScreenshot_Return_save s p s' :
  takeScreenshot env s = (Return p, s') ->
  exists buffer s1,
    captureScreenshot env s = (Return buffer, s1) /\
    length buffer <> 0 /\ isValidPng buffer = true /\
    saveAndEnqueue env (target_dir env (this s)) (target (this s)) buffer s1
      = (Return p, s').
Proof.
  intros Hrun. unfold takeScreenshot in Hrun. rewrite try_catch_rethrow in Hrun.
  apply bind_Return_inv in Hrun as (buffer & s1 & Hcap & H).
  pose proof (preserves_run heap_frame _ _ _ _ (heap_only_captureScreenshot env) Hcap)
    as (_ & _ & Hthis & _).
  destruct (Nat.eqb_spec (length buffer) 0) as [|Hlen]; [discriminate|].
  destruct (isValidPng buffer) eqn:Hvalid; simpl in H; [|discriminate].
  apply bind_Return_inv in H as (h & s1' & [= <- <-] & H).
  exists buffer, s1. split_and!; try done.
  unfold target_dir, target. rewrite <- Hthis.
  by destruct (decide (view (this s1) = queue)).
Qed.

(** The disk after the part of [saveAndEnqueue] that follows the write: only
    the evicted path can have lost its file. *)
Lemma enqueue_files q p s p0 :
  (MAX_SCREENSHOTS < length (array_get q (world s) ++ [p]) ->
   head (array_get q (world s) ++ [p]) <> Some p0) ->
  forall s',
    (array_push q p ;;
     l <- array_read q ;;
     when (MAX_SCREENSHOTS <? length l) (
       removedPath <- array_shift q ;;
       match removedPath with
       | Some removedPath =>
           when (negb (String.eqb removedPath ""))
             (try_catch (unlink env removedPath) (fun _ => ret tt))
       | None => ret tt
       end) ;;
     ret p)%js s = (Return p, s') ->
    files (world s') !! p0 = files (world s) !! p0.
Proof.
  intros Hfront s'.
  cbv [bind array_push modify_world array_read get_world]. simpl.
  rewrite array_get_insert, decide_True by done.
  set (l := array_get q (world s) ++ [p]) in *.
  destruct (MAX_SCREENSHOTS <? length l) eqn:Hlen; cbv [when].
  - apply Nat.ltb_lt in Hlen. specialize (Hfront Hlen).
    cbv [array_shift bind get_world modify_world]. simpl.
    rewrite array_get_insert, decide_True by done.
    destruct l as [|front rest] eqn:Hl; [simpl in Hlen; lia|].
    simpl. destruct (String.eqb front "") eqn:Hfr; simpl.
    + by intros [= <-].
    + rewrite unlink_logged_run. simpl. intros [= <-].
      match goal with |- context [unlink env front ?s1] =>
        destruct (unlink_spec env front s1) as (_ & _ & Hf);
        destruct (fst (unlink env front s1)); rewrite Hf end; simpl; [|done].
      apply lookup_delete_ne. intros ->. by apply Hfront.
  - by intros [= <-].
Qed.

Lemma saveAndEnqueue_files dir q buffer s p s' :
  saveAndEnqueue env dir q buffer s = (Return p, s') ->
  (MAX_SCREENSHOTS < length (array_get q (world s) ++ [p]) ->
   head (array_get q (world s) ++ [p]) <> Some p) ->
  files (world s') !! p = Some buffer.
Proof.
  assert (Hmk : forall b d, io_only (when b (mkdirSync env d))).
  { intros. apply preserves_when; [tc_solve | apply io_only_mkdirSync]. }
  unfold saveAndEnqueue. intros H Hfront.
  apply bind_Return_inv in H as (id & s1 & Hid & H).
  pose proof (io_only_run _ _ _ _ (io_only_uuidv4 _) Hid) as F1. cbv zeta in H.
  apply bind_Return_inv in H as (ex & s2 & Hex & H).
  pose proof (io_only_run _ _ _ _ (io_only_existsSync _) Hex) as F2.
  apply bind_Return_inv in H as ([] & s3 & Hm & H).
  pose proof (io_only_run _ _ _ _ (Hmk _ _) Hm) as F3.
  apply bind_Return_inv in H as ([] & s4 & Hw & H).
  pose proof (io_only_run _ _ _ _ (io_only_writeFile _ _ _) Hw) as F4.
  pose proof (heap_frame_trans _ _ _
                (heap_frame_trans _ _ _ (heap_frame_trans _ _ _ F1 F2) F3) F4) as F.
  assert (p = path_join dir (id +:+ ".png")) as ->.
  { destruct (enqueue_spec env q (path_join dir (id +:+ ".png")) s4) as (s5 & Heq & _).
    rewrite Heq in H. by injection H as <- _. }
  assert (files (world s4) !! path_join dir (id +:+ ".png") = Some buffer) as Hwritten.
  { revert Hw. unfold writeFile, fs_call, bind, tick, modify_world, throw, ret. simpl.
    destruct (fs_fault env (clock (world s3)) OpWriteFile _); [done|].
    intros [= <-]. simpl. apply lookup_insert_eq. }
  rewrite <- Hwritten. eapply enqueue_files; [|exact H].
  by rewrite (heap_frame_array_get _ _ q F).
Qed.

End Stored.

(** The file of a screenshot that was just taken. *)
Lemma takeScreenshot_Return_file env v w cs p s' :
  let s := run env cs (constructor env v w) in
  (forall n m, uuid env n = uuid env m -> n = m) ->
  takeScreenshot env s = (Return p, s') ->
  exists buffer s1,
    captureScreenshot env s = (Return buffer, s1) /\
    files (world s') !! p = Some buffer.
Proof.
  intros s Hinj Hrun.
  pose proof (reachable_Inv env v w cs) as HI. fold s in HI.
  destruct (takeScreenshot_Return_save env s p s' Hrun)
    as (buffer & s1 & Hcap & _ & _ & Hsave).
  pose proof (preserves_run heap_frame _ _ _ _ (heap_only_captureScreenshot env) Hcap) as F1.
  exists buffer, s1. split; [done|].
  eapply saveAndEnqueue_files; [exact Hsave|].
  rewrite (heap_frame_array_get _ _ _ F1), target_array. intros Hlen Hhead.
  pose proof (saveAndEnqueue_spec env (target_dir env (this s)) (target (this s)) buffer s1) as Hspec.
  rewrite Hsave in Hspec. destruct Hspec as (Hp & _).
  assert (p ∉ (if decide (view (this s) = queue) then primary s else secondary s)) as Hfresh.
  { subst p. destruct F1 as (_ & _ & _ & Hc). unfold target_dir.
    destruct (decide (view (this s) = queue));
      (eapply generated_fresh; [exact Hinj | apply HI | exact Hc]). }
  destruct (if decide (view (this s) = queue) then primary s else secondary s)
    as [|front rest]; simpl in *.
  - unfold MAX_SCREENSHOTS in Hlen. lia.
  - injection Hhead as ->. apply Hfresh. by left.
Qed.

(** X6.  In every state the class can reach, and provided [uuidv4] never
    repeats itself, a successful [takeScreenshot] leaves at the returned path
    a file that holds exactly the buffer the capture returned, and the path is
    the last entry of the queue of the current view. *)
Theorem takeScreenshot_stores_the_capture env v w cs p s' :
  let s := run env cs (constructor env v w) in
  (forall n m, uuid env n = uuid env m -> n = m) ->
  takeScreenshot env s = (Return p, s') ->
  exists buffer s1,
    captureScreenshot env s = (Return buffer, s1) /\
    files (world s') !! p = Some buffer /\
    last (if decide (view (this s) = queue) then primary s' else secondary s') = Some p.
Proof.
  intros s Hinj Hrun.
  pose proof (reachable_Inv env v w cs) as HI. fold s in HI.
  destruct (takeScreenshot_Return_file env v w cs p s' Hinj Hrun) as (buffer & s1 & Hcap & Hfile).
  exists buffer, s1. split_and!; [done | done |].
  destruct (takeScreenshot_queues env s p s' (inv_refs env s HI) Hrun)
    as (_ & _ & _ & Hq & Ho).
  destruct (decide (view (this s) = queue)) as [Hv|Hv];
    [destruct (Hq Hv) as (-> & _) | destruct (Ho Hv) as (-> & _)];
    match goal with |- last (pushed ?l p) = _ =>
      destruct (pushed_snoc l p) as [-> | ->] end; apply last_snoc.
Qed.

(** An instance of X6: the first capture on a quiet machine. *)
Lemma takeScreenshot_stores_the_capture_witness :
  let s := run env_posix [] (constructor env_posix queue world_empty) in
  let s' := snd (takeScreenshot env_posix s) in
  (forall n m, uuid env_posix n = uuid env_posix m -> n = m) /\
  takeScreenshot env_posix s = (Return "/data/screenshots/shot-6.png", s') /\
  exists buffer s1,
    captureScreenshot env_posix s = (Return buffer, s1) /\
    files (world s') !! "/data/screenshots/shot-6.png" = Some buffer /\
    last (if decide (view (this s) = queue) then primary s' else secondary s')
      = Some "/data/screenshots/shot-6.png".
Proof.
  intros s s'.
  assert (forall n m, uuid env_posix n = uuid env_posix m -> n = m) as Hinj.
  { intros n m H. simpl in H. apply (inj (String.append "shot-")) in H.
    by apply (inj pretty) in H. }
  assert (takeScreenshot env_posix s = (Return "/data/screenshots/shot-6.png", s')) as H.
  { by vm_compute. }
  split; [exact Hinj|]. split; [exact H|].
  exact (takeScreenshot_stores_the_capture env_posix queue world_empty [] _ _ Hinj H).
Defined.

(** ** When a capture succeeds away from Windows *)

Section Posix.

Variable env : Env.
Hypothesis Hposix : win32 env = false.

Lemma captureScreenshot_posix_run s :
  captureScreenshot env s =
  (match screenshot_buffer env (clock (world s)) with
   | Resolved buffer => Return buffer
   | Rejected e => Throw ("Failed to capture screenshot: " +:+ e)
   end,
   mkSt (set_clock (S (clock (world s))) (world s)) (this s)).
Proof.
  unfold captureScreenshot, try_catch, bind, tick. rewrite Hposix. simpl.
  by destruct (screenshot_buffer env (clock (world s))).
Qed.

Hypothesis Hmkdir : forall n p, fs_fault env n OpMkdir p = None.
Hypothesis Hwrite : forall n p, fs_fault env n OpWriteFile p = None.

Lemma saveAndEnqueue_total dir q buffer s :
  exists p s', saveAndEnqueue env dir q buffer s = (Return p, s').
Proof.
  unfold saveAndEnqueue. rewrite (bind_Return _ _ _ _ _ (uuidv4_run env s)). cbv zeta.
  set (p := path_join dir (uuid env (clock (world s)) +:+ ".png")).
  set (s1 := mkSt _ _).
  assert (exists s2, (e <- existsSync (dirname p) ;; when (negb e) (mkdirSync env (dirname p)))%js s1
                     = (Return tt, s2)) as (s2 & H2).
  { cbv [bind existsSync get_world ret]. simpl.
    destruct (negb _); cbv [when]; [|by eexists].
    cbv [mkdirSync fs_call bind tick modify_world throw ret]. simpl.
    rewrite Hmkdir. by eexists. }
  assert (exists s3, writeFile env p buffer s2 = (Return tt, s3)) as (s3 & H3).
  { cbv [writeFile fs_call bind tick modify_world throw ret]. simpl.
    rewrite Hwrite. by eexists. }
  destruct (enqueue_spec env q p s3) as (s4 & H4 & _).
  exists p, s4.
  cbv [bind] in *. destruct (existsSync (dirname p) s1) as [[e|?] s1'] eqn:He;
    [|unfold existsSync, bind, get_world, ret in He; discriminate].
  rewrite H2, H3. exact H4.
Qed.

End Posix.

(** X7.  Away from Windows, and as long as creating a directory and writing a
    file do not fail, [takeScreenshot] succeeds exactly when the capture tool
    resolves with a buffer that starts with the PNG signature: no minimum
    size is asked of it, and a failure to delete an evicted file does not
    make the call fail. *)
Theorem takeScreenshot_succeeds_iff_the_tool_gives_a_png env s :
  win32 env = false ->
  (forall n p, fs_fault env n OpMkdir p = None) ->
  (forall n p, fs_fault env n OpWriteFile p = None) ->
  (exists p s', takeScreenshot env s = (Return p, s')) <->
  (exists buffer, screenshot_buffer env (clock (world s)) = Resolved buffer /\
                  isValidPng buffer = true).
Proof.
  intros Hposix Hmkdir Hwrite. split.
  - intros (p & s' & Hrun).
    destruct (takeScreenshot_Return_save env s p s' Hrun)
      as (buffer & s1 & Hcap & _ & Hvalid & _).
    exists buffer. split; [|done].
    rewrite (captureScreenshot_posix_run env Hposix) in Hcap.
    destruct (screenshot_buffer env (clock (world s))) as [b|e]; [|discriminate].
    by injection Hcap as -> _.
  - intros (buffer & Hres & Hvalid).
    pose proof (captureScreenshot_posix_run env Hposix s) as Hcap. rewrite Hres in Hcap.
    unfold takeScreenshot. rewrite try_catch_rethrow.
    rewrite (bind_Return _ _ _ _ _ Hcap).
    assert ((length buffer =? 0) = false) as ->.
    { apply Nat.eqb_neq. intros H0. unfold isValidPng in Hvalid. by rewrite H0 in Hvalid. }
    rewrite Hvalid. simpl. cbv [bind get_this]. simpl.
    destruct (decide _); apply (saveAndEnqueue_total env Hmkdir Hwrite).
Qed.

(** An instance of X7, on a machine whose tool answers with a PNG. *)
Lemma takeScreenshot_succeeds_iff_witness :
  let s := run env_posix [] (constructor env_posix queue world_empty) in
  win32 env_posix = false /\
  (forall n p, fs_fault env_posix n OpMkdir p = None) /\
  (forall n p, fs_fault env_posix n OpWriteFile p = None) /\
  ((exists p s', takeScreenshot env_posix s = (Return p, s')) <->
   (exists buffer, screenshot_buffer env_posix (clock (world s)) = Resolved buffer /\
                   isValidPng buffer = true)).
Proof.
  intros s.
  assert (win32 env_posix = false) as H1 by reflexivity.
  assert (forall n p, fs_fault env_posix n OpMkdir p = None) as H2 by reflexivity.
  assert (forall n p, fs_fault env_posix n OpWriteFile p = None) as H3 by reflexivity.
  split_and!; [exact H1 | exact H2 | exact H3 |].
  exact (takeScreenshot_succeeds_iff_the_tool_gives_a_png env_posix s H1 H2 H3).
Defined.

(** ** Previews *)

Section Previews.

Variable env : Env.
Variable toString_base64 : Buffer -> string.

Lemma readFile_run p s :
  readFile env p s =
  let s1 := mkSt (set_clock (S (clock (world s))) (world s)) (this s) in
  match fs_fault env (clock (world s)) OpReadFile p with
  | Some e => (Throw e, s1)
  | None =>
      match files (world s) !! p with
      | Some b => (Return b, s1)
      | None => (Throw ("ENOENT: no such file or directory, open '" +:+ p +:+ "'"), s1)
      end
  end.
Proof.
  cbv [readFile fs_call bind tick get_world throw ret]. simpl.
  destruct (fs_fault env (clock (world s)) OpReadFile p); [done|]. simpl.
  by destruct (files (world s) !! p).
Qed.

Lemma getImagePreview_run p s :
  exists s',
    getImagePreview env toString_base64 p s =
      (Return (match files (world s) !! p, fs_fault env (clock (world s)) OpReadFile p with
               | Some data, None => "data:image/png;base64," +:+ toString_base64 data
               | _, _ => ""
               end), s') /\
    io_frame s s' /\
    files (world s') = files (world s) /\ dirs (world s') = dirs (world s).
Proof.
  cbv [getImagePreview try_catch bind existsSync get_world ret]. simpl.
  destruct (files (world s) !! p) as [data|] eqn:Hfile; simpl.
  - rewrite readFile_run, Hfile. simpl.
    destruct (fs_fault env (clock (world s)) OpReadFile p); simpl;
      (eexists; split; [reflexivity|]); simpl;
      (unfold io_frame, heap_frame; simpl; split_and!; try done; lia).
  - destruct (bool_decide (p ∈ dirs (world s))); simpl.
    + rewrite readFile_run, Hfile. simpl.
      destruct (fs_fault env (clock (world s)) OpReadFile p); simpl;
        (eexists; split; [reflexivity|]); simpl;
        (unfold io_frame, heap_frame; simpl; split_and!; try done; lia).
    + eexists; split; [reflexivity|]. unfold io_frame, heap_frame; simpl; split_and!; try done; lia.
Qed.

End Previews.

(** X8.  [getImagePreview] never throws and changes neither the disk nor the
    queues.  It returns the data URI of the file's bytes when a file is at
    the path and reading it does not fail, and the empty string in every
    other case: nothing at the path, a directory at the path, or a failed
    read. *)
Theorem getImagePreview_never_throws env toString_base64 p s :
  exists r s',
    getImagePreview env toString_base64 p s = (Return r, s') /\
    io_frame s s' /\
    files (world s') = files (world s) /\ dirs (world s') = dirs (world s) /\
    (forall data,
       files (world s) !! p = Some data ->
       fs_fault env (clock (world s)) OpReadFile p = None ->
       r = "data:image/png;base64," +:+ toString_base64 data) /\
    (files (world s) !! p = None -> r = "") /\
    (forall e, fs_fault env (clock (world s)) OpReadFile p = Some e -> r = "").
Proof.
  destruct (getImagePreview_run env toString_base64 p s) as (s' & Hrun & Hio & Hf & Hd).
  eexists _, s'. split; [exact Hrun|]. split_and!; try done.
  - by intros data -> ->.
  - by intros ->.
  - intros e ->. by destruct (files (world s) !! p).
Qed.

(** X9.  In every state the class can reach, and provided [uuidv4] never
    repeats itself, the preview of a screenshot that was just taken is the
    data URI of the very buffer that the capture returned, unless reading the
    file fails. *)
Theorem getImagePreview_of_a_fresh_screenshot env toString_base64 v w cs p s' :
  let s := run env cs (constructor env v w) in
  (forall n m, uuid env n = uuid env m -> n = m) ->
  takeScreenshot env s = (Return p, s') ->
  fs_fault env (clock (world s')) OpReadFile p = None ->
  exists buffer s1,
    captureScreenshot env s = (Return buffer, s1) /\
    fst (getImagePreview env toString_base64 p s')
      = Return ("data:image/png;base64," +:+ toString_base64 buffer).
Proof.
  intros s Hinj Hrun Hread.
  destruct (takeScreenshot_Return_file env v w cs p s' Hinj Hrun)
    as (buffer & s1 & Hcap & Hfile).
  exists buffer, s1. split; [done|].
  destruct (getImagePreview_run env toString_base64 p s') as (s2 & -> & _).
  by rewrite Hfile, Hread.
Qed.

(** An instance of X9: the first capture on a quiet machine; the encoding
    shown is the list of the byte values. *)
Lemma getImagePreview_of_a_fresh_screenshot_witness :
  let s := run env_posix [] (constructor env_posix queue world_empty) in
  let s' := snd (takeScreenshot env_posix s) in
  let p := "/data/screenshots/shot-6.png" in
  (forall n m, uuid env_posix n = uuid env_posix m -> n = m) /\
  takeScreenshot env_posix s = (Return p, s') /\
  fs_fault env_posix (clock (world s')) OpReadFile p = None /\
  exists buffer s1,
    captureScreenshot env_posix s = (Return buffer, s1) /\
    fst (getImagePreview env_posix String.string_of_list_byte p s')
      = Return ("data:image/png;base64," +:+ String.string_of_list_byte buffer).
Proof.
  intros s s' p.
  assert (forall n m, uuid env_posix n = uuid env_posix m -> n = m) as Hinj.
  { intros n m H. simpl in H. apply (inj (String.append "shot-")) in H.
    by apply (inj pretty) in H. }
  assert (takeScreenshot env_posix s = (Return p, s')) as H by (by vm_compute).
  assert (fs_fault env_posix (clock (world s')) OpReadFile p = None) as Hr by reflexivity.
  split_and!; [exact Hinj | exact H | exact Hr |].
  exact (getImagePreview_of_a_fresh_screenshot env_posix String.string_of_list_byte
           queue world_empty [] p s' Hinj H Hr).
Defined.

(** X10.  In every state the class can reach, once [deleteScreenshot] has
    reported success for a path, the preview of that path is the empty
    string. *)
Theorem getImagePreview_after_deleteScreenshot env toString_base64 v w cs p r s' :
  let s := run env cs (constructor env v w) in
  deleteScreenshot env p s = (Return r, s') ->
  success r = true ->
  fst (getImagePreview env toString_base64 p s') = Return "".
Proof.
  intros s Hrun Hok.
  pose proof (reachable_Inv env v w cs) as HI. fold s in HI.
  destruct (deleteScreenshot_spec env p s (inv_refs env s HI))
    as (r0 & s0 & Hrun0 & _ & _ & _ & _ & _ & H).
  rewrite Hrun in Hrun0. injection Hrun0 as <- <-. rewrite Hok in H.
  destruct H as (Hgone & _).
  destruct (getImagePreview_run env toString_base64 p s') as (s2 & -> & _).
  by rewrite Hgone.
Qed.

(** An instance of X10: a screenshot is taken and deleted again. *)
Lemma getImagePreview_after_deleteScreenshot_witness :
  let cs := [CallTakeScreenshot] in
  let s := run env_posix cs (constructor env_posix queue world_empty) in
  let p := "/data/screenshots/shot-6.png" in
  let r := mkDeleteResult true None in
  let s' := snd (deleteScreenshot env_posix p s) in
  deleteScreenshot env_posix p s = (Return r, s') /\
  success r = true /\
  is_Some (files (world s) !! p) /\
  fst (getImagePreview env_posix String.string_of_list_byte p s') = Return "".
Proof.
  intros cs s p r s'.
  assert (deleteScreenshot env_posix p s = (Return r, s')) as H by (by vm_compute).
  assert (success r = true) as Hok by reflexivity.
  split_and!; [exact H | exact Hok | apply (bool_decide_unpack _); by vm_compute |].
  exact (getImagePreview_after_deleteScreenshot env_posix String.string_of_list_byte
           queue world_empty cs p r s' H Hok).
Defined.

(** ** What the queues hold *)

Lemma artifact_paths_apart ud a b :
  path_join (path_join ud "screenshots") a <> path_join (path_join ud "extra_screenshots") b.
Proof.
  unfold path_join. rewrite !string_append_assoc. intros H.
  apply (inj (String.append ud)) in H. discriminate.
Qed.

(** X11.  In every state the class can reach, each path of the main queue is
    a [.png] file named by an earlier UUID directly in the screenshot
    directory, each path of the extra queue is such a file in the extra
    directory, and no path is in both queues.  If [uuidv4] never repeats
    itself, no path occurs twice. *)
Theorem queues_hold_generated_paths env v w cs :
  let s := run env cs (constructor env v w) in
  (forall p, p ∈ primary s ->
     exists n, n < clock (world s) /\
               p = path_join (screenshotDir env) (uuid env n +:+ ".png")) /\
  (forall p, p ∈ secondary s ->
     exists n, n < clock (world s) /\
               p = path_join (extraScreenshotDir env) (uuid env n +:+ ".png")) /\
  (forall p, p ∈ primary s -> p ∉ secondary s) /\
  ((forall n m, uuid env n = uuid env m -> n = m) ->
   NoDup (primary s ++ secondary s)).
Proof.
  intros s. destruct (reachable_Inv env v w cs) as [_ _ _ Hp Hs]. fold s in Hp, Hs.
  rewrite list.Forall_forall in Hp, Hs.
  assert (forall p, p ∈ primary s -> p ∉ secondary s) as Hapart.
  { intros p H1 H2. destruct (Hp _ H1) as (n & _ & ->). destruct (Hs _ H2) as (m & _ & H).
    by apply artifact_paths_apart in H. }
  split_and!; [exact Hp | exact Hs | exact Hapart |].
  intros Hinj. destruct (reachable_Distinct env Hinj v w cs) as (D1 & D2).
  apply NoDup_app. split_and!; done.
Qed.

(** ** The directories *)

Section Directories.

Variable env : Env.

Lemma before_last_slash_length p d :
  before_last_slash p = Some d -> String.length d < String.length p.
Proof.
  revert d. induction p as [|c p IH]; intros d; simpl; [done|].
  destruct (before_last_slash p) as [d'|].
  - intros [= <-]. simpl. specialize (IH d' eq_refl). lia.
  - destruct (Ascii.eqb c "/"); [|done]. intros [= <-]. simpl. lia.
Qed.

Lemma dirname_length p :
  String.eqb (dirname p) "/" || String.eqb (dirname p) "." = false ->
  String.length (dirname p) < String.length p.
Proof.
  unfold dirname. destruct (before_last_slash p) as [d|] eqn:E; [|done].
  apply before_last_slash_length in E. by destruct d.
Qed.

Lemma parents_upto_fuel n m p :
  String.length p <= n -> String.length p <= m -> parents_upto n p = parents_upto m p.
Proof.
  revert m p. induction n as [|n IH]; intros m p Hn Hm.
  - destruct p; [|simpl in Hn; lia]. by destruct m.
  - destruct m as [|m]; [destruct p; [done | simpl in Hm; lia]|].
    simpl. destruct (String.eqb (dirname p) "/" || String.eqb (dirname p) ".") eqn:E; [done|].
    apply dirname_length in E. f_equal. apply IH; lia.
Qed.

Lemma parents_unfold p :
  parents p =
  if String.eqb (dirname p) "/" || String.eqb (dirname p) "." then []
  else dirname p :: parents (dirname p).
Proof.
  unfold parents. destruct p as [|c p]; [done|].
  change (String.length (String c p)) with (S (String.length p)). cbn [parents_upto].
  destruct (String.eqb (dirname (String c p)) "/" || String.eqb (dirname (String c p)) ".")
    eqn:E; [done|].
  apply dirname_length in E. f_equal. apply parents_upto_fuel; simpl in *; lia.
Qed.

(** The parents of a parent are parents. *)
Lemma parents_chain x d a : d ∈ parents x -> a ∈ parents d -> a ∈ parents x.
Proof.
  remember (String.length x) as n eqn:Hn. revert x Hn.
  induction (lt_wf n) as [n _ IH]. intros x -> Hd Ha.
  rewrite parents_unfold in Hd |- *.
  destruct (String.eqb (dirname x) "/" || String.eqb (dirname x) ".") eqn:E;
    [by apply not_elem_of_nil in Hd|].
  apply dirname_length in E.
  apply elem_of_cons in Hd as [-> | Hd]; [by right|].
  right. by apply (IH _ E (dirname x) eq_refl).
Qed.

Lemma ensure_one_full dir s :
  exists s',
    (e <- existsSync dir ;;
     when (negb e) (try_catch (mkdirSync env dir) (fun _ => ret tt)))%js s = (Return tt, s') /\
    io_frame s s' /\
    files (world s') = files (world s) /\
    (dirs (world s') = dirs (world s) \/
     dirs (world s') = list_to_set (dir :: parents dir) ∪ dirs (world s)) /\
    (fs_fault env (clock (world s)) OpMkdir dir = None ->
     is_Some (files (world s') !! dir) \/ dir ∈ dirs (world s')) /\
    (is_Some (files (world s) !! dir) \/ dir ∈ dirs (world s) -> s' = s).
Proof.
  cbv [bind existsSync get_world ret]. cbn [fst snd].
  destruct (bool_decide (is_Some (files (world s) !! dir))) eqn:Hf; cbn [orb negb when].
  { apply bool_decide_eq_true in Hf. exists s.
    unfold io_frame, heap_frame. split_and!; auto. }
  destruct (bool_decide (dir ∈ dirs (world s))) eqn:Hd; cbn [orb negb when].
  { apply bool_decide_eq_true in Hd. exists s.
    unfold io_frame, heap_frame. split_and!; auto. }
  apply bool_decide_eq_false in Hf, Hd.
  cbv [try_catch mkdirSync fs_call bind tick modify_world throw ret]. cbn [fst snd].
  destruct (fs_fault env (clock (world s)) OpMkdir dir) eqn:Hfault;
    (eexists; split; [reflexivity|]); unfold io_frame, heap_frame;
    cbn [world this files dirs arrays next_ref clock sleeps set_clock set_dirs];
    (split_and!; auto; try lia; try done; try (by intros [|])).
  intros _. right. apply mkdir_adds.
Qed.

Lemma ensure_loop_full (l : list string) s :
  exists s',
    for_of l (fun dir =>
      e <- existsSync dir ;;
      when (negb e) (try_catch (mkdirSync env dir) (fun _ => ret tt)))%js s = (Return tt, s') /\
    io_frame s s' /\
    files (world s') = files (world s) /\
    dirs (world s) ⊆ dirs (world s') /\
    (forall d, d ∈ dirs (world s') ->
       d ∈ dirs (world s) \/ exists x, x ∈ l /\ (d = x \/ d ∈ parents x)) /\
    (forall d, d ∈ dirs (world s') -> d ∉ dirs (world s) ->
       forall a, a ∈ parents d -> a ∈ dirs (world s')) /\
    ((forall n p, fs_fault env n OpMkdir p = None) ->
     forall d, d ∈ l -> is_Some (files (world s') !! d) \/ d ∈ dirs (world s')) /\
    ((forall d, d ∈ l -> is_Some (files (world s) !! d) \/ d ∈ dirs (world s)) -> s' = s).
Proof.
  revert s. induction l as [|x l IH]; intros s; simpl.
  - exists s. unfold io_frame, heap_frame. split_and!; auto.
    + intros d Hd Hnd. by destruct Hnd.
    + intros _ d Hd. by apply not_elem_of_nil in Hd.
  - destruct (ensure_one_full x s) as (s1 & Hb & F1 & Hf1 & Hd1 & Hex1 & Hid1).
    destruct (IH s1) as (s2 & Hl & F2 & Hf2 & Hd2 & Hnew2 & Hpar2 & Hex2 & Hid2).
    exists s2. rewrite (bind_Return _ _ _ _ _ Hb). split; [exact Hl|].
    assert (dirs (world s) ⊆ dirs (world s1)) as Hsub1.
    { destruct Hd1 as [-> | ->]; [done | apply union_subseteq_r]. }
    assert (forall d, d ∈ dirs (world s1) ->
              d ∈ dirs (world s) \/ d = x \/ d ∈ parents x) as Hnew1.
    { intros d H. destruct Hd1 as [E | E]; rewrite E in H; [by left|].
      apply elem_of_union in H as [H | H]; [|by left].
      apply elem_of_list_to_set, elem_of_cons in H. by right. }
    split_and!.
    + destruct F1 as (H1 & E1), F2 as (H2 & E2). split; [|congruence].
      by apply (heap_frame_trans _ s1).
    + congruence.
    + by etrans.
    + intros d Hd. destruct (Hnew2 d Hd) as [H|(y & Hy & H)].
      * destruct (Hnew1 d H) as [?|?]; [by left|]. right. exists x. split; [by left | done].
      * right. exists y. split; [by right | done].
    + intros d Hd Hnd a Ha.
      destruct (decide (d ∈ dirs (world s1))) as [H1|H1]; [|by apply (Hpar2 d)].
      apply Hd2.
      destruct Hd1 as [E | E]; rewrite E in H1 |- *; [done|].
      apply elem_of_union in H1 as [H1 | H1]; [|done].
      apply elem_of_union. left. apply elem_of_list_to_set. right.
      apply elem_of_list_to_set, elem_of_cons in H1 as [-> | H1]; [done|].
      by apply (parents_chain x d).
    + intros Hnf d [-> | Hin]%elem_of_cons; [|by apply Hex2].
      destruct (Hex1 (Hnf _ _)) as [H|H]; [left; by rewrite Hf2 | right; by apply Hd2].
    + intros Hall. assert (s1 = s) as -> by (apply Hid1, Hall; by left).
      apply Hid2. intros d Hd. apply Hall. by right.
Qed.

End Directories.

(** X12.  [ensureDirectoriesExist] never throws, although creating a
    directory may fail.  It leaves every file and the queues alone, removes
    no directory and adds none but the screenshot, the extra and the
    temporary directory and the parents of these; a directory that it adds
    has all its parents afterwards.  If no creation fails, all three paths
    exist afterwards; if all three exist beforehand, it changes nothing at
    all. *)
Theorem ensureDirectoriesExist_only_adds_its_directories env s :
  let directories := [screenshotDir env; extraScreenshotDir env; tempDir env] in
  exists s',
    ensureDirectoriesExist env s = (Return tt, s') /\
    io_frame s s' /\
    files (world s') = files (world s) /\
    dirs (world s) ⊆ dirs (world s') /\
    (forall d, d ∈ dirs (world s') ->
       d ∈ dirs (world s) \/ exists x, x ∈ directories /\ (d = x \/ d ∈ parents x)) /\
    (forall d, d ∈ dirs (world s') -> d ∉ dirs (world s) ->
       forall a, a ∈ parents d -> a ∈ dirs (world s')) /\
    ((forall n p, fs_fault env n OpMkdir p = None) ->
     forall d, d ∈ directories ->
       is_Some (files (world s') !! d) \/ d ∈ dirs (world s')) /\
    ((forall d, d ∈ directories ->
        is_Some (files (world s) !! d) \/ d ∈ dirs (world s)) -> s' = s).
Proof. intros directories. unfold ensureDirectoriesExist. apply ensure_loop_full. Qed.

(** ** The temporary file of a capture method *)

Section TempFile.

Variable env : Env.

(** The part of a method that follows the capture, for a tool that has left
    [b] in [tempFile]. *)
Lemma method_after_capture tempFile (b : Buffer) (invalid small missing : string) s :
  (forall n, fs_fault env n OpReadFile tempFile = None) ->
  files (world s) !! tempFile = Some b ->
  exists r s',
    (e <- existsSync tempFile ;;
     if e then
       buffer <- readFile env tempFile ;;
       if negb (isValidPng buffer) then throw invalid
       else if length buffer <? 1024 then throw small
       else
         try_catch (unlink env tempFile) (fun _ => ret tt) ;;
         ret buffer
     else throw missing)%js s = (r, s') /\
    (forall p, p <> tempFile -> files (world s') !! p = files (world s) !! p) /\
    if isValidPng b && (1024 <=? length b) then
      r = Return b /\
      ((forall n, fs_fault env n OpUnlink tempFile = None) ->
       files (world s') !! tempFile = None)
    else (exists e, r = Throw e) /\ files (world s') !! tempFile = Some b.
Proof.
  intros Hread Hfile.
  cbv [bind existsSync get_world ret]. cbn [fst snd].
  rewrite Hfile. rewrite bool_decide_eq_true_2 by by eexists. cbn [orb].
  rewrite readFile_run, Hread. cbn [world clock files set_clock]. rewrite Hfile. cbv zeta.
  destruct (isValidPng b) eqn:Hv; cbn [negb andb].
  - destruct (Nat.leb_spec 1024 (length b)) as [Hl|Hl].
    + assert ((length b <? 1024) = false) as -> by (apply Nat.ltb_ge; lia).
      set (s1 := mkSt _ _).
      destruct (unlink_spec env tempFile s1) as (Hframe & Hdirs & Hfiles).
      rewrite unlink_logged_run.
      destruct (unlink env tempFile s1) as [[[]|e] s2] eqn:Hun; cbn [fst snd] in *.
      * eexists _, _. split; [reflexivity|]. split_and!; [|done|].
        -- intros p Hp. rewrite Hfiles. by apply lookup_delete_ne.
        -- intros _. rewrite Hfiles. apply lookup_delete_eq.
      * eexists _, _. split; [reflexivity|]. split_and!; [by rewrite Hfiles | done |].
        intros Hnf. exfalso. revert Hun.
        cbv [unlink fs_call bind tick get_world modify_world throw ret]. cbn [fst snd].
        rewrite Hnf. cbn [world files set_clock]. subst s1. cbn [world files set_clock].
        by rewrite Hfile.
    + assert ((length b <? 1024) = true) as -> by (apply Nat.ltb_lt; lia).
      eexists _, _. split; [reflexivity|]. split_and!; [done | by eexists | done].
  - eexists _, _. split; [reflexivity|]. split_and!; [done | by eexists | done].
Qed.

End TempFile.

(** X28.  When the first capture tool answers in time and has left an image
    in the temporary file, and reading that file does not fail, Method 1
    touches no other file.  It returns the image and deletes the temporary
    file if the image has the PNG signature and at least 1024 bytes; if not,
    it throws and the rejected image stays in the temporary directory. *)
Theorem method1_leaves_a_rejected_image env s (b : Buffer) :
  let tempFile := path_join (tempDir env) ("temp-" +:+ uuid env (clock (world s)) +:+ ".png") in
  let promise := screenshot_file env (S (clock (world s))) in
  (elapsed_ms promise < 5000)%Z ->
  settled promise = Resolved (Some b) ->
  (forall n, fs_fault env n OpReadFile tempFile = None) ->
  exists r s',
    method1 env s = (r, s') /\
    (forall p, p <> tempFile -> files (world s') !! p = files (world s) !! p) /\
    if isValidPng b && (1024 <=? length b) then
      r = Return b /\
      ((forall n, fs_fault env n OpUnlink tempFile = None) ->
       files (world s') !! tempFile = None)
    else (exists e, r = Throw e) /\ files (world s') !! tempFile = Some b.
Proof.
  intros tempFile promise Hfast Hsettled Hread.
  unfold method1. rewrite (bind_Return _ _ _ _ _ (uuidv4_run env s)). cbv zeta.
  fold tempFile.
  set (s1 := mkSt (set_clock (S (clock (world s))) (world s)) (this s)).
  assert (exists s2,
            capture_to_file (screenshot_file env) tempFile 5000
              "screenshot-desktop timed out after 5 seconds" s1 = (Return tt, s2) /\
            files (world s2) = <[tempFile := b]> (files (world s))) as (s2 & Hcap & Hfiles).
  { cbv [capture_to_file bind tick withTimeout]. cbn [fst snd world clock s1 set_clock].
    fold promise. apply Z.ltb_lt in Hfast. rewrite Hfast, Hsettled.
    cbv [ret modify_world]. eexists. split; [reflexivity|]. done. }
  rewrite (bind_Return _ _ _ _ _ Hcap).
  destruct (method_after_capture env tempFile b "Invalid PNG format"
              "Screenshot too small - likely invalid" "Screenshot file not created" s2 Hread)
    as (r & s' & Hrun & Hother & Hcase).
  { rewrite Hfiles. apply lookup_insert_eq. }
  exists r, s'. split_and!.
  - exact Hrun.
  - intros p Hp. rewrite (Hother p Hp), Hfiles. by apply lookup_insert_ne.
  - exact Hcase.
Qed.

(** An instance of X28: the tool leaves 58 bytes. *)
Lemma method1_leaves_a_rejected_image_witness :
  let s := mkSt world_empty (mkHelper 0 0 queue) in
  let b := png 50 in
  let tempFile := path_join (tempDir env_win_blank)
                    ("temp-" +:+ uuid env_win_blank (clock (world s)) +:+ ".png") in
  let promise := screenshot_file env_win_blank (S (clock (world s))) in
  (elapsed_ms promise < 5000)%Z /\
  settled promise = Resolved (Some b) /\
  (forall n, fs_fault env_win_blank n OpReadFile tempFile = None) /\
  exists r s',
    method1 env_win_blank s = (r, s') /\
    (forall p, p <> tempFile -> files (world s') !! p = files (world s) !! p) /\
    if isValidPng b && (1024 <=? length b) then
      r = Return b /\
      ((forall n, fs_fault env_win_blank n OpUnlink tempFile = None) ->
       files (world s') !! tempFile = None)
    else (exists e, r = Throw e) /\ files (world s') !! tempFile = Some b.
Proof.
  intros s b tempFile promise.
  assert (elapsed_ms promise < 5000)%Z as H1 by (by vm_compute).
  assert (settled promise = Resolved (Some b)) as H2 by reflexivity.
  assert (forall n, fs_fault env_win_blank n OpReadFile tempFile = None) as H3 by reflexivity.
  split_and!; [exact H1 | exact H2 | exact H3 |].
  exact (method1_leaves_a_rejected_image env_win_blank s b H1 H2 H3).
Defined.

(** X29.  When PowerShell answers in time and has left an image in the
    temporary file, and reading that file does not fail, Method 2 touches no
    other file.  It returns the image and deletes the temporary file if the
    image has the PNG signature and at least 1024 bytes; if not, it throws
    and the rejected image stays in the temporary directory. *)
Theorem method2_leaves_a_rejected_image env s (b : Buffer) :
  let tempFile := path_join (tempDir env) ("ps-temp-" +:+ uuid env (clock (world s)) +:+ ".png") in
  let promise := powershell env (S (clock (world s))) in
  (elapsed_ms promise < 10000)%Z ->
  settled promise = Resolved (Some b) ->
  (forall n, fs_fault env n OpReadFile tempFile = None) ->
  exists r s',
    method2 env s = (r, s') /\
    (forall p, p <> tempFile -> files (world s') !! p = files (world s) !! p) /\
    if isValidPng b && (1024 <=? length b) then
      r = Return b /\
      ((forall n, fs_fault env n OpUnlink tempFile = None) ->
       files (world s') !! tempFile = None)
    else (exists e, r = Throw e) /\ files (world s') !! tempFile = Some b.
Proof.
  intros tempFile promise Hfast Hsettled Hread.
  unfold method2. rewrite (bind_Return _ _ _ _ _ (uuidv4_run env s)). cbv zeta.
  fold tempFile.
  set (s1 := mkSt (set_clock (S (clock (world s))) (world s)) (this s)).
  assert (exists s2,
            capture_to_file (powershell env) tempFile 10000
              "PowerShell screenshot timed out after 10 seconds" s1 = (Return tt, s2) /\
            files (world s2) = <[tempFile := b]> (files (world s))) as (s2 & Hcap & Hfiles).
  { cbv [capture_to_file bind tick withTimeout]. cbn [fst snd world clock s1 set_clock].
    fold promise. apply Z.ltb_lt in Hfast. rewrite Hfast, Hsettled.
    cbv [ret modify_world]. eexists. split; [reflexivity|]. done. }
  rewrite (bind_Return _ _ _ _ _ Hcap).
  destruct (method_after_capture env tempFile b "Invalid PNG format from PowerShell"
              "PowerShell screenshot too small - likely invalid"
              "PowerShell screenshot file not created" s2 Hread)
    as (r & s' & Hrun & Hother & Hcase).
  { rewrite Hfiles. apply lookup_insert_eq. }
  exists r, s'. split_and!.
  - exact Hrun.
  - intros p Hp. rewrite (Hother p Hp), Hfiles. by apply lookup_insert_ne.
  - exact Hcase.
Qed.

(** An instance of X29: PowerShell leaves a full image. *)
Lemma method2_leaves_a_rejected_image_witness :
  let s := mkSt world_empty (mkHelper 0 0 queue) in
  let b := png 2000 in
  let tempFile := path_join (tempDir env_win_fallback)
                    ("ps-temp-" +:+ uuid env_win_fallback (clock (world s)) +:+ ".png") in
  let promise := powershell env_win_fallback (S (clock (world s))) in
  (elapsed_ms promise < 10000)%Z /\
  settled promise = Resolved (Some b) /\
  (forall n, fs_fault env_win_fallback n OpReadFile tempFile = None) /\
  exists r s',
    method2 env_win_fallback s = (r, s') /\
    (forall p, p <> tempFile -> files (world s') !! p = files (world s) !! p) /\
    if isValidPng b && (1024 <=? length b) then
      r = Return b /\
      ((forall n, fs_fault env_win_fallback n OpUnlink tempFile = None) ->
       files (world s') !! tempFile = None)
    else (exists e, r = Throw e) /\ files (world s') !! tempFile = Some b.
Proof.
  intros s b tempFile promise.
  assert (elapsed_ms promise < 10000)%Z as H1 by (by vm_compute).
  assert (settled promise = Resolved (Some b)) as H2 by reflexivity.
  assert (forall n, fs_fault env_win_fallback n OpReadFile tempFile = None) as H3 by reflexivity.
  split_and!; [exact H1 | exact H2 | exact H3 |].
  exact (method2_leaves_a_rejected_image env_win_fallback s b H1 H2 H3).
Defined.

(** ** Configuration values *)

Lemma strict_eq_JStr (m : string) (v : JsValue) : strict_eq (JStr m) v = true <-> v = JStr m.
Proof.
  destruct v as [| | |[]|s|]; simpl; try (split; [discriminate|discriminate]).
  rewrite String.eqb_eq. split; intros H; [by subst | by injection H].
Qed.

Lemma strict_eq_JStr_r (v : JsValue) (m : string) : strict_eq v (JStr m) = true <-> v = JStr m.
Proof.
  destruct v as [| | |[]|s|]; simpl; try (split; [discriminate|discriminate]).
  rewrite String.eqb_eq. split; intros H; [by subst | by injection H].
Qed.

Lemma includes_spec (l : list string) (v : JsValue) :
  includes l v = true <-> exists m, m ∈ l /\ v = JStr m.
Proof.
  unfold includes. rewrite existsb_exists. split.
  - intros (m & Hin & H). exists m. rewrite list_elem_of_In. split; [done | by apply strict_eq_JStr].
  - intros (m & Hin & H). exists m. rewrite <- list_elem_of_In. split; [done | by apply strict_eq_JStr].
Qed.

Lemma sanitizeModelSelection_gemini model :
  exists m, m ∈ GEMINI_MODELS /\ sanitizeModelSelection model (JStr "gemini") = JStr m.
Proof.
  unfold sanitizeModelSelection.
  destruct (includes GEMINI_MODELS model) eqn:H.
  - apply includes_spec in H as (m & Hin & ->). by exists m.
  - exists "gemini-2.5-flash". split; [|done]. apply list_elem_of_here.
Qed.

Lemma sanitizeModelSelection_other model provider :
  provider <> JStr "gemini" -> sanitizeModelSelection model provider = model.
Proof.
  intros H. unfold sanitizeModelSelection.
  destruct (strict_eq provider (JStr "gemini")) eqn:E.
  - by apply strict_eq_JStr_r in E.
  - by destruct (strict_eq provider (JStr "lmstudio")).
Qed.

Lemma sanitizeModelSelection_listed m provider :
  m ∈ GEMINI_MODELS -> sanitizeModelSelection (JStr m) provider = JStr m.
Proof.
  intros Hin. unfold sanitizeModelSelection.
  assert (includes GEMINI_MODELS (JStr m) = true) as -> by (apply includes_spec; by exists m).
  by destruct (strict_eq provider (JStr "gemini")), (strict_eq provider (JStr "lmstudio")).
Qed.

Lemma sanitizeModelSelection_idemp model provider :
  sanitizeModelSelection (sanitizeModelSelection model provider) provider
  = sanitizeModelSelection model provider.
Proof.
  destruct (strict_eq provider (JStr "gemini")) eqn:E.
  - apply strict_eq_JStr_r in E as ->.
    destruct (sanitizeModelSelection_gemini model) as (m & Hin & ->).
    by apply sanitizeModelSelection_listed.
  - assert (provider <> JStr "gemini") as Hne.
    { intros ->. simpl in E. discriminate. }
    by rewrite !sanitizeModelSelection_other.
Qed.

(** X13.  For the provider ["gemini"], [sanitizeModelSelection] always
    returns one of the six listed model names: a listed name is returned as
    it is, anything else becomes ["gemini-2.5-flash"].  For every other
    provider, also one that is neither ["gemini"] nor ["lmstudio"], the model
    is returned as it is.  Sanitising twice is the same as sanitising once. *)
Theorem sanitizeModelSelection_spec (model provider : JsValue) :
  (provider = JStr "gemini" ->
   (exists m, m ∈ GEMINI_MODELS /\ sanitizeModelSelection model provider = JStr m) /\
   ((exists m, m ∈ GEMINI_MODELS /\ model = JStr m) ->
      sanitizeModelSelection model provider = model) /\
   ((forall m, m ∈ GEMINI_MODELS -> model <> JStr m) ->
      sanitizeModelSelection model provider = JStr "gemini-2.5-flash")) /\
  (provider <> JStr "gemini" -> sanitizeModelSelection model provider = model) /\
  sanitizeModelSelection (sanitizeModelSelection model provider) provider
  = sanitizeModelSelection model provider.
Proof.
  split_and!.
  - intros ->. split_and!.
    + apply sanitizeModelSelection_gemini.
    + intros (m & Hin & ->). by apply sanitizeModelSelection_listed.
    + intros Hnone. unfold sanitizeModelSelection.
      destruct (includes GEMINI_MODELS model) eqn:H; [|done].
      apply includes_spec in H as (m & Hin & ->). by destruct (Hnone m Hin).
  - apply sanitizeModelSelection_other.
  - apply sanitizeModelSelection_idemp.
Qed.

(** ** Loaded configurations *)

Lemma truthy_get_lookup (o : Obj) k : truthy (get o k) = true -> o !! k = Some (get o k).
Proof. unfold get. by destruct (o !! k). Qed.

Lemma get_lookup (o : Obj) k v : o !! k = Some v -> get o k = v.
Proof. unfold get. by intros ->. Qed.

Lemma get_insert (o : Obj) k v : get (<[k := v]> o) k = v.
Proof. unfold get. by rewrite lookup_insert_eq. Qed.

Lemma get_insert_ne (o : Obj) k k' v : k <> k' -> get (<[k := v]> o) k' = get o k'.
Proof. intros H. unfold get. by rewrite lookup_insert_ne. Qed.

Lemma get_spread_l (a b : Obj) k v : b !! k = Some v -> get (spread a b) k = v.
Proof. intros H. unfold get, spread. by rewrite (lookup_union_Some_l _ _ _ _ H). Qed.

Lemma get_spread_r (a b : Obj) k : b !! k = None -> get (spread a b) k = get a k.
Proof. intros H. unfold get, spread. by rewrite lookup_union_r. Qed.

Lemma truthy_js_or a b : truthy b = true -> truthy (js_or a b) = true.
Proof. unfold js_or. by destruct (truthy a) eqn:E. Qed.

Lemma migrateProvider_eq key (o : Obj) :
  migrateProvider key o !! key =
  if truthy (get o key) then o !! key
  else Some (js_or (get o "apiProvider") (JStr "gemini")).
Proof.
  unfold migrateProvider. destruct (truthy (get o key)); [done | apply lookup_insert_eq].
Qed.

Lemma migrateProvider_ne key (o : Obj) k : k <> key -> migrateProvider key o !! k = o !! k.
Proof.
  intros H. unfold migrateProvider.
  destruct (truthy (get o key)); [done | by apply lookup_insert_ne].
Qed.

Lemma get_migrateProvider_ne key (o : Obj) k :
  k <> key -> get (migrateProvider key o) k = get o k.
Proof. intros H. unfold get. by rewrite migrateProvider_ne. Qed.

Lemma sanitizeLoaded_eq modelKey providerKey (o : Obj) :
  sanitizeLoaded modelKey providerKey o !! modelKey =
  if truthy (get o modelKey)
  then Some (sanitizeModelSelection (get o modelKey) (get o providerKey))
  else o !! modelKey.
Proof.
  unfold sanitizeLoaded. destruct (truthy (get o modelKey)); [apply lookup_insert_eq | done].
Qed.

Lemma sanitizeLoaded_ne modelKey providerKey (o : Obj) k :
  k <> modelKey -> sanitizeLoaded modelKey providerKey o !! k = o !! k.
Proof.
  intros H. unfold sanitizeLoaded.
  destruct (truthy (get o modelKey)); [by apply lookup_insert_ne | done].
Qed.

Lemma get_sanitizeLoaded_ne modelKey providerKey (o : Obj) k :
  k <> modelKey -> get (sanitizeLoaded modelKey providerKey o) k = get o k.
Proof. intros H. unfold get. by rewrite sanitizeLoaded_ne. Qed.

Lemma migrateProvider_id key (o : Obj) : truthy (get o key) = true -> migrateProvider key o = o.
Proof. unfold migrateProvider. by intros ->. Qed.

Lemma sanitizeLoaded_id modelKey providerKey (o : Obj) :
  (truthy (get o modelKey) = true ->
   sanitizeModelSelection (get o modelKey) (get o providerKey) = get o modelKey) ->
  sanitizeLoaded modelKey providerKey o = o.
Proof.
  unfold sanitizeLoaded. destruct (truthy (get o modelKey)) eqn:E; [|done].
  intros ->; [|done]. by apply insert_id, truthy_get_lookup.
Qed.

(** Lookups below the assignments to other properties. *)
Ltac peel :=
  rewrite ?sanitizeLoaded_ne, ?migrateProvider_ne,
          ?get_sanitizeLoaded_ne, ?get_migrateProvider_ne by discriminate.

Lemma migrated_lookup (l : Obj) :
  Forall (fun '(modelKey, providerKey) =>
    migrated l !! providerKey =
      (if truthy (get l providerKey) then l !! providerKey
       else Some (js_or (get l "apiProvider") (JStr "gemini"))) /\
    migrated l !! modelKey =
      (if truthy (get l modelKey)
       then Some (sanitizeModelSelection (get l modelKey) (get (migrated l) providerKey))
       else l !! modelKey)) steps.
Proof.
  unfold steps, migrated. repeat constructor; peel;
    rewrite ?sanitizeLoaded_eq, ?migrateProvider_eq; peel; done.
Qed.

Lemma migrated_other (l : Obj) k :
  k ∉ steps.*1 -> k ∉ steps.*2 -> migrated l !! k = l !! k.
Proof.
  unfold steps. simpl. intros H1 H2. unfold migrated.
  rewrite !sanitizeLoaded_ne, !migrateProvider_ne; [done|..];
    intros ->;
    first [ apply H1; apply (bool_decide_unpack _); by vm_compute
          | apply H2; apply (bool_decide_unpack _); by vm_compute ].
Qed.

Lemma spread_defaultConfig_idemp (o : Obj) :
  spread defaultConfig (spread defaultConfig o) = spread defaultConfig o.
Proof. unfold spread. by rewrite <- (assoc_L (∪)), (idemp_L (∪)). Qed.

Lemma steps_cases modelKey providerKey :
  (modelKey, providerKey) ∈ steps ->
  (modelKey = "extractionModel" /\ providerKey = "extractionProvider") \/
  (modelKey = "solutionModel" /\ providerKey = "solutionProvider") \/
  (modelKey = "debuggingModel" /\ providerKey = "debuggingProvider").
Proof.
  unfold steps. rewrite !elem_of_cons, elem_of_nil.
  intros [[= -> ->]|[[= -> ->]|[[= -> ->]|[]]]]; auto.
Qed.

Lemma default_model_listed modelKey providerKey :
  (modelKey, providerKey) ∈ steps ->
  get defaultConfig modelKey = JStr "gemini-2.0-flash" /\ "gemini-2.0-flash" ∈ GEMINI_MODELS.
Proof.
  intros H. split; [|apply (bool_decide_unpack _); by vm_compute].
  by destruct (steps_cases _ _ H) as [(-> & _)|[(-> & _)|(-> & _)]]; vm_compute.
Qed.

(** One step of a loaded configuration. *)
Lemma loaded_step (l : Obj) modelKey providerKey :
  (modelKey, providerKey) ∈ steps ->
  let c := spread defaultConfig (migrated l) in
  truthy (get c providerKey) = true /\
  (get c providerKey = JStr "gemini" -> truthy (get c modelKey) = true ->
   exists m, m ∈ GEMINI_MODELS /\ get c modelKey = JStr m) /\
  (truthy (get c modelKey) = true ->
   sanitizeModelSelection (get c modelKey) (get c providerKey) = get c modelKey).
Proof.
  intros Hstep c.
  pose proof (migrated_lookup l) as Hall. rewrite list.Forall_forall in Hall.
  destruct (Hall _ Hstep) as (Hp & Hm).
  assert (exists v, migrated l !! providerKey = Some v /\ truthy v = true) as (p & Hpk & Hpt).
  { destruct (truthy (get l providerKey)) eqn:E.
    - exists (get l providerKey). split; [|done]. rewrite Hp. by apply truthy_get_lookup.
    - eexists. split; [exact Hp|]. by apply truthy_js_or. }
  assert (get c providerKey = p) as Hcp by (by apply get_spread_l).
  rewrite (get_lookup _ _ _ Hpk) in Hm. rewrite Hcp.
  destruct (default_model_listed _ _ Hstep) as (Hdef & Hlisted).
  assert (truthy (get c modelKey) = true ->
          (p = JStr "gemini" -> exists m, m ∈ GEMINI_MODELS /\ get c modelKey = JStr m) /\
          sanitizeModelSelection (get c modelKey) p = get c modelKey) as Hmodel.
  { unfold c. destruct (truthy (get l modelKey)) eqn:E.
    - intros _. rewrite (get_spread_l _ _ _ _ Hm). split.
      + intros ->. apply sanitizeModelSelection_gemini.
      + apply sanitizeModelSelection_idemp.
    - destruct (l !! modelKey) as [v|] eqn:El.
      + rewrite (get_spread_l _ _ _ _ Hm). rewrite (get_lookup _ _ _ El) in E. congruence.
      + rewrite (get_spread_r _ _ _ Hm), Hdef. intros _. split.
        * intros _. by exists "gemini-2.0-flash".
        * by apply sanitizeModelSelection_listed. }
  split_and!; [done | intros; by apply Hmodel | intros; by apply Hmodel].
Qed.

Lemma loaded_config_fixed (l : Obj) :
  let c := spread defaultConfig (migrated l) in
  spread defaultConfig (migrated c) = c.
Proof.
  intros c.
  assert (migrated c = c) as ->; [|apply spread_defaultConfig_idemp].
  assert (forall modelKey providerKey, (modelKey, providerKey) ∈ steps ->
            truthy (get c providerKey) = true /\
            (truthy (get c modelKey) = true ->
             sanitizeModelSelection (get c modelKey) (get c providerKey) = get c modelKey))
    as Hstep.
  { intros modelKey providerKey H. destruct (loaded_step l _ _ H) as (H1 & _ & H3). by split. }
  destruct (Hstep "extractionModel" "extractionProvider") as (P1 & M1);
    [apply (bool_decide_unpack _); by vm_compute|].
  destruct (Hstep "solutionModel" "solutionProvider") as (P2 & M2);
    [apply (bool_decide_unpack _); by vm_compute|].
  destruct (Hstep "debuggingModel" "debuggingProvider") as (P3 & M3);
    [apply (bool_decide_unpack _); by vm_compute|].
  clearbody c. unfold migrated.
  rewrite (migrateProvider_id _ _ P1), (migrateProvider_id _ _ P2),
    (migrateProvider_id _ _ P3), (sanitizeLoaded_id _ _ _ M1),
    (sanitizeLoaded_id _ _ _ M2).
  exact (sanitizeLoaded_id _ _ _ M3).
Qed.

(** X14.  The configuration that [loadConfig] builds from a parsed file has
    every property of the default configuration; each of its three providers
    is truthy; the model of a step whose provider is ["gemini"] is one of the
    listed Gemini models unless it is falsy; and building a configuration
    from it again gives it back unchanged. *)
Theorem loaded_config_is_normal (l : Obj) :
  let c := spread defaultConfig (migrated l) in
  (forall k, is_Some (defaultConfig !! k) -> is_Some (c !! k)) /\
  Forall (fun '(modelKey, providerKey) =>
    truthy (get c providerKey) = true /\
    (get c providerKey = JStr "gemini" -> truthy (get c modelKey) = true ->
     exists m, m ∈ GEMINI_MODELS /\ get c modelKey = JStr m)) steps /\
  spread defaultConfig (migrated c) = c.
Proof.
  intros c. split_and!.
  - intros k [v Hk]. unfold c, spread. apply lookup_union_is_Some. right. by exists v.
  - rewrite list.Forall_forall. intros [modelKey providerKey] Hstep.
    destruct (loaded_step l _ _ Hstep) as (H1 & H2 & _). by split.
  - apply loaded_config_fixed.
Qed.

(** ** The configuration file *)

Section ConfigFile.

Variable env : Env.
Variable configPath : string.
Variable JSON_parse : string -> option Obj.
Variable JSON_stringify : Obj -> string.

Lemma io_frame_refl s : io_frame s s.
Proof. split; [apply heap_frame_refl | done]. Qed.

Lemma io_frame_trans s1 s2 s3 : io_frame s1 s2 -> io_frame s2 s3 -> io_frame s1 s3.
Proof.
  intros (H1 & E1) (H2 & E2). split; [by apply (heap_frame_trans _ s2) | congruence].
Qed.

Lemma saveConfig_spec config s :
  exists s',
    saveConfig env configPath JSON_stringify config s = (Return tt, s') /\
    io_frame s s' /\
    dirs (world s) ⊆ dirs (world s') /\
    (files (world s') = files (world s) \/
     files (world s') = <[configPath := String.list_byte_of_string (JSON_stringify config)]> (files (world s))) /\
    ((forall n p, fs_fault env n OpMkdir p = None) ->
     (forall n p, fs_fault env n OpWriteFile p = None) ->
     files (world s') = <[configPath := String.list_byte_of_string (JSON_stringify config)]> (files (world s))).
Proof.
  unfold saveConfig, writeFileSync, try_catch. cbv zeta.
  cbv [bind existsSync get_world ret]. simpl.
  destruct (negb _); cbv [when].
  - cbv [mkdirSync fs_call bind tick modify_world throw ret]. simpl.
    destruct (fs_fault env (clock (world s)) OpMkdir (dirname configPath)) eqn:Hm; simpl.
    { eexists. split; [reflexivity|]. unfold io_frame, heap_frame. simpl.
      split_and!; try done; try lia; [by left|]. intros H. by rewrite H in Hm. }
    cbv [writeFile fs_call bind tick modify_world throw ret]. simpl.
    destruct (fs_fault env (S (clock (world s))) OpWriteFile configPath) eqn:Hw; simpl;
      (eexists; split; [reflexivity|]); unfold io_frame, heap_frame; simpl;
      (split_and!; try done; try lia; try apply union_subseteq_r).
    + by left.
    + intros _ H. by rewrite H in Hw.
    + by right.
  - cbv [writeFile fs_call bind tick modify_world throw ret]. simpl.
    destruct (fs_fault env (clock (world s)) OpWriteFile configPath) eqn:Hw; simpl;
      (eexists; split; [reflexivity|]); unfold io_frame, heap_frame; simpl;
      (split_and!; try done; try lia).
    + by left.
    + intros _ H. by rewrite H in Hw.
    + by right.
Qed.

Lemma loadConfig_spec s :
  exists c s',
    loadConfig env configPath JSON_parse JSON_stringify s = (Return c, s') /\
    io_frame s s' /\
    dirs (world s) ⊆ dirs (world s') /\
    match files (world s) !! configPath with
    | Some data =>
        files (world s') = files (world s) /\
        c = match fs_fault env (clock (world s)) OpReadFile configPath,
                  JSON_parse (String.string_of_list_byte data) with
            | None, Some loadedConfig => spread defaultConfig (migrated loadedConfig)
            | _, _ => defaultConfig
            end
    | None =>
        c = defaultConfig /\
        (files (world s') = files (world s) \/
         files (world s') = <[configPath := String.list_byte_of_string (JSON_stringify defaultConfig)]> (files (world s))) /\
        (configPath ∉ dirs (world s) ->
         (forall n p, fs_fault env n OpMkdir p = None) ->
         (forall n p, fs_fault env n OpWriteFile p = None) ->
         files (world s') = <[configPath := String.list_byte_of_string (JSON_stringify defaultConfig)]> (files (world s)))
    end.
Proof.
  unfold loadConfig, try_catch. generalize defaultConfig, migrated. intros d mig.
  assert (forall s0, existsSync configPath s0 =
            (Return (bool_decide (is_Some (files (world s0) !! configPath))
                     || bool_decide (configPath ∈ dirs (world s0))), s0)) as Hex by done.
  rewrite (bind_Return _ _ _ _ _ (Hex s)).
  assert (readFileSync_utf8 env configPath s =
            let s1 := mkSt (set_clock (S (clock (world s))) (world s)) (this s) in
            match fs_fault env (clock (world s)) OpReadFile configPath with
            | Some e => (Throw e, s1)
            | None =>
                match files (world s) !! configPath with
                | Some b => (Return (String.string_of_list_byte b), s1)
                | None => (Throw ("ENOENT: no such file or directory, open '"
                                  +:+ configPath +:+ "'"), s1)
                end
            end) as Hread.
  { cbv [readFileSync_utf8 readFile fs_call bind tick get_world throw ret]. simpl.
    destruct (fs_fault env (clock (world s)) OpReadFile configPath); [done|]. simpl.
    by destruct (files (world s) !! configPath). }
  assert (io_frame s (mkSt (set_clock (S (clock (world s))) (world s)) (this s))) as Htick.
  { unfold io_frame, heap_frame. simpl. split_and!; try done. lia. }
  destruct (files (world s) !! configPath) as [data|] eqn:Hfile; simpl.
  - unfold bind at 1. rewrite Hread. cbv zeta.
    destruct (fs_fault env (clock (world s)) OpReadFile configPath); simpl.
    { eexists _, _. split; [reflexivity|]. by split_and!. }
    destruct (JSON_parse (String.string_of_list_byte data)); simpl;
      (eexists _, _; split; [reflexivity|]; by split_and!).
  - destruct (bool_decide (configPath ∈ dirs (world s))) eqn:Hdir; simpl.
    + unfold bind at 1. rewrite Hread. cbv zeta.
      apply bool_decide_eq_true in Hdir.
      destruct (fs_fault env (clock (world s)) OpReadFile configPath); simpl;
        (eexists _, _; split; [reflexivity|]; split_and!; try done; by left).
    + apply bool_decide_eq_false in Hdir.
      destruct (saveConfig_spec d s) as (s' & Hsave & Hio & Hd & Hf & Hok).
      rewrite (bind_Return _ _ _ _ _ Hsave). unfold ret.
      exists d, s'. split_and!; try done.
Qed.

Lemma loadConfig_fresh s :
  files (world s) !! configPath = None ->
  loadConfig env configPath JSON_parse JSON_stringify s
  = (Return defaultConfig, snd (loadConfig env configPath JSON_parse JSON_stringify s)).
Proof.
  intros Hfile. destruct (loadConfig_spec s) as (c & s' & Hrun & _ & _ & Hcase).
  rewrite Hfile in Hcase. destruct Hcase as (-> & _). by rewrite Hrun.
Qed.

End ConfigFile.


(** The table codec reads back what it wrote, for a configuration of the
    table. *)
Lemma stringify_from_position n table o :
  o ∈ table -> exists m, n <= m /\ stringify_from n table o = pretty m.
Proof.
  revert n. induction table as [|c rest IH]; intros n Hin.
  - by apply elem_of_nil in Hin.
  - cbn [stringify_from]. destruct (decide (c = o)) as [->|Hne].
    + exists n. split; [lia | done].
    + apply elem_of_cons in Hin as [-> | Hin]; [done|].
      destruct (IH (S n) Hin) as (m & Hm & ->). exists m. split; [lia | done].
Qed.

Lemma parse_from_stringify_from n table o :
  o ∈ table -> parse_from n table (stringify_from n table o) = Some o.
Proof.
  revert n. induction table as [|c rest IH]; intros n Hin.
  - by apply elem_of_nil in Hin.
  - cbn [stringify_from parse_from]. destruct (decide (c = o)) as [->|Hne].
    + by rewrite String.eqb_refl.
    + apply elem_of_cons in Hin as [-> | Hin]; [done|].
      destruct (stringify_from_position (S n) rest o Hin) as (m & Hm & Hs).
      assert (String.eqb (stringify_from (S n) rest o) (pretty n) = false) as ->.
      { apply String.eqb_neq. rewrite Hs. intros Heq%(inj pretty). lia. }
      by apply IH.
Qed.

Lemma parse_table_stringify_table table o :
  o ∈ table -> parse_table table (stringify_table table o) = Some o.
Proof. apply parse_from_stringify_from. Qed.

(** X16.  As long as no file-system call fails and [JSON.parse] gives back
    what [JSON.stringify] wrote, a configuration that is saved and loaded
    again comes back migrated, sanitised and merged over the defaults; a
    configuration that [loadConfig] itself built comes back unchanged. *)
Theorem saveConfig_then_loadConfig env configPath JSON_parse JSON_stringify config s :
  no_fault env ->
  JSON_parse (JSON_stringify config) = Some config ->
  exists s1 s2,
    saveConfig env configPath JSON_stringify config s = (Return tt, s1) /\
    loadConfig env configPath JSON_parse JSON_stringify s1
      = (Return (spread defaultConfig (migrated config)), s2) /\
    ((exists loadedConfig, config = spread defaultConfig (migrated loadedConfig)) ->
     loadConfig env configPath JSON_parse JSON_stringify s1 = (Return config, s2)).
Proof.
  intros Hnf Hround.
  destruct (saveConfig_spec env configPath JSON_stringify config s)
    as (s1 & Hsave & _ & _ & _ & Hfiles).
  specialize (Hfiles (fun n p => Hnf n OpMkdir p) (fun n p => Hnf n OpWriteFile p)).
  destruct (loadConfig_spec env configPath JSON_parse JSON_stringify s1)
    as (c & s2 & Hload & _ & _ & Hcase).
  rewrite Hfiles, lookup_insert_eq, Hnf, String.string_of_list_byte_of_string, Hround in Hcase.
  destruct Hcase as (_ & ->).
  exists s1, s2. split_and!; [done | done |].
  intros (l & ->). by rewrite loaded_config_fixed in Hload.
Qed.

(** An instance of X16: a machine without I/O errors, and the configuration
    that [loadConfig] builds from a file that names only the language. *)
Lemma saveConfig_then_loadConfig_witness :
  let config := spread defaultConfig (migrated {[ "language" := JStr "go" ]}) in
  let table := [defaultConfig; config] in
  let s := mkSt world_empty (mkHelper 0 0 queue) in
  no_fault env_posix /\
  parse_table table (stringify_table table config) = Some config /\
  exists s1 s2,
    saveConfig env_posix "/data/config.json" (stringify_table table) config s
      = (Return tt, s1) /\
    loadConfig env_posix "/data/config.json" (parse_table table) (stringify_table table) s1
      = (Return config, s2).
Proof.
  intros config table s.
  assert (no_fault env_posix) as H1 by (intros n op p; reflexivity).
  assert (parse_table table (stringify_table table config) = Some config) as H2.
  { apply parse_table_stringify_table, list_elem_of_further, list_elem_of_here. }
  split_and!; [exact H1 | exact H2 |].
  destruct (saveConfig_then_loadConfig env_posix "/data/config.json" (parse_table table)
              (stringify_table table) config s H1 H2) as (s1 & s2 & Hsave & _ & Hfixed).
  exists s1, s2. split; [exact Hsave|].
  apply Hfixed. exists {[ "language" := JStr "go" ]}. exact eq_refl.
Defined.

(** The configuration of that instance is not the default one, and on the
    same machine [loadConfig] alone returns the default one. *)
Example saveConfig_then_loadConfig_sample :
  let config := spread defaultConfig (migrated {[ "language" := JStr "go" ]}) in
  let table := [defaultConfig; config] in
  let s := mkSt world_empty (mkHelper 0 0 queue) in
  get config "language" = JStr "go" /\
  get defaultConfig "language" = JStr "python" /\
  fst (loadConfig env_posix "/data/config.json" (parse_table table) (stringify_table table) s)
    = Return defaultConfig.
Proof.
  intros config table s. split_and!.
  - vm_compute. reflexivity.
  - vm_compute. reflexivity.
  - by rewrite loadConfig_fresh.
Qed.

(** X17.  [updateConfig] never throws.  It loads the current configuration,
    saves the new one and only then tells the listeners; when a listener
    throws, the caller gets the default configuration back although the new
    one has been saved, and otherwise the new configuration. *)
Theorem updateConfig_never_throws env configPath JSON_parse JSON_stringify listeners
    updates s :
  exists currentConfig s1 s2,
    loadConfig env configPath JSON_parse JSON_stringify s = (Return currentConfig, s1) /\
    let newConfig := spread currentConfig (preparedUpdates currentConfig updates) in
    saveConfig env configPath JSON_stringify newConfig s1 = (Return tt, s2) /\
    ((forall n p, fs_fault env n OpMkdir p = None) ->
     (forall n p, fs_fault env n OpWriteFile p = None) ->
     files (world s2) !! configPath
       = Some (String.list_byte_of_string (JSON_stringify newConfig))) /\
    updateConfig env configPath JSON_parse JSON_stringify listeners updates s =
      match listeners newConfig s2 with
      | (Return _, s3) => (Return newConfig, s3)
      | (Throw _, s3) => (Return defaultConfig, s3)
      end.
Proof.
  destruct (loadConfig_spec env configPath JSON_parse JSON_stringify s)
    as (currentConfig & s1 & Hload & _).
  destruct (saveConfig_spec env configPath JSON_stringify
              (spread currentConfig (preparedUpdates currentConfig updates)) s1)
    as (s2 & Hsave & _ & _ & _ & Hfiles).
  exists currentConfig, s1, s2. split; [exact Hload|]. cbv zeta.
  split; [exact Hsave|]. split.
  - intros Hm Hw. rewrite (Hfiles Hm Hw). apply lookup_insert_eq.
  - unfold updateConfig, try_catch.
    rewrite (bind_Return _ _ _ _ _ Hload). cbv zeta.
    rewrite (bind_Return _ _ _ _ _ Hsave).
    unfold bind, ret.
    by destruct (listeners _ s2) as [[[]|e] s3].
Qed.

(** ** Updates *)

Lemma preparedUpdates_stages currentConfig updates :
  preparedUpdates currentConfig updates =
  let updates :=
    handled currentConfig "debugging"
      (handled currentConfig "solution"
         (handled currentConfig "extraction" (synced currentConfig updates))) in
  let mergedConfig := spread currentConfig updates in
  sanitizeUpdate mergedConfig "debuggingModel" "debuggingProvider"
    (sanitizeUpdate mergedConfig "solutionModel" "solutionProvider"
       (sanitizeUpdate mergedConfig "extractionModel" "extractionProvider" updates)).
Proof. reflexivity. Qed.

Lemma syncProvider_ne key (u : Obj) k : k <> key -> syncProvider key u !! k = u !! k.
Proof.
  intros H. unfold syncProvider. destruct (truthy (get u key)); [done | by apply lookup_insert_ne].
Qed.

Lemma syncProvider_eq key (u : Obj) :
  get (syncProvider key u) key = if truthy (get u key) then get u key else get u "apiProvider".
Proof.
  unfold syncProvider. destruct (truthy (get u key)) eqn:E; simpl; [done | apply get_insert].
Qed.

Lemma get_syncProvider_ne key (u : Obj) k : k <> key -> get (syncProvider key u) k = get u k.
Proof. intros H. unfold get. by rewrite syncProvider_ne. Qed.

Lemma synced_other currentConfig (u : Obj) k :
  k ∉ steps.*2 -> synced currentConfig u !! k = u !! k.
Proof.
  unfold steps. simpl. intros H. unfold synced.
  destruct (_ && _); [|done].
  rewrite !syncProvider_ne; [done|..];
    intros ->; apply H; apply (bool_decide_unpack _); by vm_compute.
Qed.

Lemma synced_provider currentConfig (u : Obj) providerKey :
  providerKey ∈ steps.*2 ->
  get (synced currentConfig u) providerKey =
  if truthy (get u "apiProvider")
     && negb (strict_eq (get u "apiProvider") (get currentConfig "apiProvider"))
     && negb (truthy (get u providerKey))
  then get u "apiProvider" else get u providerKey.
Proof.
  unfold steps. simpl. rewrite !elem_of_cons, elem_of_nil. unfold synced.
  destruct (_ && negb (strict_eq _ _)); simpl; [|done].
  intros [->|[->|[->|[]]]];
    rewrite ?get_syncProvider_ne by discriminate; rewrite syncProvider_eq;
    rewrite ?get_syncProvider_ne by discriminate;
    by destruct (truthy _).
Qed.

Lemma handled_ne currentConfig step (u : Obj) k :
  k <> step +:+ "Model" -> handled currentConfig step u !! k = u !! k.
Proof.
  intros H. unfold handled, handleProviderChange. cbv zeta.
  destruct (truthy _); [|done].
  destruct (strict_eq _ (get currentConfig _)); simpl; [done|].
  destruct (strict_eq _ (JStr "lmstudio")); by apply lookup_insert_ne.
Qed.

Lemma get_handled_ne currentConfig step (u : Obj) k :
  k <> step +:+ "Model" -> get (handled currentConfig step u) k = get u k.
Proof. intros H. unfold get. by rewrite handled_ne. Qed.

Lemma handled_eq currentConfig step (u : Obj) :
  handled currentConfig step u !! (step +:+ "Model") =
  let newProvider := get u (step +:+ "Provider") in
  if truthy newProvider
     && negb (strict_eq newProvider (get currentConfig (step +:+ "Provider")))
  then Some (resetModel currentConfig newProvider)
  else u !! (step +:+ "Model").
Proof.
  unfold handled, handleProviderChange, resetModel. cbv zeta.
  destruct (truthy _); simpl; [|done].
  destruct (strict_eq _ (get currentConfig _)); simpl; [done|].
  destruct (strict_eq _ (JStr "lmstudio")); apply lookup_insert_eq.
Qed.

Lemma sanitizeUpdate_ne mergedConfig modelKey providerKey (u : Obj) k :
  k <> modelKey -> sanitizeUpdate mergedConfig modelKey providerKey u !! k = u !! k.
Proof.
  intros H. unfold sanitizeUpdate.
  destruct (truthy (get u modelKey)); [by apply lookup_insert_ne | done].
Qed.

Lemma get_sanitizeUpdate_ne mergedConfig modelKey providerKey (u : Obj) k :
  k <> modelKey -> get (sanitizeUpdate mergedConfig modelKey providerKey u) k = get u k.
Proof. intros H. unfold get. by rewrite sanitizeUpdate_ne. Qed.

Lemma sanitizeUpdate_eq mergedConfig modelKey providerKey (u : Obj) :
  sanitizeUpdate mergedConfig modelKey providerKey u !! modelKey =
  if truthy (get u modelKey)
  then Some (sanitizeModelSelection (get u modelKey) (get mergedConfig providerKey))
  else u !! modelKey.
Proof.
  unfold sanitizeUpdate. destruct (truthy (get u modelKey)); [apply lookup_insert_eq | done].
Qed.

(** The lookups in the result of [preparedUpdates], property by property. *)
Ltac peel_update :=
  rewrite ?sanitizeUpdate_ne, ?handled_ne, ?get_sanitizeUpdate_ne, ?get_handled_ne
    by discriminate.

Lemma preparedUpdates_other currentConfig (u : Obj) k :
  k ∉ steps.*1 -> k ∉ steps.*2 -> preparedUpdates currentConfig u !! k = u !! k.
Proof.
  intros H1 H2. rewrite preparedUpdates_stages. cbv zeta.
  rewrite !sanitizeUpdate_ne, !handled_ne; [by apply synced_other|..];
    intros ->; apply H1; apply (bool_decide_unpack _); by vm_compute.
Qed.

Lemma preparedUpdates_provider currentConfig (u : Obj) providerKey :
  providerKey ∈ steps.*2 ->
  preparedUpdates currentConfig u !! providerKey = synced currentConfig u !! providerKey.
Proof.
  unfold steps. simpl. rewrite !elem_of_cons, elem_of_nil.
  rewrite preparedUpdates_stages. cbv zeta.
  by intros [->|[->|[->|[]]]]; peel_update.
Qed.

Lemma preparedUpdates_model currentConfig (u : Obj) modelKey providerKey :
  (modelKey, providerKey) ∈ steps ->
  let u' := preparedUpdates currentConfig u in
  let newProvider := get u' providerKey in
  let assigned :=
    if truthy newProvider && negb (strict_eq newProvider (get currentConfig providerKey))
    then Some (resetModel currentConfig newProvider)
    else u !! modelKey in
  u' !! modelKey =
  if truthy (default JUndefined assigned)
  then Some (sanitizeModelSelection (default JUndefined assigned)
               (get (spread currentConfig u') providerKey))
  else assigned.
Proof.
  intros Hstep. cbv zeta.
  assert (forall k, k ∈ steps.*2 ->
            get (preparedUpdates currentConfig u) k = get (synced currentConfig u) k) as Hp.
  { intros k Hk. unfold get. by rewrite preparedUpdates_provider. }
  assert (forall k, k ∈ steps.*2 ->
            get (spread currentConfig (preparedUpdates currentConfig u)) k
            = get (spread currentConfig
                     (handled currentConfig "debugging"
                        (handled currentConfig "solution"
                           (handled currentConfig "extraction" (synced currentConfig u))))) k)
    as Hmerged.
  { intros k Hk. unfold get, spread. rewrite !lookup_union, preparedUpdates_provider by done.
    revert Hk. unfold steps. simpl. rewrite !elem_of_cons, elem_of_nil.
    by intros [->|[->|[->|[]]]]; peel_update. }
  assert (forall k, k ∉ steps.*1 -> synced currentConfig u !! k = u !! k -> True) as _ by done.
  destruct (steps_cases _ _ Hstep) as [(-> & ->)|[(-> & ->)|(-> & ->)]];
    (rewrite Hp, Hmerged by (apply (bool_decide_unpack _); by vm_compute));
    rewrite preparedUpdates_stages; cbv zeta; peel_update;
    rewrite sanitizeUpdate_eq; unfold get at 1 2; peel_update;
    (rewrite (handled_eq currentConfig "extraction")
     || rewrite (handled_eq currentConfig "solution")
     || rewrite (handled_eq currentConfig "debugging"));
    cbv zeta; simpl String.append; peel_update;
    rewrite ?(synced_other _ _ "extractionModel"), ?(synced_other _ _ "solutionModel"),
      ?(synced_other _ _ "debuggingModel")
      by (intros ?%(bool_decide_pack _); by vm_compute);
    reflexivity.
Qed.

Lemma truthy_resetModel currentConfig newProvider :
  truthy (resetModel currentConfig newProvider) = true.
Proof.
  unfold resetModel. destruct (strict_eq newProvider (JStr "lmstudio")); [|done].
  by apply truthy_js_or.
Qed.

Lemma sanitizeModelSelection_resetModel currentConfig newProvider :
  sanitizeModelSelection (resetModel currentConfig newProvider) newProvider
  = resetModel currentConfig newProvider.
Proof.
  unfold resetModel. destruct (strict_eq newProvider (JStr "lmstudio")) eqn:E.
  - apply strict_eq_JStr_r in E as ->. by apply sanitizeModelSelection_other.
  - apply sanitizeModelSelection_listed. apply (bool_decide_unpack _). by vm_compute.
Qed.

Lemma steps_provider modelKey providerKey : (modelKey, providerKey) ∈ steps -> providerKey ∈ steps.*2.
Proof. intros H. apply list_elem_of_fmap. by exists (modelKey, providerKey). Qed.

(** The model of a step whose provider an update changes. *)
Lemma preparedUpdates_changed currentConfig (u : Obj) modelKey providerKey :
  (modelKey, providerKey) ∈ steps ->
  let u' := preparedUpdates currentConfig u in
  truthy (get u' providerKey) = true ->
  strict_eq (get u' providerKey) (get currentConfig providerKey) = false ->
  get (spread currentConfig u') providerKey = get u' providerKey /\
  get (spread currentConfig u') modelKey = resetModel currentConfig (get u' providerKey).
Proof.
  intros Hstep u' Htruthy Hchanged.
  assert (get (spread currentConfig u') providerKey = get u' providerKey) as Hp.
  { apply get_spread_l. by apply truthy_get_lookup. }
  split; [exact Hp|].
  pose proof (preparedUpdates_model currentConfig u _ _ Hstep) as Hm. cbv zeta in Hm.
  fold u' in Hm. rewrite Htruthy, Hchanged in Hm.
  cbv beta iota delta [andb negb from_option id] in Hm.
  rewrite truthy_resetModel, Hp, sanitizeModelSelection_resetModel in Hm.
  by apply get_spread_l.
Qed.

(** X18.  When an update names a provider for a step that differs from the
    step's current provider, the new configuration gets that provider and a
    reset model for the step: the current [lmstudioModel] (or
    ["qwen3-vl-8b"]) for ["lmstudio"], and ["gemini-2.0-flash"] for anything
    else.  A model for that step in the same update is discarded. *)
Theorem updateConfig_resets_the_model_on_a_provider_change currentConfig (updates : Obj)
    modelKey providerKey :
  (modelKey, providerKey) ∈ steps ->
  truthy (get updates providerKey) = true ->
  strict_eq (get updates providerKey) (get currentConfig providerKey) = false ->
  let newConfig := spread currentConfig (preparedUpdates currentConfig updates) in
  get newConfig providerKey = get updates providerKey /\
  get newConfig modelKey =
    if strict_eq (get updates providerKey) (JStr "lmstudio")
    then js_or (get currentConfig "lmstudioModel") (JStr "qwen3-vl-8b")
    else JStr "gemini-2.0-flash".
Proof.
  intros Hstep Htruthy Hchanged newConfig.
  assert (get (preparedUpdates currentConfig updates) providerKey = get updates providerKey)
    as Hp.
  { unfold get at 1. rewrite preparedUpdates_provider by by eapply steps_provider.
    fold (get (synced currentConfig updates) providerKey).
    rewrite synced_provider by by eapply steps_provider.
    by rewrite Htruthy, andb_false_r. }
  destruct (preparedUpdates_changed currentConfig updates _ _ Hstep) as (H1 & H2);
    rewrite ?Hp; try done.
  unfold newConfig. by rewrite H1, H2, Hp.
Qed.

(** An instance of X18: Gemini is replaced by LM Studio for the extraction
    step, and the update asks for a Gemini model at the same time. *)
Lemma updateConfig_resets_the_model_witness :
  let updates : Obj :=
    {[ "extractionProvider" := JStr "lmstudio"; "extractionModel" := JStr "gemini-2.5-pro" ]} in
  (("extractionModel", "extractionProvider") ∈ steps) /\
  truthy (get updates "extractionProvider") = true /\
  strict_eq (get updates "extractionProvider") (get defaultConfig "extractionProvider") = false /\
  let newConfig := spread defaultConfig (preparedUpdates defaultConfig updates) in
  get newConfig "extractionProvider" = get updates "extractionProvider" /\
  get newConfig "extractionModel" =
    if strict_eq (get updates "extractionProvider") (JStr "lmstudio")
    then js_or (get defaultConfig "lmstudioModel") (JStr "qwen3-vl-8b")
    else JStr "gemini-2.0-flash".
Proof.
  intros updates.
  assert (("extractionModel", "extractionProvider") ∈ steps) as H1
    by (apply (bool_decide_unpack _); by vm_compute).
  assert (truthy (get updates "extractionProvider") = true) as H2 by (by vm_compute).
  assert (strict_eq (get updates "extractionProvider") (get defaultConfig "extractionProvider")
          = false) as H3 by (by vm_compute).
  split_and!; [exact H1 | exact H2 | exact H3 |].
  exact (updateConfig_resets_the_model_on_a_provider_change defaultConfig updates _ _ H1 H2 H3).
Defined.

(** X19.  An update changes nothing but what it names, except that it may
    assign the three providers and the three models: every other property of
    the new configuration is the update's if the update has it and the
    current one otherwise.  When the update's [apiProvider] is truthy and
    differs from the current one, each provider that the update leaves falsy
    becomes that [apiProvider]; otherwise the providers are the update's. *)
Theorem updateConfig_changes_what_the_update_names currentConfig (updates : Obj) :
  let updates' := preparedUpdates currentConfig updates in
  let newConfig := spread currentConfig updates' in
  (forall k, k ∉ steps.*1 -> k ∉ steps.*2 ->
     newConfig !! k = match updates !! k with
                      | Some v => Some v
                      | None => currentConfig !! k
                      end) /\
  (forall providerKey, providerKey ∈ steps.*2 ->
     get updates' providerKey =
       if truthy (get updates "apiProvider")
          && negb (strict_eq (get updates "apiProvider") (get currentConfig "apiProvider"))
          && negb (truthy (get updates providerKey))
       then get updates "apiProvider"
       else get updates providerKey).
Proof.
  intros updates' newConfig. split.
  - intros k H1 H2. unfold newConfig, spread, updates'.
    rewrite lookup_union, preparedUpdates_other by done.
    by destruct (updates !! k), (currentConfig !! k).
  - intros providerKey H. unfold updates', get at 1.
    rewrite preparedUpdates_provider by done. by apply synced_provider.
Qed.

(** One step of the configuration that [updateConfig] saves. *)
Lemma preparedUpdates_listed currentConfig (u : Obj) :
  gemini_models_listed currentConfig ->
  gemini_models_listed (spread currentConfig (preparedUpdates currentConfig u)).
Proof.
  unfold gemini_models_listed. rewrite !list.Forall_forall.
  intros Hcur [modelKey providerKey] Hstep Hgemini Htruthy.
  set (u' := preparedUpdates currentConfig u) in *.
  pose proof (preparedUpdates_model currentConfig u _ _ Hstep) as Hm. cbv zeta in Hm.
  fold u' in Hm. rewrite Hgemini in Hm.
  specialize (Hcur _ Hstep). cbv beta iota in Hcur.
  destruct (truthy (get u' providerKey)
            && negb (strict_eq (get u' providerKey) (get currentConfig providerKey))) eqn:Hc.
  { cbv beta iota delta [from_option id] in Hm. rewrite truthy_resetModel in Hm.
    rewrite (get_spread_l _ _ _ _ Hm). apply sanitizeModelSelection_gemini. }
  destruct (u !! modelKey) as [v|] eqn:Hv; cbv beta iota delta [from_option id] in Hm.
  { destruct (truthy v) eqn:Hvt.
    - rewrite (get_spread_l _ _ _ _ Hm). apply sanitizeModelSelection_gemini.
    - rewrite (get_spread_l _ _ _ _ Hm) in Htruthy. congruence. }
  rewrite (get_spread_r _ _ _ Hm) in Htruthy |- *.
  apply Hcur; [|done].
  destruct (u' !! providerKey) as [p|] eqn:Hp.
  - rewrite (get_spread_l _ _ _ _ Hp) in Hgemini. subst p.
    rewrite (get_lookup _ _ _ Hp) in Hc.
    change (truthy (JStr "gemini")) with true in Hc. rewrite andb_true_l in Hc.
    apply negb_false_iff in Hc. by apply strict_eq_JStr in Hc.
  - by rewrite (get_spread_r _ _ _ Hp) in Hgemini.
Qed.

Lemma loaded_gemini_models_listed (l : Obj) :
  gemini_models_listed (spread defaultConfig (migrated l)).
Proof.
  unfold gemini_models_listed. rewrite list.Forall_forall.
  intros [modelKey providerKey] Hstep. by destruct (loaded_step l _ _ Hstep) as (_ & H & _).
Qed.

Lemma default_gemini_models_listed : gemini_models_listed defaultConfig.
Proof.
  unfold gemini_models_listed. rewrite list.Forall_forall.
  intros [modelKey providerKey] Hstep _ _.
  destruct (default_model_listed _ _ Hstep) as (-> & H). by exists "gemini-2.0-flash".
Qed.

(** X20.  Whatever the configuration file holds and whatever an update
    asks for, in the configuration that [loadConfig] returns and in the one
    that [updateConfig] then builds and saves, a step whose provider is
    ["gemini"] has one of the listed Gemini models, unless its model is
    falsy. *)
Theorem updateConfig_keeps_gemini_models_listed env configPath JSON_parse JSON_stringify s :
  exists currentConfig s1,
    loadConfig env configPath JSON_parse JSON_stringify s = (Return currentConfig, s1) /\
    gemini_models_listed currentConfig /\
    forall updates,
      gemini_models_listed (spread currentConfig (preparedUpdates currentConfig updates)).
Proof.
  destruct (loadConfig_spec env configPath JSON_parse JSON_stringify s)
    as (c & s1 & Hrun & _ & _ & Hcase).
  exists c, s1. split; [exact Hrun|].
  assert (gemini_models_listed c) as Hc.
  { destruct (files (world s) !! configPath) as [data|].
    - destruct Hcase as (_ & ->).
      destruct (fs_fault env (clock (world s)) OpReadFile configPath);
        [apply default_gemini_models_listed|].
      destruct (JSON_parse (String.string_of_list_byte data));
        [apply loaded_gemini_models_listed | apply default_gemini_models_listed].
    - destruct Hcase as (-> & _). apply default_gemini_models_listed. }
  split; [exact Hc|]. intros updates. by apply preparedUpdates_listed.
Qed.

(** ** The settings dialog *)

Lemma configUpdate_get (d : Dialog) :
  get (configUpdate d) "extractionProvider" = JStr (dlg_extractionProvider d) /\
  get (configUpdate d) "solutionProvider" = JStr (dlg_solutionProvider d) /\
  get (configUpdate d) "debuggingProvider" = JStr (dlg_debuggingProvider d) /\
  get (configUpdate d) "extractionModel" = JStr (dlg_extractionModel d) /\
  get (configUpdate d) "solutionModel" = JStr (dlg_solutionModel d) /\
  get (configUpdate d) "debuggingModel" = JStr (dlg_debuggingModel d) /\
  get (configUpdate d) "lmstudioModel" = JStr (dlg_lmstudioModel d) /\
  get (configUpdate d) "apiProvider" = JStr (dlg_extractionProvider d).
Proof.
  unfold configUpdate. cbv zeta. destruct (_ || _); by vm_compute.
Qed.

Lemma truthy_JStr (p : string) : p <> "" -> truthy (JStr p) = true.
Proof. intros H. simpl. apply negb_true_iff. by apply String.eqb_neq. Qed.

Lemma strict_eq_JStr_false (p : string) (v : JsValue) : v <> JStr p -> strict_eq (JStr p) v = false.
Proof.
  intros H. destruct (strict_eq (JStr p) v) eqn:E; [|done]. by apply strict_eq_JStr in E.
Qed.

(** What saving the dialog does to a step whose provider was changed. *)
Lemma configUpdate_changed currentConfig (d : Dialog) modelKey providerKey (p : string) :
  (modelKey, providerKey) ∈ steps ->
  get (configUpdate d) providerKey = JStr p ->
  p <> "" -> get currentConfig providerKey <> JStr p ->
  let newConfig := spread currentConfig (preparedUpdates currentConfig (configUpdate d)) in
  get newConfig providerKey = JStr p /\
  get newConfig modelKey = resetModel currentConfig (JStr p).
Proof.
  intros Hstep Hget Hne Hold newConfig.
  assert (get (preparedUpdates currentConfig (configUpdate d)) providerKey = JStr p) as Hp.
  { unfold get at 1. rewrite preparedUpdates_provider by by eapply steps_provider.
    fold (get (synced currentConfig (configUpdate d)) providerKey).
    rewrite synced_provider by by eapply steps_provider.
    by rewrite Hget, (truthy_JStr p Hne), andb_false_r. }
  destruct (preparedUpdates_changed currentConfig (configUpdate d) _ _ Hstep) as (H1 & H2);
    rewrite ?Hp; [by apply truthy_JStr | by apply strict_eq_JStr_false |].
  unfold newConfig. by rewrite H1, H2, Hp.
Qed.

(** X21.  When the object that [handleSave] builds from the dialog reaches
    [updateConfig], a step for which the dialog names a provider other than
    the current one is saved with the reset model: the model chosen for that
    step in the dialog is discarded, and for ["lmstudio"] the model is the
    [lmstudioModel] of the configuration on disk, not the one typed into the
    dialog. *)
Theorem handleSave_loses_the_model_of_a_changed_provider currentConfig (d : Dialog) :
  let newConfig := spread currentConfig (preparedUpdates currentConfig (configUpdate d)) in
  let reset (p : string) :=
    if String.eqb p "lmstudio"
    then js_or (get currentConfig "lmstudioModel") (JStr "qwen3-vl-8b")
    else JStr "gemini-2.0-flash" in
  (dlg_extractionProvider d <> "" ->
   get currentConfig "extractionProvider" <> JStr (dlg_extractionProvider d) ->
   get newConfig "extractionModel" = reset (dlg_extractionProvider d)) /\
  (dlg_solutionProvider d <> "" ->
   get currentConfig "solutionProvider" <> JStr (dlg_solutionProvider d) ->
   get newConfig "solutionModel" = reset (dlg_solutionProvider d)) /\
  (dlg_debuggingProvider d <> "" ->
   get currentConfig "debuggingProvider" <> JStr (dlg_debuggingProvider d) ->
   get newConfig "debuggingModel" = reset (dlg_debuggingProvider d)).
Proof.
  intros newConfig reset.
  destruct (configUpdate_get d) as (G1 & G2 & G3 & _).
  split_and!; intros Hne Hold.
  - by destruct (configUpdate_changed currentConfig d "extractionModel" "extractionProvider"
                   _ ltac:(apply (bool_decide_unpack _); by vm_compute) G1 Hne Hold).
  - by destruct (configUpdate_changed currentConfig d "solutionModel" "solutionProvider"
                   _ ltac:(apply (bool_decide_unpack _); by vm_compute) G2 Hne Hold).
  - by destruct (configUpdate_changed currentConfig d "debuggingModel" "debuggingProvider"
                   _ ltac:(apply (bool_decide_unpack _); by vm_compute) G3 Hne Hold).
Qed.

(** X22.  [maskApiKey] returns the empty string for a key of fewer than ten
    UTF-16 code units.  Of a longer key it shows the first four and the last
    four code units with three dots in between, eleven code units in all,
    however long the key is. *)
Theorem maskApiKey_shows_eight_characters (key : JsString) :
  (length key < 10 -> maskApiKey key = code_units "") /\
  (10 <= length key ->
   exists first middle last,
     key = first ++ middle ++ last /\
     length first = 4 /\ length last = 4 /\
     maskApiKey key = first ++ code_units "..." ++ last /\
     length (maskApiKey key) = 11).
Proof.
  unfold maskApiKey. split.
  - intros H. apply Nat.ltb_lt in H. rewrite H. by rewrite orb_true_r.
  - intros H.
    assert ((length key =? 0) = false) as -> by (apply Nat.eqb_neq; lia).
    assert ((length key <? 10) = false) as -> by (apply Nat.ltb_ge; lia).
    cbn [orb]. unfold js_substring_from, js_substring.
    replace (0 `min` length key) with 0 by lia.
    replace (4 `min` length key) with 4 by lia.
    replace ((length key - 4) `min` length key) with (length key - 4) by lia.
    replace (length key `min` length key) with (length key) by lia.
    replace (0 `max` 4 - 0 `min` 4) with 4 by lia.
    replace ((length key - 4) `max` length key - (length key - 4) `min` length key)
      with 4 by lia.
    replace ((length key - 4) `min` length key) with (length key - 4) by lia.
    replace (0 `min` 4) with 0 by lia.
    rewrite drop_0, (take_ge (drop (length key - 4) key))
      by (rewrite length_drop; lia).
    exists (take 4 key), (take (length key - 8) (drop 4 key)), (drop (length key - 4) key).
    split_and!.
    + rewrite <- (take_drop 4 key) at 1. f_equal.
      rewrite <- (take_drop (length key - 8) (drop 4 key)) at 1. f_equal.
      rewrite drop_drop. f_equal. lia.
    + rewrite length_take. lia.
    + rewrite length_drop. lia.
    + done.
    + rewrite !length_app, length_take, length_drop.
      change (length (code_units "...")) with 3. lia.
Qed.

(** A key of five accented letters has five code units, and is masked away. *)
Example maskApiKey_counts_code_units : maskApiKey (replicate 5 233%N) = [].
Proof. reflexivity. Qed.

(** A key of ten code units, the first of them an [é]. *)
Example maskApiKey_of_ten_code_units :
  maskApiKey (233%N :: code_units "bcdefghij") = 233%N :: code_units "bcd...ghij".
Proof. reflexivity. Qed.

(** ** The accessors of the configuration *)

(** X23.  [hasApiKey] answers [true] without looking at the key when no step
    uses Gemini, and [false] when a step does and the key is falsy.  It
    throws exactly when a step uses Gemini and the stored key is truthy but
    not a string. *)
Theorem hasApiKey_throws_only_on_a_key_that_is_no_string
    env configPath JSON_parse JSON_stringify trim js_length s :
  exists config s1,
    loadConfig env configPath JSON_parse JSON_stringify s = (Return config, s1) /\
    snd (hasApiKey env configPath JSON_parse JSON_stringify trim js_length s) = s1 /\
    let result := fst (hasApiKey env configPath JSON_parse JSON_stringify trim js_length s) in
    (usesGemini config = false -> result = Return true) /\
    (usesGemini config = true -> truthy (get config "apiKey") = false ->
     result = Return false) /\
    (usesGemini config = true ->
     forall apiKey, apiKey <> "" -> get config "apiKey" = JStr apiKey ->
       result = Return (0 <? js_length (trim apiKey))) /\
    ((exists e, result = Throw e) <->
     usesGemini config = true /\ truthy (get config "apiKey") = true /\
     forall apiKey, get config "apiKey" <> JStr apiKey).
Proof.
  destruct (loadConfig_spec env configPath JSON_parse JSON_stringify s)
    as (config & s1 & Hload & _).
  exists config, s1. split; [exact Hload|].
  unfold hasApiKey. rewrite (bind_Return _ _ _ _ _ Hload). cbv zeta.
  fold (usesGemini config). generalize (usesGemini config). intros uses.
  generalize (get config "apiKey"). intros key. clear Hload.
  destruct uses.
  - destruct (truthy key) eqn:Ht.
    + destruct key as [| |b|n|k|]; simpl; (split; [done|]);
        (split_and!; [done | done | .. ]).
      all: try (intros _ apiKey Hne [=]); try done.
      all: try (split; [intros _; split_and!; done | by eexists]).
      * by subst.
      * split; [by intros (e & [=]) | intros (_ & _ & H)]. by destruct (H k).
    + simpl. split; [done|]. split_and!; try done.
      * intros _ apiKey Hne ->. simpl in Ht. apply negb_false_iff, String.eqb_eq in Ht.
        by destruct Hne.
      * split; [by intros (e & [=]) | by intros (_ & [=] & _)].
  - simpl. split; [done|]. split_and!; try done.
    split; [by intros (e & [=]) | by intros ([=] & _)].
Qed.

Section SetAndGet.

Variable env : Env.
Variable configPath : string.
Variable JSON_parse : string -> option Obj.
Variable JSON_stringify : Obj -> string.
Variable listeners : Obj -> M unit.

Hypothesis Hnf : no_fault env.
Hypothesis Hquiet : forall config s, listeners config s = (Return tt, s).

(** An update that is followed by a load. *)
Lemma updateConfig_then_loadConfig updates s currentConfig s1 :
  loadConfig env configPath JSON_parse JSON_stringify s = (Return currentConfig, s1) ->
  let newConfig := spread currentConfig (preparedUpdates currentConfig updates) in
  JSON_parse (JSON_stringify newConfig) = Some newConfig ->
  exists s2 s3,
    updateConfig env configPath JSON_parse JSON_stringify listeners updates s
      = (Return newConfig, s2) /\
    loadConfig env configPath JSON_parse JSON_stringify s2
      = (Return (spread defaultConfig (migrated newConfig)), s3).
Proof.
  intros Hload newConfig Hround.
  destruct (saveConfig_spec env configPath JSON_stringify newConfig s1)
    as (s2 & Hsave & _ & _ & _ & Hfiles).
  specialize (Hfiles (fun n p => Hnf n OpMkdir p) (fun n p => Hnf n OpWriteFile p)).
  destruct (loadConfig_spec env configPath JSON_parse JSON_stringify s2)
    as (c & s3 & Hload2 & _ & _ & Hcase).
  rewrite Hfiles, lookup_insert_eq, Hnf, String.string_of_list_byte_of_string, Hround in Hcase.
  destruct Hcase as (_ & ->).
  exists s2, s3. split; [|exact Hload2].
  unfold updateConfig, try_catch.
  rewrite (bind_Return _ _ _ _ _ Hload). cbv zeta. fold newConfig.
  rewrite (bind_Return _ _ _ _ _ Hsave).
  unfold bind, ret. by rewrite Hquiet.
Qed.

End SetAndGet.

(** An update that names neither a provider nor a model is left as it is. *)
Lemma preparedUpdates_plain currentConfig (u : Obj) :
  truthy (get u "apiProvider") = false ->
  Forall (fun '(modelKey, providerKey) =>
    truthy (get u providerKey) = false /\ truthy (get u modelKey) = false) steps ->
  preparedUpdates currentConfig u = u.
Proof.
  unfold steps. intros Hapi Hall.
  apply list.Forall_cons in Hall as ((P1 & M1) & Hall).
  apply list.Forall_cons in Hall as ((P2 & M2) & Hall).
  apply list.Forall_cons in Hall as ((P3 & M3) & _).
  unfold preparedUpdates. rewrite Hapi. cbn [andb]. cbv zeta.
  rewrite P1, P2, P3. unfold sanitizeUpdate. by rewrite M1, M2, M3.
Qed.

Lemma preparedUpdates_singleton currentConfig key (v : JsValue) :
  key <> "apiProvider" -> key ∉ steps.*1 -> key ∉ steps.*2 ->
  preparedUpdates currentConfig {[ key := v ]} = {[ key := v ]}.
Proof.
  intros Hapi H1 H2.
  assert (forall k, k <> key -> truthy (get ({[ key := v ]} : Obj) k) = false) as Hget.
  { intros k Hk. unfold get. by rewrite lookup_singleton_ne. }
  apply preparedUpdates_plain; [by apply Hget|].
  unfold steps. repeat constructor; apply Hget; intros <-;
    first [ apply H1; apply (bool_decide_unpack _); by vm_compute
          | apply H2; apply (bool_decide_unpack _); by vm_compute ].
Qed.

Lemma get_loaded_other (l : Obj) key v :
  key ∉ steps.*1 -> key ∉ steps.*2 -> l !! key = Some v ->
  get (spread defaultConfig (migrated l)) key = v.
Proof. intros H1 H2 Hl. apply get_spread_l. by rewrite migrated_other. Qed.

Lemma Qle_bool_total (x y : QArith_base.Q) :
  QArith_base.Qle_bool x y = false -> QArith_base.Qle_bool y x = true.
Proof.
  intros H. apply QArith_base.Qle_bool_iff.
  destruct (QArith_base.Qlt_le_dec y x) as [Hlt|Hle].
  - by apply QArith_base.Qlt_le_weak.
  - apply QArith_base.Qle_bool_iff in Hle. congruence.
Qed.

Lemma validOpacity_range (opacity : JsNumber) :
  (opacity = NaN -> validOpacity opacity = NaN) /\
  (opacity <> NaN ->
   num_le (Finite tenth) (validOpacity opacity) = true /\
   num_le (validOpacity opacity) (Finite (QArith_base.Qmake 1 1)) = true) /\
  (num_le (Finite tenth) opacity = true ->
   num_le opacity (Finite (QArith_base.Qmake 1 1)) = true ->
   strict_eq (JNum (validOpacity opacity)) (JNum opacity) = true).
Proof.
  unfold validOpacity. destruct opacity as [| | |q].
  - split_and!; done.
  - split_and!; [done | intros _; by vm_compute | done].
  - split_and!; [done | intros _; by vm_compute | done].
  - unfold Math_max, Math_min, num_le.
    destruct (QArith_base.Qle_bool tenth q) eqn:E1.
    + destruct (QArith_base.Qle_bool (QArith_base.Qmake 1 1) q) eqn:E2.
      * split_and!; [done | intros _; by vm_compute |].
        intros _ E3. simpl. apply QArith_base.Qeq_bool_iff.
        apply QArith_base.Qle_bool_iff in E2, E3. by apply QArith_base.Qle_antisym.
      * split_and!; [done | intros _; split; [done | by apply Qle_bool_total] |].
        intros _ _. simpl. apply QArith_base.Qeq_bool_iff. reflexivity.
    + split_and!; [done | intros _; by vm_compute | done].
Qed.

(** X24.  [setOpacity] stores [Math.min(1.0, Math.max(0.1, opacity))]: a
    value between 0.1 and 1 for every number, the number itself when it
    already lies in that range, and [NaN] for [NaN].  As long as no
    file-system call fails, no listener interferes and the new configuration
    survives [JSON.stringify] and [JSON.parse], [getOpacity] returns that
    value afterwards. *)
Theorem setOpacity_then_getOpacity env configPath JSON_parse JSON_stringify listeners
    opacity s currentConfig s1 :
  no_fault env ->
  (forall config s, listeners config s = (Return tt, s)) ->
  loadConfig env configPath JSON_parse JSON_stringify s = (Return currentConfig, s1) ->
  let newConfig := spread currentConfig {[ "opacity" := JNum (validOpacity opacity) ]} in
  JSON_parse (JSON_stringify newConfig) = Some newConfig ->
  fst ((setOpacity env configPath JSON_parse JSON_stringify listeners opacity ;;
        getOpacity env configPath JSON_parse JSON_stringify)%js s)
    = Return (JNum (validOpacity opacity)) /\
  (opacity = NaN -> validOpacity opacity = NaN) /\
  (opacity <> NaN ->
   num_le (Finite tenth) (validOpacity opacity) = true /\
   num_le (validOpacity opacity) (Finite (QArith_base.Qmake 1 1)) = true) /\
  (num_le (Finite tenth) opacity = true ->
   num_le opacity (Finite (QArith_base.Qmake 1 1)) = true ->
   strict_eq (JNum (validOpacity opacity)) (JNum opacity) = true).
Proof.
  intros Hnf Hquiet Hload newConfig Hround. split; [|apply validOpacity_range].
  assert (preparedUpdates currentConfig {[ "opacity" := JNum (validOpacity opacity) ]}
          = {[ "opacity" := JNum (validOpacity opacity) ]}) as Hplain.
  { apply preparedUpdates_singleton; [done|..];
      intros ?%(bool_decide_pack _); by vm_compute. }
  pose proof (updateConfig_then_loadConfig env configPath JSON_parse JSON_stringify listeners
                Hnf Hquiet {[ "opacity" := JNum (validOpacity opacity) ]} s currentConfig s1 Hload) as H.
  cbv zeta in H. rewrite Hplain in H. destruct (H Hround) as (s2 & s3 & Hupdate & Hload2).
  clear H. fold newConfig in Hupdate, Hload2.
  unfold setOpacity. fold (validOpacity opacity).
  assert ((updateConfig env configPath JSON_parse JSON_stringify listeners
             {[ "opacity" := JNum (validOpacity opacity) ]} ;; ret tt)%js s = (Return tt, s2))
    as Hset by (by rewrite (bind_Return _ _ _ _ _ Hupdate)).
  rewrite (bind_Return _ _ _ _ _ Hset).
  unfold getOpacity. rewrite (bind_Return _ _ _ _ _ Hload2). unfold ret. cbn [fst].
  assert (get (spread defaultConfig (migrated newConfig)) "opacity"
          = JNum (validOpacity opacity)) as ->.
  { apply get_loaded_other; try (intros ?%(bool_decide_pack _); by vm_compute).
    unfold newConfig, spread. apply lookup_union_Some_l, lookup_singleton_eq. }
  by destruct (validOpacity opacity).
Qed.

(** An instance of X24: the first start of the application, and an opacity
    of a twentieth, which is stored as [0.1]. *)
Lemma setOpacity_then_getOpacity_witness :
  let opacity := Finite (QArith_base.Qmake 1 20) in
  let s := mkSt world_empty (mkHelper 0 0 queue) in
  let newConfig := spread defaultConfig {[ "opacity" := JNum (validOpacity opacity) ]} in
  let table := [defaultConfig; newConfig] in
  let s1 := snd (loadConfig env_posix "/data/config.json" (parse_table table)
                   (stringify_table table) s) in
  no_fault env_posix /\
  (forall config s, no_listeners config s = (Return tt, s)) /\
  loadConfig env_posix "/data/config.json" (parse_table table) (stringify_table table) s
    = (Return defaultConfig, s1) /\
  parse_table table (stringify_table table newConfig) = Some newConfig /\
  fst ((setOpacity env_posix "/data/config.json" (parse_table table) (stringify_table table)
          no_listeners opacity ;;
        getOpacity env_posix "/data/config.json" (parse_table table) (stringify_table table))%js s)
    = Return (JNum (Finite tenth)).
Proof.
  intros opacity s newConfig table s1.
  assert (no_fault env_posix) as H1 by (intros n op p; reflexivity).
  assert (forall config s, no_listeners config s = (Return tt, s)) as H2 by reflexivity.
  assert (loadConfig env_posix "/data/config.json" (parse_table table) (stringify_table table) s
          = (Return defaultConfig, s1)) as H3 by (by apply loadConfig_fresh).
  assert (parse_table table (stringify_table table newConfig) = Some newConfig) as H4.
  { apply parse_table_stringify_table, list_elem_of_further, list_elem_of_here. }
  split_and!; [exact H1 | exact H2 | exact H3 | exact H4 |].
  exact (proj1 (setOpacity_then_getOpacity env_posix "/data/config.json" (parse_table table)
                  (stringify_table table) no_listeners opacity s defaultConfig s1 H1 H2 H3 H4)).
Defined.

(** On the same machine [getOpacity] alone returns the default, [1]. *)
Example getOpacity_at_the_first_start :
  let table := [defaultConfig] in
  let s := mkSt world_empty (mkHelper 0 0 queue) in
  fst (getOpacity env_posix "/data/config.json" (parse_table table) (stringify_table table) s)
    = Return (JNum (Finite (QArith_base.Qmake 1 1))).
Proof.
  intros table s. unfold getOpacity.
  rewrite (bind_Return _ _ _ _ _
             (loadConfig_fresh env_posix "/data/config.json" (parse_table table)
                (stringify_table table) s eq_refl)).
  unfold ret. cbn [fst]. f_equal.
Qed.

(** X25.  Under the same conditions, [getLanguage] after [setLanguage]
    returns the language that was set if it is truthy, and ["python"] if it
    is falsy, for instance the empty string. *)
Theorem setLanguage_then_getLanguage env configPath JSON_parse JSON_stringify listeners
    language s currentConfig s1 :
  no_fault env ->
  (forall config s, listeners config s = (Return tt, s)) ->
  loadConfig env configPath JSON_parse JSON_stringify s = (Return currentConfig, s1) ->
  let newConfig := spread currentConfig {[ "language" := language ]} in
  JSON_parse (JSON_stringify newConfig) = Some newConfig ->
  fst ((setLanguage env configPath JSON_parse JSON_stringify listeners language ;;
        getLanguage env configPath JSON_parse JSON_stringify)%js s)
    = Return (if truthy language then language else JStr "python").
Proof.
  intros Hnf Hquiet Hload newConfig Hround.
  assert (preparedUpdates currentConfig {[ "language" := language ]}
          = {[ "language" := language ]}) as Hplain.
  { apply preparedUpdates_singleton; [done|..];
      intros ?%(bool_decide_pack _); by vm_compute. }
  pose proof (updateConfig_then_loadConfig env configPath JSON_parse JSON_stringify listeners
                Hnf Hquiet {[ "language" := language ]} s currentConfig s1 Hload) as H.
  cbv zeta in H. rewrite Hplain in H. destruct (H Hround) as (s2 & s3 & Hupdate & Hload2).
  clear H. fold newConfig in Hupdate, Hload2.
  unfold setLanguage.
  assert ((updateConfig env configPath JSON_parse JSON_stringify listeners
             {[ "language" := language ]} ;; ret tt)%js s = (Return tt, s2))
    as Hset by (by rewrite (bind_Return _ _ _ _ _ Hupdate)).
  rewrite (bind_Return _ _ _ _ _ Hset).
  unfold getLanguage. rewrite (bind_Return _ _ _ _ _ Hload2). unfold ret. cbn [fst].
  assert (get (spread defaultConfig (migrated newConfig)) "language" = language) as ->.
  { apply get_loaded_other; try (intros ?%(bool_decide_pack _); by vm_compute).
    unfold newConfig, spread. apply lookup_union_Some_l, lookup_singleton_eq. }
  done.
Qed.

(** An instance of X25: the first start of the application, and ["rust"]
    as the language. *)
Lemma setLanguage_then_getLanguage_witness :
  let language := JStr "rust" in
  let s := mkSt world_empty (mkHelper 0 0 queue) in
  let newConfig := spread defaultConfig {[ "language" := language ]} in
  let table := [defaultConfig; newConfig] in
  let s1 := snd (loadConfig env_posix "/data/config.json" (parse_table table)
                   (stringify_table table) s) in
  no_fault env_posix /\
  (forall config s, no_listeners config s = (Return tt, s)) /\
  loadConfig env_posix "/data/config.json" (parse_table table) (stringify_table table) s
    = (Return defaultConfig, s1) /\
  parse_table table (stringify_table table newConfig) = Some newConfig /\
  fst ((setLanguage env_posix "/data/config.json" (parse_table table) (stringify_table table)
          no_listeners language ;;
        getLanguage env_posix "/data/config.json" (parse_table table) (stringify_table table))%js s)
    = Return (JStr "rust").
Proof.
  intros language s newConfig table s1.
  assert (no_fault env_posix) as H1 by (intros n op p; reflexivity).
  assert (forall config s, no_listeners config s = (Return tt, s)) as H2 by reflexivity.
  assert (loadConfig env_posix "/data/config.json" (parse_table table) (stringify_table table) s
          = (Return defaultConfig, s1)) as H3 by (by apply loadConfig_fresh).
  assert (parse_table table (stringify_table table newConfig) = Some newConfig) as H4.
  { apply parse_table_stringify_table, list_elem_of_further, list_elem_of_here. }
  split_and!; [exact H1 | exact H2 | exact H3 | exact H4 |].
  exact (setLanguage_then_getLanguage env_posix "/data/config.json" (parse_table table)
           (stringify_table table) no_listeners language s defaultConfig s1 H1 H2 H3 H4).
Defined.

(** On the same machine [getLanguage] alone returns the default,
    ["python"]. *)
Example getLanguage_at_the_first_start :
  let table := [defaultConfig] in
  let s := mkSt world_empty (mkHelper 0 0 queue) in
  fst (getLanguage env_posix "/data/config.json" (parse_table table) (stringify_table table) s)
    = Return (JStr "python").
Proof.
  intros table s. unfold getLanguage.
  rewrite (bind_Return _ _ _ _ _
             (loadConfig_fresh env_posix "/data/config.json" (parse_table table)
                (stringify_table table) s eq_refl)).
  unfold ret. cbn [fst]. f_equal.
Qed.

(** X26.  [ensureConfigExists], which the constructor runs, never throws.
    When a file or a directory is at [configPath] it changes nothing; when
    nothing is there and neither creating the directory nor writing fails,
    it writes the default configuration; no other file is touched. *)
Theorem ensureConfigExists_writes_the_defaults_once env configPath JSON_stringify s :
  exists s',
    ensureConfigExists env configPath JSON_stringify s = (Return tt, s') /\
    io_frame s s' /\
    (forall p, p <> configPath -> files (world s') !! p = files (world s) !! p) /\
    (is_Some (files (world s) !! configPath) \/ configPath ∈ dirs (world s) -> s' = s) /\
    (files (world s) !! configPath = None -> configPath ∉ dirs (world s) ->
     (forall n p, fs_fault env n OpMkdir p = None) ->
     (forall n p, fs_fault env n OpWriteFile p = None) ->
     files (world s') !! configPath
       = Some (String.list_byte_of_string (JSON_stringify defaultConfig))).
Proof.
  unfold ensureConfigExists, try_catch. generalize defaultConfig. intros d.
  cbv [bind existsSync get_world ret]. cbn [fst snd].
  destruct (bool_decide (is_Some (files (world s) !! configPath))) eqn:Hf.
  { exists s. apply bool_decide_eq_true in Hf. cbn [orb negb when].
    split_and!; try done; try apply io_frame_refl.
    intros Hn. rewrite Hn in Hf. by destruct Hf as [? [=]]. }
  destruct (bool_decide (configPath ∈ dirs (world s))) eqn:Hd.
  { exists s. apply bool_decide_eq_true in Hd. cbn [orb negb when].
    split_and!; try done; try apply io_frame_refl. }
  apply bool_decide_eq_false in Hf, Hd. cbn [orb negb when].
  destruct (saveConfig_spec env configPath JSON_stringify d s)
    as (s' & -> & Hio & _ & Hfiles & Hok).
  exists s'. split_and!; try done.
  - intros p Hp. destruct Hfiles as [-> | ->]; [done | by apply lookup_insert_ne].
  - by intros [|].
  - intros _ _ Hm Hw. rewrite (Hok Hm Hw). apply lookup_insert_eq.
Qed.

(** X27.  [testApiKey] is [testGeminiKey]: it accepts a key exactly when the
    key is not empty and has at least twenty characters after trimming,
    and it reports the fixed message otherwise.  Every key that it accepts
    also passes [isValidApiKeyFormat], which asks for ten. *)
Theorem testApiKey_asks_for_twenty_characters trim js_length (apiKey : string) :
  let result := testApiKey trim js_length apiKey in
  (valid result = true <-> apiKey <> "" /\ 20 <= js_length (trim apiKey)) /\
  (valid result = true -> test_error result = None) /\
  (valid result = false -> test_error result = Some "Invalid Gemini API key format.") /\
  (valid result = true -> isValidApiKeyFormat trim js_length apiKey = true).
Proof.
  unfold testApiKey, testGeminiKey, isValidApiKeyFormat.
  destruct (String.eqb_spec apiKey "") as [->|Hne]; cbn [negb andb].
  - split_and!; try done. split; [done | by intros ([] & _)].
  - destruct (Nat.leb_spec 20 (js_length (trim apiKey))) as [H|H]; cbn [valid test_error].
    + split_and!; try done. intros _. apply Nat.leb_le. lia.
    + split_and!; try done. split; [done | intros (_ & ?); lia].
Qed.
